(** * VideoCrush: the encode orchestration engine of [video_compressor.py]

    A shallow embedding of [CompressionWorker] (the bitrate planner, the
    command builder, the process supervisor [_run_ffmpeg] and the pass
    sequencing of [run]) together with the properties of its behaviour.

    Conventions of the embedding.
    - Python [float] values ([target_mb], [duration] and what is computed
      from them) are exact rationals [Q]; Python [int] values are [Z].
      [int(x)] on a float truncates toward zero ([py_int]).
    - The diagnostic stream is a [list byte]; decoded text is a
      [list ascii], one character per byte, which is exact for the ASCII
      text the encoder prints.
    - Everything outside the worker (the host platform, the probe result,
      the encoder processes, the moment at which another thread sets the
      cancellation flag, files that cannot be removed) is a field of [env].
    - The worker's effects are recorded in a [world]: the files that exist
      and a chronological trace of signals and system calls. *)

From stdpp Require Import base option list gmap strings pretty.
From Stdlib Require Import ZArith QArith Qround Ascii String Lia Lqa.
From Stdlib.Strings Require Import Byte.

Close Scope Q_scope.
Open Scope Z_scope.

Set Warnings "-clear-no-such-hyp".

(** ** Numbers *)

(** [int(x)] for a float [x]: truncation toward zero. *)
Definition py_int (x : Q) : Z := Z.quot (Qnum x) (Z.pos (Qden x)).

(** ** Messages *)

(** The exceptions the worker's calls can raise. *)
Inductive exn :=
| KeyError (key : string)      (* info['format'] without that key *)
| ValueError                   (* int(...) of a string that is no number *)
| PopenError                   (* subprocess.Popen could not start *)
| RemoveError (path : string). (* os.remove failed *)

(** The messages carried by the [error] signal. *)
Inductive error_msg :=
| ToolNotFound                 (* "FFmpeg not found. Please install ..." *)
| ProbeFailed                  (* "Could not read video file metadata." *)
| InvalidDuration              (* "Could not determine video duration." *)
| InsufficientBudget           (* "Target file size is too small for ..." *)
| BitrateTooLow (video_kbps : Z) (* "Calculated video bitrate (..) is too low" *)
| OutputMissing                (* "Output file was not created. ..." *)
| Uncaught (e : exn).          (* f"{type(e).__name__}: {e}" *)

(** ** The bitrate planner ([run], "Calculate target bitrate") *)

(** One entry of [info['streams']]: the two fields the worker reads. *)
Record stream := {
  codec_type : option string;
  bit_rate : option Z;
}.

Definition is_audio (s : stream) : bool :=
  bool_decide (codec_type s = Some "audio"%string).

(** The [for stream in info.get('streams', [])] loop with its [break]. *)
Fixpoint source_audio_kbps (streams : list stream) (audio_kbps : Z) : Z :=
  match streams with
  | [] => audio_kbps
  | s :: rest =>
      if is_audio s then default 128000 (bit_rate s) / 1000
      else source_audio_kbps rest audio_kbps
  end.

Definition resolve_audio_kbps (audio_codec : string) (audio_bitrate : Z)
    (streams : list stream) : Z :=
  let audio_kbps :=
    if bool_decide (audio_codec ∉ ["copy"; "an"]%string) then audio_bitrate else 0 in
  if bool_decide (audio_codec = "copy"%string)
  then source_audio_kbps streams audio_kbps
  else audio_kbps.

Definition target_bits (target_mb : Q) : Q :=
  (target_mb * 8 * 1024 * 1024)%Q.

Definition audio_bits (audio_kbps : Z) (duration : Q) : Q :=
  (inject_Z audio_kbps * 1000 * duration)%Q.

Definition video_bits (target_mb duration : Q) (audio_kbps : Z) : Q :=
  (target_bits target_mb - audio_bits audio_kbps duration)%Q.

Inductive plan_result :=
| PlanFailed (e : error_msg)
| Planned (video_kbps : Z).

Definition plan_bitrate (target_mb duration : Q) (audio_kbps : Z) : plan_result :=
  let video_bits := video_bits target_mb duration audio_kbps in
  if Qle_bool video_bits 0 then PlanFailed InsufficientBudget
  else
    let video_kbps := py_int (video_bits / duration / 1000)%Q in
    if video_kbps <? 50 then PlanFailed (BitrateTooLow video_kbps)
    else Planned video_kbps.

(** ** Text of the diagnostic stream *)

Definition CR : byte := x0d.

(** [bytes.split(sep)]: the pieces between the separators, never empty. *)
Fixpoint bytes_split (sep : byte) (s : list byte) : list (list byte) :=
  match s with
  | [] => [[]]
  | b :: s' =>
      if Byte.eqb b sep then [] :: bytes_split sep s'
      else match bytes_split sep s' with
           | [] => [[b]]
           | piece :: pieces => (b :: piece) :: pieces
           end
  end.

(** [line.decode('utf-8', errors='replace')], one character per byte. *)
Definition decode (line : list byte) : list ascii := map ascii_of_byte line.

(** [str.isspace] on the ASCII range: 0x09-0x0d, 0x1c-0x1f and the blank. *)
Definition isspace (c : ascii) : bool :=
  let n := nat_of_ascii c in
  ((9 <=? n) && (n <=? 13) || (28 <=? n) && (n <=? 32))%nat.

Fixpoint lstrip (t : list ascii) : list ascii :=
  match t with
  | c :: t' => if isspace c then lstrip t' else t
  | [] => []
  end.

Definition strip (t : list ascii) : list ascii := rev (lstrip (rev (lstrip t))).

Definition lower_char (c : ascii) : ascii :=
  let n := nat_of_ascii c in
  if ((65 <=? n) && (n <=? 90))%nat then ascii_of_nat (n + 32) else c.

Definition lower (t : list ascii) : list ascii := map lower_char t.

Fixpoint startswith (prefix t : list ascii) : bool :=
  match prefix, t with
  | [], _ => true
  | p :: prefix', c :: t' => Ascii.eqb p c && startswith prefix' t'
  | _ :: _, [] => false
  end.

(** [kw in text] *)
Fixpoint contains (kw t : list ascii) : bool :=
  startswith kw t || match t with [] => false | _ :: t' => contains kw t' end.

Definition error_keywords : list (list ascii) :=
  map list_ascii_of_string ["error"; "invalid"; "failed"; "unknown"]%string.

(** *** The timestamp pattern [time=(\d+):(\d+):(\d+)\.(\d+)] *)

Definition isdigit (c : ascii) : bool :=
  let n := nat_of_ascii c in ((48 <=? n) && (n <=? 57))%nat.

(** The longest run of digits at the head of [t], and what follows it. *)
Fixpoint span_digits (t : list ascii) : list ascii * list ascii :=
  match t with
  | c :: t' =>
      if isdigit c then let '(ds, rest) := span_digits t' in (c :: ds, rest)
      else ([], t)
  | [] => ([], [])
  end.

(** [\d+]: greedy; every group of the pattern is followed by a character that
    is no digit, so a shorter run can never match where the longest fails. *)
Definition digits1 (t : list ascii) : option (list ascii * list ascii) :=
  match span_digits t with
  | ([], _) => None
  | (ds, rest) => Some (ds, rest)
  end.

Definition expect (lit : string) (t : list ascii) : option (list ascii) :=
  let l := list_ascii_of_string lit in
  if startswith l t then Some (drop (List.length l) t) else None.

Definition groups : Type := list ascii * list ascii * list ascii * list ascii.

(** A match of the pattern that starts at the head of [t]. *)
Definition match_time (t : list ascii) : option groups :=
  t ← expect "time=" t;
  '(h, t) ← digits1 t;
  t ← expect ":" t;
  '(m, t) ← digits1 t;
  t ← expect ":" t;
  '(s, t) ← digits1 t;
  t ← expect "." t;
  '(f, _) ← digits1 t;
  Some (h, m, s, f).

(** [re.search]: the leftmost match. *)
Fixpoint re_search_time (t : list ascii) : option groups :=
  match match_time t with
  | Some g => Some g
  | None => match t with [] => None | _ :: t' => re_search_time t' end
  end.

(** [int(s)] for a string of decimal digits. *)
Definition int_of_digits (ds : list ascii) : Z :=
  fold_left (λ acc c, acc * 10 + (Z.of_nat (nat_of_ascii c) - 48)) ds 0.

(** [pct = min(int(current / duration * 100), 100) if duration > 0 else 0] *)
Definition progress_pct (current : Z) (duration : Q) : Z :=
  if Qle_bool duration 0 then 0
  else Z.min (py_int (inject_Z current / duration * 100)%Q) 100.

(** [proc.stderr.read(256)] until the stream ends: the chunks that the
    successive reads return (the last, empty read excluded). *)
Definition CHUNK : nat := 256.

Fixpoint chunks_upto (fuel n : nat) (s : list byte) : list (list byte) :=
  match fuel, s with
  | S fuel', _ :: _ => take n s :: chunks_upto fuel' n (drop n s)
  | _, _ => []
  end.

Definition chunks (n : nat) (s : list byte) : list (list byte) :=
  chunks_upto (List.length s) n s.

(** ** Signals, system calls and the world *)

(** The payload of the [log] signal, one constructor per message. *)
Inductive log_msg :=
| LogDuration (duration : Q)
| LogTarget (target_mb : Q)
| LogVideoBitrate (video_kbps : Z)
| LogAudioBitrate (audio_kbps : Z)
| LogBlank
| LogPassBanner (pass_num : Z)        (* "=== Pass n / 2 ===" *)
| LogCommand (cmd : list string)      (* "  > ffmpeg -y -i ..." *)
| LogWarning (text : list ascii)      (* a line with an error keyword *)
| LogFailureTail (text : list ascii)  (* the tail of the buffer after a failure *)
| LogCancelled
| LogComplete
| LogInputSize (size : Z)
| LogOutputSize (size : Z)
| LogSaved (ratio : Q).

Inductive status_msg :=
| StatusAnalyzing                     (* "Pass 1/2 - Analyzing..." *)
| StatusEncoding                      (* "Pass 2/2 - Encoding..." *)
| StatusCancelled.                    (* "Cancelled" *)

(** The five signals of [CompressionWorker]. *)
Inductive signal :=
| Progress (pct : Z)
| Log (m : log_msg)
| Status (s : status_msg)
| Finished (output : string) (size : Z) (ratio : Q)
| Error (e : error_msg).

(** What the worker does, in the order it does it. *)
Inductive event :=
| Sig (s : signal)                    (* a signal is emitted *)
| Popen (cmd : list string) (started : bool)
| Poll (cancelled : bool)             (* self._cancelled is read *)
| Read (chunk : list byte)            (* proc.stderr.read(256) returns *)
| Terminate                           (* proc.terminate() *)
| Wait                                (* proc.wait() *)
| Exists (path : string) (found : bool)
| Remove (path : string) (removed : bool).

(** An encoder process as the worker sees it. *)
Record process := {
  p_stderr : list byte;               (* all it writes to its error channel *)
  p_returncode : Z;                   (* its exit status when left to finish *)
  p_creates : gset string;            (* the files it creates *)
}.

Record format_section := {
  fmt_duration : option Q;            (* info['format'].get('duration') *)
}.

(** A probe result that is not empty. *)
Record media_info := {
  info_format : option format_section;
  info_streams : list stream;
}.

(** Everything the worker depends on and does not decide. *)
Record env := {
  platform_win32 : bool;                         (* sys.platform == 'win32' *)
  os_path_dirname : string → string;
  os_path_join : string → string → string;
  os_path_getsize : string → Z;
  find_ffmpeg : option string;
  probe_video : string → option media_info;      (* None: nothing usable *)
  subprocess_Popen : list string → option process; (* None: it raises *)
  cancel_at : option nat;   (* the first read of the flag that sees it set *)
  locked : gset string;     (* the paths os.remove fails on *)
}.

Record world := {
  flag_reads : nat;         (* how often self._cancelled was read *)
  files : gset string;      (* the paths that exist *)
  trace : list event;
}.

Inductive outcome (A : Type) :=
| Val (a : A)
| Raised (e : exn).
Arguments Val {A} a.
Arguments Raised {A} e.

(** A computation of the worker: it changes the world and returns a value
    or raises. *)
Definition M (A : Type) : Type := world → outcome A * world.

#[export] Instance M_ret : MRet M := λ A a w, (Val a, w).

#[export] Instance M_bind : MBind M := λ A B f m w,
  match m w with
  | (Val a, w') => f a w'
  | (Raised e, w') => (Raised e, w')
  end.

Definition raise {A} (e : exn) : M A := λ w, (Raised e, w).

(** [try: body  except Exception as e: handler(e)] *)
Definition try_except {A} (body : M A) (handler : exn → M A) : M A := λ w,
  match body w with
  | (Val a, w') => (Val a, w')
  | (Raised e, w') => handler e w'
  end.

Definition record (e : event) : M unit := λ w,
  (Val (), {| flag_reads := flag_reads w; files := files w;
              trace := trace w ++ [e] |}).

Definition emit (s : signal) : M unit := record (Sig s).

Fixpoint for_each {A} (body : A → M unit) (l : list A) : M unit :=
  match l with
  | [] => mret ()
  | x :: l' => body x ;; for_each body l'
  end.

Definition when (b : bool) (body : M unit) : M unit :=
  if b then body else mret ().

(** ** The worker *)

(** The fields [CompressionWorker.__init__] stores. *)
Record worker := {
  input_path : string;
  output_path : string;
  target_mb : Q;
  video_codec : string;
  audio_codec : string;
  preset : string;
  resolution : string;
  audio_bitrate : Z;
}.

(** Truth value of a string: it is not empty. *)
Definition truthy (s : string) : bool := bool_decide (s ≠ ""%string).

(** [s.replace(c, '')] *)
Definition str_remove (c : ascii) (s : string) : string :=
  string_of_list_ascii (filter (λ x, x ≠ c) (list_ascii_of_string s)).

(** [int(s)] for a string: here the decimal digit strings only (a sign,
    blanks or underscores, which Python also reads, count as no number). *)
Definition int_of_str (s : string) : option Z :=
  let t := list_ascii_of_string s in
  if forallb isdigit t && negb (bool_decide (t = [])) then Some (int_of_digits t)
  else None.

(** [sep.join(l)] *)
Definition str_join (sep : string) (l : list string) : string :=
  String.concat sep l.

Section Worker.

Context (E : env) (self : worker).

(** *** System calls *)

(** The value of [self._cancelled] at its [k]-th read: [cancel()] only ever
    sets the flag, so it is set from some read on. *)
Definition flag_at (k : nat) : bool :=
  match cancel_at E with
  | Some c => bool_decide (c ≤ k)%nat
  | None => false
  end.

Definition get_cancelled : M bool := λ w,
  let b := flag_at (flag_reads w) in
  (Val b, {| flag_reads := S (flag_reads w); files := files w;
             trace := trace w ++ [Poll b] |}).

Definition popen (cmd : list string) : M process := λ w,
  match subprocess_Popen E cmd with
  | Some proc =>
      (Val proc, {| flag_reads := flag_reads w;
                    files := files w ∪ p_creates proc;
                    trace := trace w ++ [Popen cmd true] |})
  | None =>
      (Raised PopenError, {| flag_reads := flag_reads w; files := files w;
                             trace := trace w ++ [Popen cmd false] |})
  end.

Definition os_path_exists (path : string) : M bool := λ w,
  let b := bool_decide (path ∈ files w) in
  (Val b, {| flag_reads := flag_reads w; files := files w;
             trace := trace w ++ [Exists path b] |}).

Definition os_remove (path : string) : M unit := λ w,
  if bool_decide (path ∈ locked E)
  then (Raised (RemoveError path),
        {| flag_reads := flag_reads w; files := files w;
           trace := trace w ++ [Remove path false] |})
  else (Val (), {| flag_reads := flag_reads w; files := files w ∖ {[path]};
                   trace := trace w ++ [Remove path true] |}).

(** *** [_run_ffmpeg] *)

(** The body of [for line in lines[:-1]]. *)
Definition handle_line (duration : Q) (line : list byte) : M unit :=
  let text := strip (decode line) in
  match re_search_time text with
  | Some (h, m, s, _) =>
      let current :=
        int_of_digits h * 3600 + int_of_digits m * 60 + int_of_digits s in
      emit (Progress (progress_pct current duration))
  | None => mret ()
  end ;;
  when (existsb (λ kw, contains kw (lower text)) error_keywords)
       (emit (Log (LogWarning text))).

(** The [while True] loop over the reads still to come. [None]: the loop
    returned from the function (cancelled); [Some buffer]: it reached the end
    of the stream and left the loop with this buffer. *)
Fixpoint read_loop (duration : Q) (reads : list (list byte))
    (buffer : list byte) : M (option (list byte)) :=
  cancelled ← get_cancelled;
  if cancelled : bool then
    record Terminate ;; record Wait ;; mret None
  else
    match reads with
    | [] => record (Read []) ;; mret (Some buffer)
    | chunk :: reads' =>
        record (Read chunk) ;;
        let buffer := buffer ++ chunk in
        let lines := bytes_split CR buffer in
        let buffer := List.last lines [] in
        for_each (handle_line duration) (removelast lines) ;;
        read_loop duration reads' buffer
    end.

Definition _run_ffmpeg (cmd : list string) (duration : Q) (pass_num : Z)
    : M unit :=
  proc ← popen cmd;
  left ← read_loop duration (chunks CHUNK (p_stderr proc)) [];
  match left with
  | None => mret ()
  | Some buffer =>
      record Wait ;;
      failed ← (if bool_decide (p_returncode proc ≠ 0)
                then cancelled ← get_cancelled; mret (negb cancelled)
                else mret false);
      when failed
        (let remaining := strip (decode buffer) in
         when (negb (bool_decide (remaining = [])))
           (emit (Log (LogFailureTail
              (drop (List.length remaining - 500) remaining))))) ;;
      emit (Progress 100)
  end.

(** *** [run]: the commands of the two passes *)

Definition codec_name : string := video_codec self.
Definition is_vp9 : bool := bool_decide (codec_name = "libvpx-vp9"%string).
Definition is_av1 : bool := bool_decide (codec_name = "libsvtav1"%string).

Definition null_out : string :=
  if platform_win32 E then "NUL"%string else "/dev/null"%string.

(** [os.path.join(os.path.dirname(self.output_path), 'ffmpeg2pass')] *)
Definition passlog_base : string :=
  os_path_join E (os_path_dirname E (output_path self)) "ffmpeg2pass".

(** [if vf_arg: cmd += ['-vf', vf_arg]] *)
Definition with_filter (vf_arg : option string) (cmd : list string)
    : list string :=
  match vf_arg with
  | Some vf => if truthy vf then cmd ++ ["-vf"; vf]%string else cmd
  | None => cmd
  end.

Definition pass1_cmd (ffmpeg : string) (vf_arg : option string)
    (video_kbps : Z) : list string :=
  let cmd := [ffmpeg; "-y"; "-i"; input_path self]%string in
  let cmd := with_filter vf_arg cmd in
  let cmd := cmd ++ ["-c:v"; codec_name; "-b:v"; pretty video_kbps +:+ "k"]%string in
  if is_vp9 then
    cmd ++ ["-pass"; "1"; "-passlogfile"; passlog_base;
            "-speed"; "4"; "-an"; "-f"; "webm"; null_out]%string
  else if is_av1 then cmd
  else
    let cmd := if truthy (preset self) && negb is_av1
               then cmd ++ ["-preset"; preset self]%string else cmd in
    cmd ++ ["-pass"; "1"; "-passlogfile"; passlog_base;
            "-an"; "-f"; "null"; null_out]%string.

Definition pass2_cmd (ffmpeg : string) (vf_arg : option string)
    (video_kbps : Z) : list string :=
  let cmd := [ffmpeg; "-y"; "-i"; input_path self]%string in
  let cmd := with_filter vf_arg cmd in
  let cmd := cmd ++ ["-c:v"; codec_name; "-b:v"; pretty video_kbps +:+ "k"]%string in
  let cmd :=
    if is_vp9 then
      cmd ++ ["-pass"; "2"; "-passlogfile"; passlog_base; "-speed"; "2"]%string
    else if is_av1 then
      cmd ++ ["-svtav1-params"; "tbr=" +:+ pretty video_kbps]%string
    else
      let cmd := if truthy (preset self)
                 then cmd ++ ["-preset"; preset self]%string else cmd in
      cmd ++ ["-pass"; "2"; "-passlogfile"; passlog_base]%string in
  let cmd :=
    if bool_decide (audio_codec self = "an"%string) then cmd ++ ["-an"]%string
    else if bool_decide (audio_codec self = "copy"%string)
    then cmd ++ ["-c:a"; "copy"]%string
    else cmd ++ ["-c:a"; audio_codec self;
                 "-b:a"; pretty (audio_bitrate self) +:+ "k"]%string in
  cmd ++ ["-movflags"; "+faststart"; output_path self]%string.

(** [vf_filters], from [self.resolution]. *)
Definition vf_filters : M (list string) :=
  if truthy (resolution self)
     && bool_decide (resolution self ≠ "Original"%string)
  then match int_of_str (str_remove "p" (resolution self)) with
       | Some h => mret ["scale=-2:" +:+ pretty h]%string
       | None => raise ValueError
       end
  else mret [].

(** *** [run]: results and cleanup *)

Definition passlog_suffixes : list string :=
  [""; "-0.log"; "-0.log.mbtree"; ".log"; ".log.mbtree"]%string.

(** "Cleanup pass log files" *)
Definition cleanup : M unit :=
  for_each (λ suffix,
      let p := (passlog_base +:+ suffix)%string in
      found ← os_path_exists p;
      when found (try_except (os_remove p) (λ _, mret ())))
    passlog_suffixes.

(** "Report results" *)
Definition report : M unit :=
  found ← os_path_exists (output_path self);
  if found : bool then
    let out_size := os_path_getsize E (output_path self) in
    let in_size := os_path_getsize E (input_path self) in
    let ratio := if 0 <? in_size
                 then ((1 - inject_Z out_size / inject_Z in_size) * 100)%Q
                 else 0%Q in
    emit (Log LogComplete) ;;
    emit (Log (LogInputSize in_size)) ;;
    emit (Log (LogOutputSize out_size)) ;;
    emit (Log (LogSaved ratio)) ;;
    emit (Finished (output_path self) out_size ratio)
  else emit (Error OutputMissing).

(** *** [run] *)

(** [run] from "Pass 2" on. *)
Definition second_pass (ffmpeg : string) (duration : Q) (video_kbps : Z)
    (vf_arg : option string) : M unit :=
  emit (Status StatusEncoding) ;;
  emit (Log (LogPassBanner 2)) ;;
  emit (Progress 0) ;;
  let pass2_cmd := pass2_cmd ffmpeg vf_arg video_kbps in
  emit (Log (LogCommand pass2_cmd)) ;;
  _run_ffmpeg pass2_cmd duration 2 ;;
  cancelled ← get_cancelled;
  if cancelled : bool then
    emit (Log LogCancelled) ;;
    emit (Status StatusCancelled) ;;
    found ← os_path_exists (output_path self);
    when found (os_remove (output_path self))
  else
    report ;;
    cleanup.

(** [run] from "Pass 1" on. *)
Definition passes (ffmpeg : string) (duration : Q) (video_kbps : Z)
    (vf_arg : option string) : M unit :=
  emit (Status StatusAnalyzing) ;;
  emit (Log (LogPassBanner 1)) ;;
  let pass1_cmd := pass1_cmd ffmpeg vf_arg video_kbps in
  cancelled ← (if negb is_av1 then
                 emit (Log (LogCommand pass1_cmd)) ;;
                 _run_ffmpeg pass1_cmd duration 1 ;;
                 get_cancelled
               else mret false);
  if cancelled : bool then
    emit (Log LogCancelled) ;;
    emit (Status StatusCancelled)
  else
    second_pass ffmpeg duration video_kbps vf_arg.

(** [run] from "Calculate target bitrate" on. *)
Definition plan_and_encode (ffmpeg : string) (info : media_info)
    (duration : Q) : M unit :=
  let audio_kbps :=
    resolve_audio_kbps (audio_codec self) (audio_bitrate self)
      (info_streams info) in
  match plan_bitrate (target_mb self) duration audio_kbps with
  | PlanFailed e => emit (Error e)
  | Planned video_kbps =>
      emit (Log (LogDuration duration)) ;;
      emit (Log (LogTarget (target_mb self))) ;;
      emit (Log (LogVideoBitrate video_kbps)) ;;
      when (0 <? audio_kbps) (emit (Log (LogAudioBitrate audio_kbps))) ;;
      emit (Log LogBlank) ;;
      vf_filters ← vf_filters;
      let vf_arg := if bool_decide (vf_filters = []) then None
                    else Some (str_join "," vf_filters) in
      passes ffmpeg duration video_kbps vf_arg
  end.

Definition run : M unit :=
  try_except
    (match find_ffmpeg E with
     | None => emit (Error ToolNotFound)
     | Some ffmpeg =>
         match probe_video E (input_path self) with
         | None => emit (Error ProbeFailed)
         | Some info =>
             match info_format info with
             | None => raise (KeyError "format")
             | Some fmt =>
                 let duration := default 0%Q (fmt_duration fmt) in
                 if Qle_bool duration 0 then emit (Error InvalidDuration)
                 else plan_and_encode ffmpeg info duration
             end
         end
     end)
    (λ e, emit (Error (Uncaught e))).

End Worker.

(** The world in which a session starts. *)
Definition initial_world (fs : gset string) : world :=
  {| flag_reads := 0; files := fs; trace := [] |}.

Definition signals (tr : list event) : list signal :=
  omap (λ e, match e with Sig s => Some s | _ => None end) tr.

Definition progress_events (tr : list event) : list Z :=
  omap (λ e, match e with Sig (Progress pct) => Some pct | _ => None end) tr.

(** ** A POSIX host and sample sessions *)

Fixpoint drop_while (P : ascii → bool) (t : list ascii) : list ascii :=
  match t with
  | c :: t' => if P c then drop_while P t' else t
  | [] => []
  end.

Definition is_slash (c : ascii) : bool := Ascii.eqb c "/".

(** [posixpath.dirname] *)
Definition posix_dirname (p : string) : string :=
  let head := drop_while (λ c, negb (is_slash c)) (rev (list_ascii_of_string p)) in
  let head := if forallb is_slash head then head else drop_while is_slash head in
  string_of_list_ascii (rev head).

(** [posixpath.join] of two components *)
Definition posix_join (a b : string) : string :=
  if startswith ["/"%char] (list_ascii_of_string b) then b
  else if bool_decide (a = ""%string)
          || startswith ["/"%char] (rev (list_ascii_of_string a))
  then (a +:+ b)%string
  else (a +:+ "/" +:+ b)%string.

Definition bytes (s : string) : list byte := list_byte_of_string s.

(** A source with a video and an audio stream, as the prober reports it. *)
Definition sample_info (duration : Q) : media_info :=
  {| info_format := Some {| fmt_duration := Some duration |};
     info_streams := [ {| codec_type := Some "video"%string; bit_rate := None |};
                       {| codec_type := Some "audio"%string;
                          bit_rate := Some 128000 |} ] |}.

(** An encoder that writes the pass log in pass 1 ([-f null] or [-f webm]
    before the discard sink) and the output file in pass 2. *)
Definition sample_encoder (stderr : list byte) (returncode : Z)
    (cmd : list string) : option process :=
  Some {| p_stderr := stderr;
          p_returncode := returncode;
          p_creates :=
            if bool_decide ("/dev/null"%string ∈ cmd)
            then {[ "/videos/ffmpeg2pass-0.log"%string ]}
            else {[ List.last cmd ""%string ]} |}.

Definition posix_host (duration : Q) (stderr : list byte) (returncode : Z)
    (cancel : option nat) (locked : gset string) : env :=
  {| platform_win32 := false;
     os_path_dirname := posix_dirname;
     os_path_join := posix_join;
     os_path_getsize := λ p, if bool_decide (p = "/videos/clip.mp4"%string)
                             then 1000000 else 250000;
     find_ffmpeg := Some "/usr/bin/ffmpeg"%string;
     probe_video := λ _, Some (sample_info duration);
     subprocess_Popen := sample_encoder stderr returncode;
     cancel_at := cancel;
     locked := locked |}.

Definition sample_worker (codec : string) (output : string) : worker :=
  {| input_path := "/videos/clip.mp4";
     output_path := output;
     target_mb := 25;
     video_codec := codec;
     audio_codec := "aac";
     preset := "medium";
     resolution := "720p";
     audio_bitrate := 128 |}.


Definition sample_files : gset string := {[ "/videos/clip.mp4"%string ]}.

(** One progress line, ended by a carriage return. *)
Definition short_log : list byte := bytes "frame=1 time=00:00:30.00" ++ [CR].




(** The longest prefix of [t] whose characters satisfy [P]. *)
Fixpoint take_while (P : ascii → bool) (t : list ascii) : list ascii :=
  match t with
  | c :: t' => if P c then c :: take_while P t' else []
  | [] => []
  end.
(** * Vocabulary of the statements *)

Definition timestamp (h m s f : list ascii) : list ascii :=
  list_ascii_of_string "time=" ++ h ++ ":"%char :: m ++ ":"%char :: s
    ++ "."%char :: f.

Definition digit_string (ds : list ascii) : Prop :=
  forallb isdigit ds = true ∧ ds ≠ [].

(** The signals one completed line gives rise to. *)
Definition line_signals (duration : Q) (line : list byte) : list signal :=
  let text := strip (decode line) in
  match re_search_time text with
  | Some (h, m, s, _) =>
      [Progress (progress_pct
         (int_of_digits h * 3600 + int_of_digits m * 60 + int_of_digits s)
         duration)]
  | None => []
  end ++
  if existsb (λ kw, contains kw (lower text)) error_keywords
  then [Log (LogWarning text)] else [].

(** The values the flag had at the reads of it, and the chunks read. *)
Definition polls (Δ : list event) : list bool :=
  omap (λ e, match e with Poll b => Some b | _ => None end) Δ.


(** The world after the events [Δ], none of which touches a file. *)
Definition add_events (Δ : list event) (w : world) : world :=
  {| flag_reads := flag_reads w + List.length (polls Δ);
     files := files w;
     trace := trace w ++ Δ |}.

(** [remaining[-500:]], logged when it is not empty. *)
Definition failure_tail (buffer : list byte) : list event :=
  let remaining := strip (decode buffer) in
  if bool_decide (remaining = []) then []
  else [Sig (Log (LogFailureTail
               (drop (List.length remaining - 500) remaining)))].

(** The traces of the read loop of [_run_ffmpeg] over the reads still to
    come, from a buffer, whenever the flag is set: it ends cancelled
    ([None]) or at the end of the stream with a buffer left. *)
Inductive loop_trace (duration : Q) :
    list (list byte) → list byte → option (list byte) → list event → Prop :=
| loop_cancelled reads buffer :
    loop_trace duration reads buffer None [Poll true; Terminate; Wait]
| loop_eof buffer :
    loop_trace duration [] buffer (Some buffer) [Poll false; Read []]
| loop_chunk chunk reads buffer left Δ :
    loop_trace duration reads
      (List.last (bytes_split CR (buffer ++ chunk)) []) left Δ →
    loop_trace duration (chunk :: reads) buffer left
      (Poll false :: Read chunk ::
       (Sig <$> (removelast (bytes_split CR (buffer ++ chunk))
                 ≫= line_signals duration)) ++ Δ).

(** What follows [proc.wait()] and precedes the final progress. *)
Inductive exit_check (returncode : Z) (buffer : list byte) : list event → Prop :=
| exit_zero :
    returncode = 0 → exit_check returncode buffer []
| exit_cancelled :
    returncode ≠ 0 → exit_check returncode buffer [Poll true]
| exit_failed :
    returncode ≠ 0 →
    exit_check returncode buffer (Poll false :: failure_tail buffer).

(** The traces of one call of [_run_ffmpeg] whose process started; the
    boolean tells whether the read loop ended cancelled. *)
Inductive pass_trace (duration : Q) (cmd : list string) (proc : process) :
    bool → list event → Prop :=
| pass_cancelled Δ :
    loop_trace duration (chunks CHUNK (p_stderr proc)) [] None Δ →
    pass_trace duration cmd proc true (Popen cmd true :: Δ)
| pass_exited Δ buffer ending :
    loop_trace duration (chunks CHUNK (p_stderr proc)) [] (Some buffer) Δ →
    exit_check (p_returncode proc) buffer ending →
    pass_trace duration cmd proc false
      (Popen cmd true :: Δ ++ Wait :: ending ++ [Sig (Progress 100)]).

(** The reads of the flag in [Δ] saw what the flag was, from the [k]-th
    read of the session on. *)
Definition polls_from (E : env) (k : nat) (Δ : list event) : Prop :=
  polls Δ = flag_at E <$> seq k (List.length (polls Δ)).

(** The world after a pass whose process started. *)
Definition after_pass (proc : process) (Δ : list event) (w : world) : world :=
  {| flag_reads := flag_reads w + List.length (polls Δ);
     files := files w ∪ p_creates proc;
     trace := trace w ++ Δ |}.


(** *** The traces of a session *)

Section SessionTraces.

Context (E : env) (self : worker).

(** The pass-log files a session may leave behind. *)
Definition sidecars : gset string :=
  list_to_set ((λ suffix, passlog_base E self +:+ suffix)%string
               <$> passlog_suffixes).

(** The signals of "Report results" when the output file is or is not
    found. *)
Definition report_signals (found : bool) : list signal :=
  if found then
    let out_size := os_path_getsize E (output_path self) in
    let in_size := os_path_getsize E (input_path self) in
    let ratio := if 0 <? in_size
                 then ((1 - inject_Z out_size / inject_Z in_size) * 100)%Q
                 else 0%Q in
    [Log LogComplete; Log (LogInputSize in_size); Log (LogOutputSize out_size);
     Log (LogSaved ratio); Finished (output_path self) out_size ratio]
  else [Error OutputMissing].

(** An event of the cleanup loop: a test or a removal of a pass-log file. *)
Definition sidecar_event (e : event) : Prop :=
  match e with
  | Exists p _ | Remove p _ => p ∈ sidecars
  | _ => False
  end.

(** What a cancelled final pass does about the output file, from the files
    [fs] that exist then: the outcome, the files left and the events. *)
Inductive discard_output (fs : gset string) :
    outcome unit → gset string → list event → Prop :=
| discard_absent :
    output_path self ∉ fs →
    discard_output fs (Val ()) fs [Exists (output_path self) false]
| discard_removed :
    output_path self ∈ fs → output_path self ∉ locked E →
    discard_output fs (Val ()) (fs ∖ {[output_path self]})
      [Exists (output_path self) true; Remove (output_path self) true]
| discard_locked :
    output_path self ∈ fs → output_path self ∈ locked E →
    discard_output fs (Raised (RemoveError (output_path self))) fs
      [Exists (output_path self) true; Remove (output_path self) false].

Context (ffmpeg : string) (duration : Q) (video_kbps : Z)
  (vf_arg : option string).

Definition cancelled_events : list event :=
  [Poll true; Sig (Log LogCancelled); Sig (Status StatusCancelled)].

Definition pass2_banner : list event :=
  [Sig (Status StatusEncoding); Sig (Log (LogPassBanner 2)); Sig (Progress 0);
   Sig (Log (LogCommand (pass2_cmd E self ffmpeg vf_arg video_kbps)))].

(** [run] from "Pass 2" on, from the files [fs]: the outcome, the files
    left and the events. *)
Inductive final_pass (fs : gset string) :
    outcome unit → gset string → list event → Prop :=
| final_not_started :
    subprocess_Popen E (pass2_cmd E self ffmpeg vf_arg video_kbps) = None →
    final_pass fs (Raised PopenError) fs
      (pass2_banner
       ++ [Popen (pass2_cmd E self ffmpeg vf_arg video_kbps) false])
| final_cancelled proc cancelled Δ o fs' Δd :
    subprocess_Popen E (pass2_cmd E self ffmpeg vf_arg video_kbps) = Some proc →
    pass_trace duration (pass2_cmd E self ffmpeg vf_arg video_kbps)
      proc cancelled Δ →
    discard_output (fs ∪ p_creates proc) o fs' Δd →
    final_pass fs o fs' (pass2_banner ++ Δ ++ cancelled_events ++ Δd)
| final_exited proc cancelled Δ Δc :
    subprocess_Popen E (pass2_cmd E self ffmpeg vf_arg video_kbps) = Some proc →
    pass_trace duration (pass2_cmd E self ffmpeg vf_arg video_kbps)
      proc cancelled Δ →
    Forall sidecar_event Δc →
    final_pass fs (Val ()) ((fs ∪ p_creates proc) ∖ (sidecars ∖ locked E))
      (pass2_banner ++ Δ
       ++ Poll false
          :: Exists (output_path self)
               (bool_decide (output_path self ∈ fs ∪ p_creates proc))
          :: (Sig <$> report_signals
                (bool_decide (output_path self ∈ fs ∪ p_creates proc)))
       ++ Δc).

Definition pass1_banner : list event :=
  [Sig (Status StatusAnalyzing); Sig (Log (LogPassBanner 1))].

(** [run] from "Pass 1" on. *)
Inductive session_trace (fs : gset string) :
    outcome unit → gset string → list event → Prop :=
| session_single o fs' Δ :
    is_av1 self = true →
    final_pass fs o fs' Δ →
    session_trace fs o fs' (pass1_banner ++ Δ)
| session_not_started :
    is_av1 self = false →
    subprocess_Popen E (pass1_cmd E self ffmpeg vf_arg video_kbps) = None →
    session_trace fs (Raised PopenError) fs
      (pass1_banner
       ++ [Sig (Log (LogCommand (pass1_cmd E self ffmpeg vf_arg video_kbps)));
           Popen (pass1_cmd E self ffmpeg vf_arg video_kbps) false])
| session_cancelled proc cancelled Δ :
    is_av1 self = false →
    subprocess_Popen E (pass1_cmd E self ffmpeg vf_arg video_kbps) = Some proc →
    pass_trace duration (pass1_cmd E self ffmpeg vf_arg video_kbps)
      proc cancelled Δ →
    session_trace fs (Val ()) (fs ∪ p_creates proc)
      (pass1_banner
       ++ Sig (Log (LogCommand (pass1_cmd E self ffmpeg vf_arg video_kbps)))
          :: Δ ++ cancelled_events)
| session_two_pass proc cancelled Δ o fs' Δ' :
    is_av1 self = false →
    subprocess_Popen E (pass1_cmd E self ffmpeg vf_arg video_kbps) = Some proc →
    pass_trace duration (pass1_cmd E self ffmpeg vf_arg video_kbps)
      proc cancelled Δ →
    final_pass (fs ∪ p_creates proc) o fs' Δ' →
    session_trace fs o fs'
      (pass1_banner
       ++ Sig (Log (LogCommand (pass1_cmd E self ffmpeg vf_arg video_kbps)))
          :: Δ ++ Poll false :: Δ').

End SessionTraces.

(** The world after the events [Δ] that left the files [fs]. *)
Definition world_after (fs : gset string) (Δ : list event) (w : world) : world :=
  {| flag_reads := flag_reads w + List.length (polls Δ);
     files := fs;
     trace := trace w ++ Δ |}.

(** [runs m w o fs Δ]: from the world [w], [m] ends with the outcome [o],
    leaves the files [fs] and adds the events [Δ], whose reads of the flag
    saw the flag as it was. *)
Definition runs (E : env) {A} (m : M A) (w : world) (o : outcome A) (fs : gset string)
    (Δ : list event) : Prop :=
  m w = (o, world_after fs Δ w) ∧ polls_from E (flag_reads w) Δ.


(** *** The traces of [run] *)

Section RunTraces.

Context (E : env) (self : worker).

(** The log lines between the plan and the first pass. *)
Definition plan_logs (duration : Q) (video_kbps audio_kbps : Z) : list event :=
  [Sig (Log (LogDuration duration)); Sig (Log (LogTarget (target_mb self)));
   Sig (Log (LogVideoBitrate video_kbps))]
  ++ (if 0 <? audio_kbps then [Sig (Log (LogAudioBitrate audio_kbps))] else [])
  ++ [Sig (Log LogBlank)].

(** What the handler of [run] adds to a session that raised. *)
Definition uncaught (o : outcome unit) : list event :=
  match o with
  | Val _ => []
  | Raised e => [Sig (Error (Uncaught e))]
  end.

(** [run], from the files [fs]: the files left and the events. Either the
    session is refused before any process is started, or it goes through
    the passes. *)
Inductive run_trace (fs : gset string) : gset string → list event → Prop :=
| run_refused e :
    run_trace fs fs [Sig (Error e)]
| run_bad_resolution duration video_kbps audio_kbps :
    run_trace fs fs
      (plan_logs duration video_kbps audio_kbps
       ++ [Sig (Error (Uncaught ValueError))])
| run_session ffmpeg duration video_kbps audio_kbps vf_arg o fs' Δ :
    find_ffmpeg E = Some ffmpeg →
    (0 < duration)%Q →
    plan_bitrate (target_mb self) duration audio_kbps = Planned video_kbps →
    session_trace E self ffmpeg duration video_kbps vf_arg fs o fs' Δ →
    run_trace fs fs'
      (plan_logs duration video_kbps audio_kbps ++ Δ ++ uncaught o).

End RunTraces.

(** The events of the supervisor: its system calls, progress, and the two
    kinds of log line it writes. *)
Definition supervisor_event (e : event) : Prop :=
  match e with
  | Sig (Progress _) | Sig (Log (LogWarning _)) | Sig (Log (LogFailureTail _))
  | Popen _ true | Poll _ | Read _ | Terminate | Wait => True
  | _ => False
  end.


(** The events that decide how a session ended: the statuses, the
    [finished] and [error] signals, and the terminations of a process. *)
Definition milestone (e : event) : bool :=
  match e with
  | Sig (Status _) | Sig (Finished _ _ _) | Sig (Error _) | Terminate => true
  | _ => false
  end.

Definition milestones (Δ : list event) : list event := List.filter milestone Δ.

(** The paths a trace removes or tries to remove. *)
Definition removals (Δ : list event) : list string :=
  omap (λ e, match e with Remove p _ => Some p | _ => None end) Δ.

(** The word that follows [-f] in a command: the format the output is
    tagged with. *)
Fixpoint format_tag (cmd : list string) : option string :=
  match cmd with
  | flag :: rest =>
      if bool_decide (flag = "-f"%string) then head rest else format_tag rest
  | [] => None
  end.

(** The container of a request: the extension of its output path, without
    the dot (the window builds the path from the chosen format). *)
Definition container_of (path : string) : string :=
  string_of_list_ascii
    (rev (take_while (λ c, negb (Ascii.eqb c ".")) (rev (list_ascii_of_string path)))).
(** * The rest of [video_compressor.py]

    The helpers around the worker: the two formatting functions, the search
    for the tools, the bootstrap of the interface library, and the part of
    the window that decides what a session is started with and what the
    window shows when it ends. *)

(** ** Formatting ([format_size], [format_duration]) *)

(** Rounding to the nearest integer, ties to the even one: what [round(x)]
    does, and the format specs [.1f] and [.2f] at their last digit. *)
Definition round_half_even (x : Q) : Z :=
  let f := Qfloor x in
  match (x - inject_Z f ?= 1 # 2)%Q with
  | Lt => f
  | Eq => if Z.even f then f else f + 1
  | Gt => f + 1
  end.

(** [s.zfill(width)] for a string of digits *)
Definition zfill (width : nat) (s : string) : string :=
  (string_of_list_ascii (replicate (width - String.length s) "0"%char) +:+ s)%string.

(** [f"{x:.{d}f}"] for [d > 0]: [x] rounded to [d] decimals *)
Definition format_fixed (d : nat) (x : Q) : string :=
  let scale := 10 ^ Z.of_nat d in
  let magnitude := if Qle_bool 0 x then x else (- x)%Q in
  let n := round_half_even (magnitude * inject_Z scale) in
  ((if Qle_bool 0 x then "" else "-")
   +:+ pretty (n / scale) +:+ "." +:+ zfill d (pretty (n mod scale)))%string.

Definition format_size (bytes_val : Z) : string :=
  if bytes_val <? 1024 then (pretty bytes_val +:+ " B")%string
  else if bytes_val <? 1024 ^ 2
  then (format_fixed 1 (inject_Z bytes_val / 1024) +:+ " KB")%string
  else if bytes_val <? 1024 ^ 3
  then (format_fixed 1 (inject_Z bytes_val / inject_Z (1024 ^ 2)) +:+ " MB")%string
  else (format_fixed 2 (inject_Z bytes_val / inject_Z (1024 ^ 3)) +:+ " GB")%string.

(** [x // y] and [x % y] on floats, for a divisor [y > 0] *)
Definition float_floordiv (x y : Q) : Q := inject_Z (Qfloor (x / y)).

Definition float_mod (x y : Q) : Q := (x - y * inject_Z (Qfloor (x / y)))%Q.

(** [f"{n:02d}"] *)
Definition pad2 (n : Z) : string :=
  if (0 <=? n) && (n <? 10) then ("0" +:+ pretty n)%string else pretty n.

Definition format_duration (seconds : Q) : string :=
  let h := py_int (float_floordiv seconds 3600) in
  let m := py_int (float_floordiv (float_mod seconds 3600) 60) in
  let s := py_int (float_mod seconds 60) in
  if 0 <? h then (pretty h +:+ ":" +:+ pad2 m +:+ ":" +:+ pad2 s)%string
  else (pretty m +:+ ":" +:+ pad2 s)%string.

(** ** Locating the tools ([find_ffmpeg], [find_ffprobe], [probe_video]) *)

(** What the search depends on: the platform, the PATH, the file system,
    the path functions of the platform, and the prober itself
    ([subprocess.run] of the command and [json.loads] of what it prints:
    [None] when either raises or the value is empty). *)
Record host := {
  sys_platform : string;
  shutil_which : string → option string;
  os_path_isfile : string → bool;
  host_dirname : string → string;
  host_join : string → string → string;
  ffprobe_run : list string → option media_info;
}.

Module Host.

Section Host.

Context (h : host).

(** [for name in names: path = shutil.which(name); if path: return path] *)
Fixpoint which_any (names : list string) : option string :=
  match names with
  | [] => None
  | name :: names' =>
      match shutil_which h name with
      | Some path => if truthy path then Some path else which_any names'
      | None => which_any names'
      end
  end.

Definition common : list string :=
  ["C:\ffmpeg\bin\ffmpeg.exe"; "C:\Program Files\ffmpeg\bin\ffmpeg.exe";
   "/usr/bin/ffmpeg"; "/usr/local/bin/ffmpeg"]%string.

Definition find_ffmpeg : option string :=
  match which_any ["ffmpeg"; "ffmpeg.exe"]%string with
  | Some path => Some path
  | None => List.find (os_path_isfile h) common
  end.

Definition find_ffprobe : option string :=
  match which_any ["ffprobe"; "ffprobe.exe"]%string with
  | Some path => Some path
  | None =>
      match find_ffmpeg with
      | Some ffmpeg =>
          if truthy ffmpeg then
            let probe :=
              host_join h (host_dirname h ffmpeg)
                ("ffprobe" +:+ (if bool_decide (sys_platform h = "win32"%string)
                                then ".exe" else ""))%string in
            if os_path_isfile h probe then Some probe else None
          else None
      | None => None
      end
  end.

Definition probe_video (filepath : string) : option media_info :=
  match find_ffprobe with
  | Some ffprobe =>
      if truthy ffprobe then
        ffprobe_run h [ffprobe; "-v"; "quiet"; "-print_format"; "json";
                       "-show_format"; "-show_streams"; filepath]%string
      else None
  | None => None
  end.

End Host.

End Host.

(** The environment of a worker on a host. *)
Definition host_env (h : host) (getsize : string → Z)
    (popen : list string → option process) (cancel : option nat)
    (locked : gset string) : env :=
  {| platform_win32 := bool_decide (sys_platform h = "win32"%string);
     os_path_dirname := host_dirname h;
     os_path_join := host_join h;
     os_path_getsize := getsize;
     find_ffmpeg := Host.find_ffmpeg h;
     probe_video := Host.probe_video h;
     subprocess_Popen := popen;
     cancel_at := cancel;
     locked := locked |}.

(** ** The bootstrap ([_bootstrap]) *)

(** What the bootstrap depends on: the interpreter's version, its path,
    which modules it can import, and which installer commands succeed
    ([subprocess.check_call] returns rather than raising
    [CalledProcessError]). *)
Record interpreter := {
  version_ok : bool;                  (* not sys.version_info < (3, 8) *)
  sys_executable : string;
  importable : string → bool;
  check_call_ok : list string → bool;
}.

Inductive boot_event :=
| BootPrint (text : string)
| BootImport (name : string) (imported : bool)
| BootCheckCall (cmd : list string) (ok : bool).

(** [pkg.split('[')[0].replace('-', '_').lower()] *)
Definition module_name (pkg : string) : string :=
  string_of_list_ascii
    (lower (map (λ c, if Ascii.eqb c "-" then "_"%char else c)
              (take_while (λ c, negb (Ascii.eqb c "["))
                 (list_ascii_of_string pkg)))).

(** [for flags in ...: try: check_call(...); break  except: continue] *)
Fixpoint try_install (py : interpreter) (pkg : string)
    (flag_sets : list (list string)) : list boot_event :=
  match flag_sets with
  | [] => []
  | flags :: rest =>
      let cmd := [sys_executable py; "-m"; "pip"; "install"; pkg; "-q"]%string
                 ++ flags in
      if check_call_ok py cmd then [BootCheckCall cmd true]
      else BootCheckCall cmd false :: try_install py pkg rest
  end.

(** The body of [for pkg in required]. *)
Definition ensure_package (py : interpreter) (pkg : string) : list boot_event :=
  let name := module_name pkg in
  if importable py name then [BootImport name true]
  else BootImport name false
       :: try_install py pkg [[]; ["--user"]; ["--break-system-packages"]]%string.

(** The exit status, if the bootstrap exits, and what it did. *)
Definition _bootstrap (py : interpreter) : option Z * list boot_event :=
  if version_ok py
  then (None, ["PyQt6"%string] ≫= ensure_package py)
  else (Some 1, [BootPrint "Python 3.8+ required"]).

(** ** The window ([VideoCompressorWindow]) *)

(** The texts of the status label. *)
Inductive label :=
| LabelReady                          (* "Ready" *)
| LabelStatus (s : status_msg)        (* the text of a [status] signal *)
| LabelCancelling                     (* "Cancelling..." *)
| LabelDone                           (* "Done!" *)
| LabelError.                         (* "Error" *)

(** The lines the window appends to its log view. *)
Inductive log_line :=
| LineNoInput                         (* "No input file selected." *)
| LineNoTool                          (* "FFmpeg not found. Please install ..." *)
| LineStarting                        (* "Starting compression..." *)
| LineInput (path : string)
| LineOutput (path : string)
| LineWorker (m : log_msg)            (* the text of a [log] signal *)
| LineError (e : error_msg).          (* "Error: ..." *)

(** The values of the settings widgets. *)
Record settings := {
  target_size_spin : Q;               (* value() *)
  codec_combo : string;               (* currentData() *)
  preset_combo : string;              (* currentText() *)
  res_combo : string;                 (* currentText() *)
  audio_combo : string;               (* currentText() *)
  audio_bitrate_spin : Z;             (* value() *)
  format_combo : string;              (* currentData() *)
}.

(** The state of the window that its handlers read or write (the texts of
    the information labels are left out). *)
Record window := {
  win_input_path : option string;     (* self.input_path *)
  win_settings : settings;
  win_worker : option worker;         (* self.worker *)
  win_cancelled : bool;               (* self.worker._cancelled *)
  win_last_output : option string;    (* self._last_output *)
  compress_btn : bool;                (* isEnabled() *)
  cancel_btn : bool;                  (* isEnabled() *)
  open_folder_btn : bool;             (* isVisible() *)
  status_label : label;
  progress_bar : Z;                   (* value() *)
  log_text : list log_line;
}.

(** [QProgressBar.setValue] with the default range: a value outside 0..100
    is ignored. *)
Definition progress_bar_setValue (value : Z) (win : window) : window :=
  {| win_input_path := win_input_path win;
     win_settings := win_settings win;
     win_worker := win_worker win;
     win_cancelled := win_cancelled win;
     win_last_output := win_last_output win;
     compress_btn := compress_btn win;
     cancel_btn := cancel_btn win;
     open_folder_btn := open_folder_btn win;
     status_label := status_label win;
     progress_bar := if (0 <=? value) && (value <=? 100) then value
                     else progress_bar win;
     log_text := log_text win |}.

Definition log_text_append (line : log_line) (win : window) : window :=
  {| win_input_path := win_input_path win;
     win_settings := win_settings win;
     win_worker := win_worker win;
     win_cancelled := win_cancelled win;
     win_last_output := win_last_output win;
     compress_btn := compress_btn win;
     cancel_btn := cancel_btn win;
     open_folder_btn := open_folder_btn win;
     status_label := status_label win;
     progress_bar := progress_bar win;
     log_text := log_text win ++ [line] |}.

Definition status_label_setText (text : label) (win : window) : window :=
  {| win_input_path := win_input_path win;
     win_settings := win_settings win;
     win_worker := win_worker win;
     win_cancelled := win_cancelled win;
     win_last_output := win_last_output win;
     compress_btn := compress_btn win;
     cancel_btn := cancel_btn win;
     open_folder_btn := open_folder_btn win;
     status_label := text;
     progress_bar := progress_bar win;
     log_text := log_text win |}.

(** [on_finished(result)], where [result['output']] is [output] *)
Definition on_finished (output : string) (win : window) : window :=
  {| win_input_path := win_input_path win;
     win_settings := win_settings win;
     win_worker := win_worker win;
     win_cancelled := win_cancelled win;
     win_last_output := Some output;
     compress_btn := true;
     cancel_btn := false;
     open_folder_btn := if truthy output then true else open_folder_btn win;
     status_label := LabelDone;
     progress_bar := 100;
     log_text := log_text win |}.

Definition on_error (msg : error_msg) (win : window) : window :=
  {| win_input_path := win_input_path win;
     win_settings := win_settings win;
     win_worker := win_worker win;
     win_cancelled := win_cancelled win;
     win_last_output := win_last_output win;
     compress_btn := true;
     cancel_btn := false;
     open_folder_btn := open_folder_btn win;
     status_label := LabelError;
     progress_bar := progress_bar win;
     log_text := log_text win ++ [LineError msg] |}.

Definition cancel_compression (win : window) : window :=
  match win_worker win with
  | Some _ =>
      {| win_input_path := win_input_path win;
         win_settings := win_settings win;
         win_worker := win_worker win;
         win_cancelled := true;
         win_last_output := win_last_output win;
         compress_btn := compress_btn win;
         cancel_btn := false;
         open_folder_btn := open_folder_btn win;
         status_label := LabelCancelling;
         progress_bar := progress_bar win;
         log_text := log_text win |}
  | None => win
  end.

(** [audio_map.get(self.audio_combo.currentText(), 'aac')] *)
Definition audio_map (text : string) : string :=
  if bool_decide (text = "AAC"%string) then "aac"
  else if bool_decide (text = "Opus"%string) then "libopus"
  else if bool_decide (text = "Copy Original"%string) then "copy"
  else if bool_decide (text = "No Audio"%string) then "an"
  else "aac".

(** The two path operations [start_compression] uses: [Path(p).stem], and
    [str(Path(p).parent / name)]. *)
Record pathlib := {
  path_stem : string → string;
  path_sibling : string → string → string;
}.

Definition start_compression (h : host) (pl : pathlib) (win : window) : window :=
  match win_input_path win with
  | Some input =>
      if truthy input then
        match Host.find_ffmpeg h with
        | Some ffmpeg =>
            if truthy ffmpeg then
              let ext := format_combo (win_settings win) in
              let out_name := (path_stem pl input +:+ "_compressed" +:+ ext)%string in
              let output := path_sibling pl input out_name in
              let audio := audio_map (audio_combo (win_settings win)) in
              {| win_input_path := win_input_path win;
                 win_settings := win_settings win;
                 win_worker :=
                   Some {| input_path := input;
                           output_path := output;
                           target_mb := target_size_spin (win_settings win);
                           video_codec := codec_combo (win_settings win);
                           audio_codec := audio;
                           preset := preset_combo (win_settings win);
                           resolution := res_combo (win_settings win);
                           audio_bitrate := audio_bitrate_spin (win_settings win) |};
                 win_cancelled := false;
                 win_last_output := win_last_output win;
                 compress_btn := false;
                 cancel_btn := true;
                 open_folder_btn := false;
                 status_label := status_label win;
                 progress_bar := 0;
                 log_text := [LineStarting; LineInput input; LineOutput output] |}
            else log_text_append LineNoTool win
        | None => log_text_append LineNoTool win
        end
      else log_text_append LineNoInput win
  | None => log_text_append LineNoInput win
  end.

(** What reaches the window: a signal of the worker, delivered to the slot
    it is connected to, or a click on the Cancel button, which does nothing
    while the button is disabled. *)
Inductive gui_event :=
| Deliver (s : signal)
| ClickCancel.

Definition handle (ev : gui_event) (win : window) : window :=
  match ev with
  | Deliver (Progress pct) => progress_bar_setValue pct win
  | Deliver (Log m) => log_text_append (LineWorker m) win
  | Deliver (Status s) => status_label_setText (LabelStatus s) win
  | Deliver (Finished output _ _) => on_finished output win
  | Deliver (Error e) => on_error e win
  | ClickCancel => if cancel_btn win then cancel_compression win else win
  end.

Definition handle_all (evs : list gui_event) (win : window) : window :=
  foldl (λ win ev, handle ev win) win evs.

(** *** Loading a file ([load_file]) *)

(** The loop that picks the streams to describe: the first video stream
    and the first audio stream. *)
Fixpoint select_streams (streams : list stream)
    (video_stream audio_stream : option stream)
    : option stream * option stream :=
  match streams with
  | [] => (video_stream, audio_stream)
  | s :: rest =>
      if bool_decide (codec_type s = Some "video"%string)
         && negb (bool_decide (is_Some video_stream))
      then select_streams rest (Some s) audio_stream
      else if bool_decide (codec_type s = Some "audio"%string)
              && negb (bool_decide (is_Some audio_stream))
      then select_streams rest video_stream (Some s)
      else select_streams rest video_stream audio_stream
  end.

(** [max(1, round(file_size / 1024 / 1024 / 2))] *)
Definition suggested (file_size : Z) : Z :=
  Z.max 1 (round_half_even (inject_Z file_size / 1024 / 1024 / 2)).

(** [QDoubleSpinBox.setValue] of a whole number, with the range
    0.5 .. 10000 of the target size: the value is brought into the range. *)
Definition target_size_setValue (value : Z) : Q :=
  if value <? 1 then (1 # 2)%Q else inject_Z (Z.min value 10000).

(** ** A POSIX flavour of the path operations *)

(** The components of a path: what is between the slashes, the empty ones
    and the dots left out. *)
Fixpoint split_slash (t : list ascii) : list (list ascii) :=
  match t with
  | [] => [[]]
  | c :: t' =>
      if is_slash c then [] :: split_slash t'
      else match split_slash t' with
           | [] => [[c]]
           | piece :: pieces => (c :: piece) :: pieces
           end
  end.

Definition posix_parts (p : string) : list (list ascii) :=
  List.filter (λ c, negb (bool_decide (c = [])) && negb (bool_decide (c = ["."%char])))
    (split_slash (list_ascii_of_string p)).

(** [PurePosixPath(p).name] *)
Definition posix_name (p : string) : list ascii :=
  List.last (posix_parts p) [].

(** The position of the last dot of a name, counted from its end, when the
    dot is neither the first nor the last character. *)
Definition suffix_length (name : list ascii) : option nat :=
  let after := take_while (λ c, negb (Ascii.eqb c ".")) (rev name) in
  let n := List.length after in
  if (0 <? n)%nat && (S n <? List.length name)%nat then Some (S n) else None.

(** [PurePosixPath(p).suffix] and [.stem] *)
Definition posix_suffix (p : string) : list ascii :=
  let name := posix_name p in
  match suffix_length name with
  | Some n => drop (List.length name - n) name
  | None => []
  end.

Definition posix_stem (p : string) : string :=
  let name := posix_name p in
  string_of_list_ascii
    match suffix_length name with
    | Some n => take (List.length name - n) name
    | None => name
    end.

(** The root of a path: two leading slashes are kept, one or more than two
    make one. *)
Definition posix_root (p : string) : string :=
  let t := list_ascii_of_string p in
  if startswith ["/"; "/"]%char t && negb (startswith ["/"; "/"; "/"]%char t)
  then "//"
  else if startswith ["/"]%char t then "/"
  else "".

(** [str] of a path given by its root and components *)
Definition posix_str (root : string) (parts : list (list ascii)) : string :=
  if bool_decide (root = ""%string) && bool_decide (parts = []) then "."
  else (root +:+ str_join "/" (string_of_list_ascii <$> parts))%string.

(** [str(PurePosixPath(p).parent / name)] *)
Definition posix_sibling (p name : string) : string :=
  if startswith ["/"]%char (list_ascii_of_string name)
  then posix_str (posix_root name) (posix_parts name)
  else posix_str (posix_root p) (removelast (posix_parts p) ++ posix_parts name).

Definition posix_pathlib : pathlib :=
  {| path_stem := posix_stem; path_sibling := posix_sibling |}.

(** ** A sample window *)

Definition sample_host : host :=
  {| sys_platform := "linux";
     shutil_which := λ name,
       if bool_decide (name = "ffmpeg"%string) then Some "/usr/bin/ffmpeg"%string
       else if bool_decide (name = "ffprobe"%string)
       then Some "/usr/bin/ffprobe"%string
       else None;
     os_path_isfile := λ _, false;
     host_dirname := posix_dirname;
     host_join := posix_join;
     ffprobe_run := λ _, Some (sample_info 600) |}.

Definition sample_settings : settings :=
  {| target_size_spin := 25;
     codec_combo := "libx264";
     preset_combo := "medium";
     res_combo := "720p";
     audio_combo := "AAC";
     audio_bitrate_spin := 128;
     format_combo := ".mp4" |}.

(** The window after the file /videos/clip.mp4 was loaded. *)
Definition sample_window : window :=
  {| win_input_path := Some "/videos/clip.mp4"%string;
     win_settings := sample_settings;
     win_worker := None;
     win_cancelled := false;
     win_last_output := None;
     compress_btn := true;
     cancel_btn := false;
     open_folder_btn := false;
     status_label := LabelReady;
     progress_bar := 0;
     log_text := [] |}.
(** * Vocabulary of the further properties *)


(** A progress event carries a percentage. *)
Definition progress_ok (e : event) : Prop :=
  match e with Sig (Progress pct) => 0 <= pct <= 100 | _ => True end.



(** The two signals that tell the window a session is over. *)
Definition terminal (s : signal) : bool :=
  match s with Finished _ _ _ | Error _ => true | _ => false end.

(** How the signals of a session end: with one [finished] or [error]
    signal, the only one of the session, or with the status Cancelled and
    without any. *)
Definition ends_once (ss : list signal) : Prop :=
  (∃ ss0 s, ss = ss0 ++ [s] ∧ terminal s = true
            ∧ Forall (λ s, terminal s = false) ss0) ∨
  (Forall (λ s, terminal s = false) ss ∧
   last ss = Some (Status StatusCancelled)).

(** The signals of a session that raised carry no [finished] and no [error]
    yet; those of a session that returned end once. *)
Definition ends_with (o : outcome unit) (ss : list signal) : Prop :=
  match o with
  | Val _ => ends_once ss
  | Raised _ => Forall (λ s, terminal s = false) ss
  end.

(** The files a session tests or removes are its own: the output file and
    the pass logs. *)
Definition own_path (E : env) (self : worker) (e : event) : Prop :=
  match e with
  | Exists p _ | Remove p _ => p = output_path self ∨ p ∈ sidecars E self
  | _ => True
  end.

(** The processes a session starts or fails to start, in order. *)
Definition launches (Δ : list event) : list (list string * bool) :=
  omap (λ e, match e with Popen cmd started => Some (cmd, started) | _ => None end) Δ.

(** The signals among the events that reach the window. *)
Definition delivered (evs : list gui_event) : list signal :=
  omap (λ ev, match ev with Deliver s => Some s | ClickCancel => None end) evs.

(** ** Paths as roots and components *)

(** A component of a path: not empty, not a dot, without a slash. *)
Definition component (c : list ascii) : Prop :=
  c ≠ [] ∧ c ≠ ["."%char] ∧ "/"%char ∉ c.

(** The components of a path, joined by slashes. *)
Fixpoint join_slash (comps : list (list ascii)) : list ascii :=
  match comps with
  | [] => []
  | [c] => c
  | c :: rest => c ++ "/"%char :: join_slash rest
  end.

(** What is kept of the pieces of a path. *)
Definition keeps (c : list ascii) : bool :=
  negb (bool_decide (c = [])) && negb (bool_decide (c = ["."%char])).

(** The name [start_compression] gives the output file of [input]. *)
Definition out_name (input ext : string) : string :=
  (posix_stem input +:+ "_compressed" +:+ ext)%string.
(** * Properties *)

(** ** Properties of the planner *)

Lemma py_int_floor (x : Q) : (0 <= x)%Q → py_int x = Qfloor x.
Proof.
  destruct x as [n d]. unfold Qle, py_int, Qfloor. simpl. intros H.
  apply Z.quot_div_nonneg; lia.
Qed.










(** ** The audio rate of the plan *)

Lemma source_audio_kbps_no_audio (streams : list stream) (k : Z) :
  Forall (λ s, is_audio s = false) streams →
  source_audio_kbps streams k = k.
Proof.
  induction 1 as [| s rest Hs _ IH]; simpl; [reflexivity |].
  rewrite Hs. exact IH.
Qed.

Lemma source_audio_kbps_first (before after : list stream) (s : stream) (k : Z) :
  Forall (λ s, is_audio s = false) before → is_audio s = true →
  source_audio_kbps (before ++ s :: after) k = default 128000 (bit_rate s) / 1000.
Proof.
  intros Hb Hs. induction Hb as [| x rest Hx _ IH]; simpl.
  - rewrite Hs. reflexivity.
  - rewrite Hx. exact IH.
Qed.

(** C9. With the copy policy: a source without any audio stream plans
    audio_kbps = 0; the first audio stream decides, whatever follows it: 128
    when it reports no bitrate, its bitrate in kbps (floor of bit_rate / 1000)
    when it does. So 128 is used only when an audio stream exists and has no
    bitrate field. *)
Theorem C9_copy_audio_kbps (audio_bitrate : Z) (before after : list stream)
    (s : stream) :
  Forall (λ s, is_audio s = false) before → is_audio s = true →
  resolve_audio_kbps "copy" audio_bitrate before = 0 ∧
  (bit_rate s = None →
     resolve_audio_kbps "copy" audio_bitrate (before ++ s :: after) = 128) ∧
  (∀ b, bit_rate s = Some b →
     resolve_audio_kbps "copy" audio_bitrate (before ++ s :: after) = b / 1000).
Proof.
  intros Hb Hs. unfold resolve_audio_kbps. simpl.
  rewrite source_audio_kbps_no_audio by exact Hb.
  rewrite source_audio_kbps_first by assumption.
  split; [reflexivity |]. split.
  - intros ->. reflexivity.
  - intros b ->. reflexivity.
Qed.

Lemma C9_copy_audio_kbps_witness :
  let video := {| codec_type := Some "video"%string; bit_rate := Some 900000 |} in
  let audio := {| codec_type := Some "audio"%string; bit_rate := None |} in
  let second := {| codec_type := Some "audio"%string; bit_rate := Some 64000 |} in
  Forall (λ s, is_audio s = false) [video] ∧ is_audio audio = true ∧
  resolve_audio_kbps "copy" 192 [video] = 0 ∧
  resolve_audio_kbps "copy" 192 ([video] ++ audio :: [second]) = 128.
Proof.
  intros video audio second.
  assert (Forall (λ s, is_audio s = false) [video]) as Hb
    by (repeat constructor).
  assert (is_audio audio = true) as Hs by reflexivity.
  destruct (C9_copy_audio_kbps 192 [video] [second] audio Hb Hs) as (H0 & H128 & _).
  split; [exact Hb |]. split; [exact Hs |].
  split; [exact H0 | exact (H128 eq_refl)].
Defined.
(** ** Lines of the diagnostic stream *)

Lemma startswith_spec (p t : list ascii) :
  startswith p t = true → t = p ++ drop (List.length p) t.
Proof.
  revert t. induction p as [| c p IH]; intros [| x t]; simpl; try done.
  intros [Hc Hp]%andb_prop. apply Ascii.eqb_eq in Hc as ->.
  f_equal. apply IH, Hp.
Qed.

Lemma expect_spec (lit : string) (t t' : list ascii) :
  expect lit t = Some t' → t = list_ascii_of_string lit ++ t'.
Proof.
  unfold expect. destruct (startswith _ t) eqn:H; [| done].
  intros [= <-]. apply startswith_spec, H.
Qed.

Lemma span_digits_spec (t ds rest : list ascii) :
  span_digits t = (ds, rest) → t = ds ++ rest ∧ forallb isdigit ds = true.
Proof.
  revert ds rest. induction t as [| c t IH]; simpl; intros ds rest.
  - intros [= <- <-]. done.
  - destruct (isdigit c) eqn:Hc.
    + destruct (span_digits t) as [ds' rest'].
      intros [= <- <-]. destruct (IH _ _ eq_refl) as [-> Hds].
      simpl. rewrite Hc, Hds. done.
    + intros [= <- <-]. done.
Qed.

Lemma digits1_spec (t ds rest : list ascii) :
  digits1 t = Some (ds, rest) →
  t = ds ++ rest ∧ forallb isdigit ds = true ∧ ds ≠ [].
Proof.
  unfold digits1. destruct (span_digits t) as [ds' rest'] eqn:H.
  apply span_digits_spec in H as [-> Hds].
  destruct ds'; [done |]. intros [= <- <-]. done.
Qed.

Lemma match_time_sound (t h m s f : list ascii) :
  match_time t = Some (h, m, s, f) →
  (∃ rest, t = timestamp h m s f ++ rest) ∧
  digit_string h ∧ digit_string m ∧ digit_string s ∧ digit_string f.
Proof.
  unfold match_time, timestamp, digit_string. intros H.
  destruct (expect "time=" t) as [t1 |] eqn:E1; [| done].
  apply expect_spec in E1 as ->. simpl in H.
  destruct (digits1 t1) as [[h' t2] |] eqn:E2; [| done].
  apply digits1_spec in E2 as (-> & Hh & Hh'). simpl in H.
  destruct (expect ":" t2) as [t3 |] eqn:E3; [| done].
  apply expect_spec in E3 as ->. simpl in H.
  destruct (digits1 t3) as [[m' t4] |] eqn:E4; [| done].
  apply digits1_spec in E4 as (-> & Hm & Hm'). simpl in H.
  destruct (expect ":" t4) as [t5 |] eqn:E5; [| done].
  apply expect_spec in E5 as ->. simpl in H.
  destruct (digits1 t5) as [[s' t6] |] eqn:E6; [| done].
  apply digits1_spec in E6 as (-> & Hs & Hs'). simpl in H.
  destruct (expect "." t6) as [t7 |] eqn:E7; [| done].
  apply expect_spec in E7 as ->. simpl in H.
  destruct (digits1 t7) as [[f' t8] |] eqn:E8; [| done].
  apply digits1_spec in E8 as (-> & Hf & Hf'). simpl in H.
  injection H as <- <- <- <-.
  split; [| done].
  exists t8. simpl. repeat (rewrite <- ?app_assoc; simpl). done.
Qed.

Lemma re_search_time_sound (t h m s f : list ascii) :
  re_search_time t = Some (h, m, s, f) →
  (∃ before rest, t = before ++ timestamp h m s f ++ rest) ∧
  digit_string h ∧ digit_string m ∧ digit_string s ∧ digit_string f.
Proof.
  induction t as [| c t IH]; cbn [re_search_time].
  - destruct (match_time []) as [g |] eqn:Hm; [| done].
    intros [= ->]. apply match_time_sound in Hm as [[rest Hr] Hd].
    split; [| done]. by exists [], rest.
  - destruct (match_time (c :: t)) as [g |] eqn:Hm.
    + intros [= ->]. apply match_time_sound in Hm as [[rest Hr] Hd].
      split; [| done]. by exists [], rest.
    + intros H. destruct (IH H) as [(before & rest & ->) Hd].
      split; [| done]. by exists (c :: before), rest.
Qed.

Lemma fold_digits_nonneg (ds : list ascii) (acc : Z) :
  0 <= acc → forallb isdigit ds = true →
  0 <= fold_left (λ acc c, acc * 10 + (Z.of_nat (nat_of_ascii c) - 48)) ds acc.
Proof.
  revert acc. induction ds as [| c ds IH]; simpl; intros acc Hacc; [done |].
  intros [Hc Hds]%andb_prop. apply IH; [| done].
  unfold isdigit in Hc. apply andb_prop in Hc as [Hc _].
  apply Nat.leb_le in Hc. lia.
Qed.

Lemma int_of_digits_nonneg (ds : list ascii) :
  forallb isdigit ds = true → 0 <= int_of_digits ds.
Proof. apply fold_digits_nonneg. done. Qed.


Lemma polls_app (Δ1 Δ2 : list event) : polls (Δ1 ++ Δ2) = polls Δ1 ++ polls Δ2.
Proof. apply omap_app. Qed.

Lemma polls_signals (ss : list signal) : polls (Sig <$> ss) = [].
Proof. by induction ss. Qed.

Lemma add_events_nil (w : world) : add_events [] w = w.
Proof.
  destruct w. unfold add_events. simpl. by rewrite app_nil_r, Nat.add_0_r.
Qed.

Lemma add_events_app (Δ1 Δ2 : list event) (w : world) :
  add_events Δ2 (add_events Δ1 w) = add_events (Δ1 ++ Δ2) w.
Proof.
  unfold add_events. simpl.
  by rewrite app_assoc, polls_app, length_app, Nat.add_assoc.
Qed.

Lemma record_eq (e : event) (w : world) :
  (∀ b, e ≠ Poll b) → record e w = (Val (), add_events [e] w).
Proof.
  intros He. unfold record, add_events.
  assert (polls [e] = []) as -> by (destruct e; naive_solver).
  simpl. by rewrite Nat.add_0_r.
Qed.

Lemma emit_eq (s : signal) (w : world) :
  emit s w = (Val (), add_events [Sig s] w).
Proof. by apply record_eq. Qed.

Lemma get_cancelled_eq (E : env) (w : world) :
  get_cancelled E w
  = (Val (flag_at E (flag_reads w)),
     add_events [Poll (flag_at E (flag_reads w))] w).
Proof. unfold get_cancelled, add_events. simpl. by rewrite Nat.add_1_r. Qed.

Lemma bind_val {A B} (m : M A) (f : A → M B) (w w' : world) (a : A) :
  m w = (Val a, w') → (m ≫= f) w = f a w'.
Proof. unfold mbind, M_bind. by intros ->. Qed.

Lemma bind_raised {A B} (m : M A) (f : A → M B) (w w' : world) (e : exn) :
  m w = (Raised e, w') → (m ≫= f) w = (Raised e, w').
Proof. unfold mbind, M_bind. by intros ->. Qed.

Lemma handle_line_eq (duration : Q) (line : list byte) (w : world) :
  handle_line duration line w
  = (Val (), add_events (Sig <$> line_signals duration line) w).
Proof.
  unfold handle_line, line_signals, when.
  destruct (re_search_time _) as [[[[h m] s] f] |];
    destruct (existsb _ _); cbn [app fmap list_fmap].
  - erewrite bind_val by apply emit_eq. by rewrite emit_eq, add_events_app.
  - erewrite bind_val by apply emit_eq. done.
  - erewrite bind_val by done. by rewrite emit_eq.
  - erewrite bind_val by done. by rewrite add_events_nil.
Qed.

Lemma for_each_handle_line (duration : Q) (lines : list (list byte)) (w : world) :
  for_each (handle_line duration) lines w
  = (Val (), add_events (Sig <$> (lines ≫= line_signals duration)) w).
Proof.
  revert w. induction lines as [| l lines IH]; intros w; simpl.
  - by rewrite add_events_nil.
  - erewrite bind_val by apply handle_line_eq.
    by rewrite IH, add_events_app, fmap_app.
Qed.

(** ** Splitting the stream into lines *)

Lemma bytes_split_nonempty (sep : byte) (s : list byte) : bytes_split sep s ≠ [].
Proof.
  destruct s as [| b s]; simpl; [done |].
  destruct (Byte.eqb b sep); [done |]. by destruct (bytes_split sep s).
Qed.



Lemma removelast_cons {A} (x : A) (l : list A) :
  l ≠ [] → removelast (x :: l) = x :: removelast l.
Proof. by destruct l. Qed.

Lemma last_cons {A} (x d : A) (l : list A) :
  l ≠ [] → List.last (x :: l) d = List.last l d.
Proof. by destruct l. Qed.

(** Splitting a stream that arrives in two parts: the pieces completed by
    the first part, then the split of what it left over followed by the
    second part. *)
Lemma bytes_split_app (sep : byte) (x y : list byte) :
  bytes_split sep (x ++ y)
  = removelast (bytes_split sep x)
    ++ bytes_split sep (List.last (bytes_split sep x) [] ++ y).
Proof.
  induction x as [| b x IH]; [done |].
  pose proof (bytes_split_nonempty sep x) as Hx.
  cbn [app bytes_split]. destruct (Byte.eqb b sep) eqn:Hb.
  - rewrite removelast_cons, last_cons by done. by rewrite IH at 1.
  - rewrite IH at 1. destruct (bytes_split sep x) as [| p [| p' ps]]; [done | |].
    + cbn [removelast List.last app bytes_split]. by rewrite Hb.
    + by rewrite removelast_cons, last_cons.
Qed.

Lemma removelast_app_r {A} (l1 l2 : list A) :
  l2 ≠ [] → removelast (l1 ++ l2) = l1 ++ removelast l2.
Proof. intros. by apply removelast_app. Qed.

Lemma last_app_r {A} (l1 l2 : list A) (d : A) :
  l2 ≠ [] → List.last (l1 ++ l2) d = List.last l2 d.
Proof.
  intros H. induction l1 as [| x l1 IH]; [done |].
  cbn [app]. rewrite last_cons; [done |]. by destruct l1, l2.
Qed.

Lemma complete_lines_app (x y : list byte) :
  removelast (bytes_split CR (x ++ y))
  = removelast (bytes_split CR x)
    ++ removelast (bytes_split CR (List.last (bytes_split CR x) [] ++ y)).
Proof.
  rewrite bytes_split_app. apply removelast_app_r, bytes_split_nonempty.
Qed.

Lemma partial_line_app (x y : list byte) :
  List.last (bytes_split CR (x ++ y)) []
  = List.last (bytes_split CR (List.last (bytes_split CR x) [] ++ y)) [].
Proof.
  rewrite bytes_split_app. apply last_app_r, bytes_split_nonempty.
Qed.

(** ** Reading in chunks *)






(** ** The cancellation flag *)

Lemma flag_at_mono (E : env) (k k' : nat) :
  (k ≤ k')%nat → flag_at E k = true → flag_at E k' = true.
Proof.
  unfold flag_at. destruct (cancel_at E) as [c |]; [| done].
  intros Hk Hc%bool_decide_eq_true. apply bool_decide_eq_true. lia.
Qed.


Lemma polls_from_nil (E : env) (k : nat) : polls_from E k [].
Proof. done. Qed.

Lemma polls_from_app (E : env) (k : nat) (Δ1 Δ2 : list event) :
  polls_from E k (Δ1 ++ Δ2)
  ↔ polls_from E k Δ1 ∧ polls_from E (k + List.length (polls Δ1)) Δ2.
Proof.
  unfold polls_from. rewrite polls_app, length_app, seq_app, fmap_app. split.
  - intros H. apply app_inj_1 in H; [done |]. by rewrite length_fmap, length_seq.
  - by intros [<- <-].
Qed.

Lemma polls_from_sig (E : env) (k : nat) (ss : list signal) :
  polls_from E k (Sig <$> ss).
Proof. unfold polls_from. by rewrite polls_signals. Qed.

Lemma polls_from_poll (E : env) (k : nat) :
  polls_from E k [Poll (flag_at E k)].
Proof. done. Qed.

(** A read of the flag that saw it set is followed by such reads only. *)
Lemma polls_from_set (E : env) (k : nat) (Δ : list event) :
  polls_from E k Δ → true ∈ polls Δ →
  flag_at E (k + List.length (polls Δ)) = true.
Proof.
  unfold polls_from. intros -> Hin.
  apply list_elem_of_fmap in Hin as (j & Hj & Hin).
  apply elem_of_seq in Hin. rewrite length_fmap, length_seq.
  apply (flag_at_mono E j); [lia | done].
Qed.


(** ** The read loop *)

Ltac world_eq :=
  unfold after_pass, add_events; simpl;
  rewrite <- ?app_assoc; simpl; rewrite ?polls_app; simpl;
  rewrite ?length_app; simpl;
  first [ done | repeat f_equal; first [ done | lia ] ].

Section Supervisor.

Context (E : env).

Lemma read_loop_spec (duration : Q) (reads : list (list byte))
    (buffer : list byte) (w : world) :
  ∃ left Δ,
    read_loop E duration reads buffer w = (Val left, add_events Δ w) ∧
    loop_trace duration reads buffer left Δ ∧
    polls_from E (flag_reads w) Δ.
Proof.
  revert buffer w. induction reads as [| chunk reads IH]; intros buffer w;
    cbn [read_loop]; erewrite bind_val by apply get_cancelled_eq;
    destruct (flag_at E (flag_reads w)) eqn:Hflag.
  - exists None, [Poll true; Terminate; Wait]. split; [| split].
    + erewrite bind_val by (by apply record_eq).
      erewrite bind_val by (by apply record_eq).
      by rewrite !add_events_app.
    + constructor.
    + unfold polls_from. simpl. by rewrite Hflag.
  - exists (Some buffer), [Poll false; Read []]. split; [| split].
    + erewrite bind_val by (by apply record_eq). by rewrite !add_events_app.
    + constructor.
    + unfold polls_from. simpl. by rewrite Hflag.
  - exists None, [Poll true; Terminate; Wait]. split; [| split].
    + erewrite bind_val by (by apply record_eq).
      erewrite bind_val by (by apply record_eq).
      by rewrite !add_events_app.
    + constructor.
    + unfold polls_from. simpl. by rewrite Hflag.
  - erewrite bind_val by (by apply record_eq). cbv zeta.
    erewrite bind_val by apply for_each_handle_line.
    rewrite !add_events_app.
    match goal with |- context [read_loop _ _ _ ?b ?w'] =>
      destruct (IH b w') as (left & Δ & -> & Htrace & Hpolls) end.
    eexists left, _. split; [| split].
    + by rewrite add_events_app.
    + cbn [app]. by constructor.
    + cbn [app]. change (Poll false :: Read chunk :: ?l)
        with ([Poll false; Read chunk] ++ l).
      rewrite app_assoc. apply polls_from_app. split.
      * apply polls_from_app. split; [| apply polls_from_sig].
        unfold polls_from. simpl. by rewrite Hflag.
      * revert Hpolls. unfold add_events. simpl.
        by rewrite ?polls_app, ?polls_signals, ?app_nil_r.
Qed.

Lemma popen_started (cmd : list string) (proc : process) (w : world) :
  subprocess_Popen E cmd = Some proc →
  popen E cmd w
  = (Val proc, {| flag_reads := flag_reads w;
                  files := files w ∪ p_creates proc;
                  trace := trace w ++ [Popen cmd true] |}).
Proof. unfold popen. by intros ->. Qed.

Lemma popen_failed (cmd : list string) (w : world) :
  subprocess_Popen E cmd = None →
  popen E cmd w = (Raised PopenError, add_events [Popen cmd false] w).
Proof.
  unfold popen, add_events. intros ->. simpl. by rewrite Nat.add_0_r.
Qed.

Lemma _run_ffmpeg_failed (cmd : list string) (duration : Q) (pass_num : Z)
    (w : world) :
  subprocess_Popen E cmd = None →
  _run_ffmpeg E cmd duration pass_num w
  = (Raised PopenError, add_events [Popen cmd false] w).
Proof.
  intros H. unfold _run_ffmpeg. by erewrite bind_raised by by apply popen_failed.
Qed.

Lemma _run_ffmpeg_spec (cmd : list string) (duration : Q) (pass_num : Z)
    (proc : process) (w : world) :
  subprocess_Popen E cmd = Some proc →
  ∃ cancelled Δ,
    _run_ffmpeg E cmd duration pass_num w = (Val (), after_pass proc Δ w) ∧
    pass_trace duration cmd proc cancelled Δ ∧
    polls_from E (flag_reads w) Δ.
Proof.
  intros Hproc. unfold _run_ffmpeg.
  erewrite bind_val by by apply popen_started.
  match goal with |- context [(read_loop _ _ ?r ?b ≫= _) ?w'] =>
    destruct (read_loop_spec duration r b w')
      as (left & Δ & Hloop & Htrace & Hpolls) end.
  erewrite bind_val by exact Hloop. simpl in Hpolls.
  destruct left as [buffer |].
  - erewrite bind_val by (by apply record_eq).
    destruct (bool_decide (p_returncode proc ≠ 0)) eqn:Hrc.
    + apply bool_decide_eq_true in Hrc.
      erewrite bind_val
        by (erewrite bind_val by apply get_cancelled_eq; reflexivity).
      rewrite !add_events_app.
      match goal with |- context [Poll (flag_at E ?k)] =>
        set (flag := flag_at E k) in *; assert (flag_at E k = flag) as Hflag by done end.
      destruct flag; cbn [negb when].
      * exists false, (Popen cmd true :: Δ ++ Wait :: [Poll true] ++ [Sig (Progress 100)]).
        split; [| split].
        -- erewrite bind_val by done. rewrite emit_eq, add_events_app.
           world_eq.
        -- eapply pass_exited; [done |]. by constructor.
        -- change (Popen cmd true :: ?l) with ([Popen cmd true] ++ l).
           apply polls_from_app. split; [done |]. simpl. rewrite Nat.add_0_r.
           apply polls_from_app. split; [done |].
           change (Wait :: ?l) with ([Wait] ++ l).
           apply polls_from_app. split; [done |]. simpl. rewrite Nat.add_0_r.
           unfold polls_from. simpl. f_equal.
           rewrite <- Hflag. unfold add_events. simpl.
           rewrite polls_app. simpl. rewrite app_nil_r. done.
      * exists false, (Popen cmd true :: Δ ++ Wait ::
                        (Poll false :: failure_tail buffer) ++ [Sig (Progress 100)]).
        split; [| split].
        -- unfold failure_tail, when.
           destruct (bool_decide (strip (decode buffer) = [])); cbn [negb].
           ++ erewrite bind_val by done. rewrite emit_eq, add_events_app.
              world_eq.
           ++ erewrite bind_val by apply emit_eq.
              rewrite emit_eq, !add_events_app.
              world_eq.
        -- eapply pass_exited; [done |]. by constructor.
        -- change (Popen cmd true :: ?l) with ([Popen cmd true] ++ l).
           apply polls_from_app. split; [done |]. simpl. rewrite Nat.add_0_r.
           apply polls_from_app. split; [done |].
           change (Wait :: ?l) with ([Wait] ++ l).
           apply polls_from_app. split; [done |]. simpl. rewrite Nat.add_0_r.
           change (Poll false :: ?l) with ([Poll false] ++ l).
           apply polls_from_app. split.
           ++ unfold polls_from. simpl. f_equal.
              rewrite <- Hflag. unfold add_events. simpl.
              rewrite polls_app. simpl. rewrite app_nil_r. done.
           ++ unfold polls_from, failure_tail.
              by destruct (bool_decide (strip (decode buffer) = [])).
    + apply bool_decide_eq_false in Hrc.
      assert (p_returncode proc = 0) as Hzero by lia.
      erewrite bind_val by done. cbn [when].
      exists false, (Popen cmd true :: Δ ++ Wait :: [] ++ [Sig (Progress 100)]).
      split; [| split].
      * erewrite bind_val by done. rewrite emit_eq, !add_events_app.
        world_eq.
      * eapply pass_exited; [done |]. by constructor.
      * change (Popen cmd true :: ?l) with ([Popen cmd true] ++ l).
        apply polls_from_app. split; [done |]. simpl. rewrite Nat.add_0_r.
        apply polls_from_app. split; [done |]. done.
  - exists true, (Popen cmd true :: Δ). split; [| split].
    + unfold after_pass, add_events. simpl. by rewrite <- app_assoc.
    + by constructor.
    + change (Popen cmd true :: ?l) with ([Popen cmd true] ++ l).
      apply polls_from_app. split; [done |]. simpl. by rewrite Nat.add_0_r.
Qed.

End Supervisor.

(** ** Files: tests, removals and the cleanup loop *)

Section Session.

Context (E : env) (self : worker).

Lemma world_after_eq (w : world) (fs : gset string) (Δ : list event) (k : nat) :
  k = (flag_reads w + List.length (polls Δ))%nat →
  {| flag_reads := k; files := fs; trace := trace w ++ Δ |} = world_after fs Δ w.
Proof. by intros ->. Qed.

Lemma world_after_after (fs fs' : gset string) (Δ Δ' : list event) (w : world) :
  world_after fs' Δ' (world_after fs Δ w) = world_after fs' (Δ ++ Δ') w.
Proof.
  unfold world_after. simpl.
  by rewrite polls_app, length_app, Nat.add_assoc, app_assoc.
Qed.

Lemma add_events_world_after (Δ : list event) (w : world) :
  add_events Δ w = world_after (files w) Δ w.
Proof. done. Qed.

Lemma after_pass_world_after (proc : process) (Δ : list event) (w : world) :
  after_pass proc Δ w = world_after (files w ∪ p_creates proc) Δ w.
Proof. done. Qed.

Lemma os_path_exists_eq (path : string) (w : world) :
  os_path_exists path w
  = (Val (bool_decide (path ∈ files w)),
     add_events [Exists path (bool_decide (path ∈ files w))] w).
Proof. unfold os_path_exists, add_events. simpl. by rewrite Nat.add_0_r. Qed.

Lemma os_remove_removed (path : string) (w : world) :
  path ∉ locked E →
  os_remove E path w
  = (Val (), world_after (files w ∖ {[path]}) [Remove path true] w).
Proof.
  intros H. unfold os_remove, world_after. rewrite bool_decide_eq_false_2 by done.
  simpl. by rewrite Nat.add_0_r.
Qed.

Lemma os_remove_locked (path : string) (w : world) :
  path ∈ locked E →
  os_remove E path w
  = (Raised (RemoveError path), add_events [Remove path false] w).
Proof.
  intros H. unfold os_remove, add_events. rewrite bool_decide_eq_true_2 by done.
  simpl. by rewrite Nat.add_0_r.
Qed.

Lemma try_except_val {A} (body : M A) (handler : exn → M A) (w w' : world) (a : A) :
  body w = (Val a, w') → try_except body handler w = (Val a, w').
Proof. unfold try_except. by intros ->. Qed.

Lemma try_except_raised {A} (body : M A) (handler : exn → M A) (w w' : world)
    (e : exn) :
  body w = (Raised e, w') → try_except body handler w = handler e w'.
Proof. unfold try_except. by intros ->. Qed.

(** One round of the cleanup loop. *)
Lemma cleanup_step (p : string) (w : world) :
  ∃ Δ,
    (found ← os_path_exists p;
     when found (try_except (os_remove E p) (λ _, mret ()))) w
    = (Val (), world_after (files w ∖ ({[p]} ∖ locked E)) Δ w) ∧
    polls Δ = [] ∧
    Forall (λ e, match e with Exists q _ | Remove q _ => q = p | _ => False end) Δ.
Proof.
  erewrite bind_val by apply os_path_exists_eq.
  destruct (bool_decide (p ∈ files w)) eqn:Hfound; cbn [when].
  - apply bool_decide_eq_true in Hfound.
    destruct (decide (p ∈ locked E)) as [Hl | Hl].
    + exists [Exists p true; Remove p false]. split; [| by repeat constructor].
      erewrite try_except_raised by by apply os_remove_locked.
      unfold mret, M_ret. rewrite add_events_app, add_events_world_after.
      do 2 f_equal. set_solver.
    + exists [Exists p true; Remove p true]. split; [| by repeat constructor].
      erewrite try_except_val by by apply os_remove_removed.
      rewrite add_events_world_after, world_after_after.
      do 2 f_equal. simpl. set_solver.
  - apply bool_decide_eq_false in Hfound.
    exists [Exists p false]. split; [| by repeat constructor].
    unfold mret, M_ret. rewrite add_events_world_after.
    do 2 f_equal. set_solver.
Qed.

Lemma cleanup_loop (suffixes : list string) (w : world) :
  ∃ Δ,
    for_each (λ suffix,
        found ← os_path_exists (passlog_base E self +:+ suffix)%string;
        when found
          (try_except (os_remove E (passlog_base E self +:+ suffix)%string)
             (λ _, mret ())))
      suffixes w
    = (Val (),
       world_after
         (files w ∖ (list_to_set ((λ suffix, passlog_base E self +:+ suffix)%string
                                  <$> suffixes) ∖ locked E)) Δ w) ∧
    polls Δ = [] ∧
    Forall (λ e, match e with
                 | Exists q _ | Remove q _ =>
                     q ∈ (λ suffix, passlog_base E self +:+ suffix)%string
                         <$> suffixes
                 | _ => False
                 end) Δ.
Proof.
  revert w. induction suffixes as [| suffix suffixes IH]; intros w.
  - exists []. split; [| done]. cbn [for_each]. unfold mret, M_ret, world_after.
    simpl. rewrite app_nil_r, Nat.add_0_r. destruct w. simpl. f_equal. f_equal.
    set_solver.
  - cbn [for_each].
    destruct (cleanup_step (passlog_base E self +:+ suffix)%string w)
      as (Δ1 & Hstep & Hp1 & HΔ1).
    erewrite bind_val by exact Hstep. cbv beta.
    destruct (IH (world_after
      (files w ∖ ({[(passlog_base E self +:+ suffix)%string]} ∖ locked E)) Δ1 w))
      as (Δ2 & -> & Hp2 & HΔ2).
    exists (Δ1 ++ Δ2). split; [| split].
    + rewrite world_after_after. do 2 f_equal. simpl. set_solver.
    + by rewrite polls_app, Hp1, Hp2.
    + apply Forall_app. split.
      * eapply Forall_impl; [exact HΔ1 |].
        intros [] ?; simpl in *; try done; subst; set_solver.
      * eapply Forall_impl; [exact HΔ2 |].
        intros [] ?; simpl in *; try done; set_solver.
Qed.

Lemma cleanup_spec (w : world) :
  ∃ Δ,
    cleanup E self w
    = (Val (), world_after (files w ∖ (sidecars E self ∖ locked E)) Δ w) ∧
    polls Δ = [] ∧ Forall (sidecar_event E self) Δ.
Proof.
  destruct (cleanup_loop passlog_suffixes w) as (Δ & H & Hp & HΔ).
  exists Δ. split; [exact H |]. split; [exact Hp |].
  eapply Forall_impl; [exact HΔ |].
  intros [] ?; simpl in *; try done; unfold sidecars; set_solver.
Qed.

Lemma report_spec (w : world) :
  report E self w
  = (Val (),
     add_events
       (Exists (output_path self) (bool_decide (output_path self ∈ files w))
        :: (Sig <$> report_signals E self
                      (bool_decide (output_path self ∈ files w)))) w).
Proof.
  unfold report, report_signals.
  erewrite bind_val by apply os_path_exists_eq.
  destruct (bool_decide (output_path self ∈ files w)); cbv zeta.
  - repeat (erewrite bind_val by apply emit_eq).
    by rewrite emit_eq, !add_events_app.
  - by rewrite emit_eq, !add_events_app.
Qed.

(** ** The passes of a session *)

Lemma polls_from_no_polls (k : nat) (Δ : list event) :
  polls Δ = [] → polls_from E k Δ.
Proof. unfold polls_from. by intros ->. Qed.

Lemma runs_bind {A B} (m : M A) (f : A → M B) (w : world) (a : A)
    (o : outcome B) (fs1 fs2 : gset string) (Δ1 Δ2 : list event) :
  runs E m w (Val a) fs1 Δ1 →
  runs E (f a) (world_after fs1 Δ1 w) o fs2 Δ2 →
  runs E (m ≫= f) w o fs2 (Δ1 ++ Δ2).
Proof.
  intros [Hm Hp1] [Hf Hp2]. split.
  - erewrite bind_val by exact Hm. by rewrite Hf, world_after_after.
  - apply polls_from_app. by split.
Qed.

Lemma runs_bind_raised {A B} (m : M A) (f : A → M B) (w : world) (e : exn)
    (fs : gset string) (Δ : list event) :
  runs E m w (Raised e) fs Δ → runs E (m ≫= f) w (Raised e) fs Δ.
Proof. intros [Hm Hp]. split; [| done]. by erewrite bind_raised by exact Hm. Qed.

Lemma runs_ret {A} (a : A) (w : world) : runs E (mret a) w (Val a) (files w) [].
Proof.
  split; [| done]. unfold mret, M_ret, world_after. destruct w. simpl.
  by rewrite app_nil_r, Nat.add_0_r.
Qed.

Lemma runs_emit (s : signal) (w : world) :
  runs E (emit s) w (Val ()) (files w) [Sig s].
Proof. split; [apply emit_eq | done]. Qed.

Lemma runs_emit_last (s : signal) (w : world) (fs : gset string) :
  fs = files w → runs E (emit s) w (Val ()) fs [Sig s].
Proof. intros ->. apply runs_emit. Qed.

Lemma runs_get_cancelled (w : world) :
  runs E (get_cancelled E) w (Val (flag_at E (flag_reads w))) (files w)
    [Poll (flag_at E (flag_reads w))].
Proof. split; [apply get_cancelled_eq | done]. Qed.

Lemma runs_get_cancelled_eq (b : bool) (w : world) :
  flag_at E (flag_reads w) = b →
  runs E (get_cancelled E) w (Val b) (files w) [Poll b].
Proof. intros <-. apply runs_get_cancelled. Qed.

Lemma runs_exists (path : string) (w : world) :
  runs E (os_path_exists path) w (Val (bool_decide (path ∈ files w))) (files w)
    [Exists path (bool_decide (path ∈ files w))].
Proof. split; [apply os_path_exists_eq | done]. Qed.

Lemma runs__run_ffmpeg (cmd : list string) (duration : Q) (pass_num : Z)
    (proc : process) (w : world) :
  subprocess_Popen E cmd = Some proc →
  ∃ cancelled Δ,
    runs E (_run_ffmpeg E cmd duration pass_num) w (Val ())
      (files w ∪ p_creates proc) Δ ∧
    pass_trace duration cmd proc cancelled Δ.
Proof.
  intros Hproc.
  destruct (_run_ffmpeg_spec E cmd duration pass_num proc w Hproc)
    as (cancelled & Δ & Hrun & Htrace & Hpolls).
  by exists cancelled, Δ.
Qed.

Lemma runs__run_ffmpeg_failed (cmd : list string) (duration : Q) (pass_num : Z)
    (w : world) :
  subprocess_Popen E cmd = None →
  runs E (_run_ffmpeg E cmd duration pass_num) w (Raised PopenError) (files w)
    [Popen cmd false].
Proof. intros H. split; [by apply _run_ffmpeg_failed | done]. Qed.

Lemma runs_discard_output (w : world) :
  ∃ o fs' Δ,
    runs E (found ← os_path_exists (output_path self);
          when found (os_remove E (output_path self))) w o fs' Δ ∧
    discard_output E self (files w) o fs' Δ.
Proof.
  destruct (decide (output_path self ∈ files w)) as [Hin | Hout].
  - destruct (decide (output_path self ∈ locked E)) as [Hl | Hl].
    + eexists _, _, _. split; [| by apply discard_locked].
      split; [| done].
      erewrite bind_val by apply os_path_exists_eq.
      rewrite bool_decide_eq_true_2 by done. cbn [when].
      rewrite os_remove_locked, add_events_app by done. done.
    + eexists _, _, _. split; [| by apply discard_removed].
      split; [| done].
      erewrite bind_val by apply os_path_exists_eq.
      rewrite bool_decide_eq_true_2 by done. cbn [when].
      rewrite os_remove_removed by done.
      by rewrite add_events_world_after, world_after_after.
  - eexists _, _, _. split; [| by apply discard_absent].
    split; [| done].
    erewrite bind_val by apply os_path_exists_eq.
    rewrite bool_decide_eq_false_2 by done. cbn [when].
    unfold mret, M_ret. done.
Qed.

Lemma runs_report_cleanup (w : world) :
  ∃ Δc,
    runs E (report E self ;; cleanup E self) w (Val ())
      (files w ∖ (sidecars E self ∖ locked E))
      (Exists (output_path self) (bool_decide (output_path self ∈ files w))
       :: (Sig <$> report_signals E self
                     (bool_decide (output_path self ∈ files w)))
       ++ Δc) ∧
    Forall (sidecar_event E self) Δc.
Proof.
  destruct (cleanup_spec (add_events
    (Exists (output_path self) (bool_decide (output_path self ∈ files w))
     :: (Sig <$> report_signals E self
                   (bool_decide (output_path self ∈ files w)))) w))
    as (Δc & Hc & Hp & HΔ).
  exists Δc. split; [| done]. split.
  - erewrite bind_val by apply report_spec. cbv beta. rewrite Hc.
    by rewrite add_events_world_after, world_after_after.
  - apply polls_from_no_polls. change (?e :: ?l ++ ?r) with ((e :: l) ++ r).
    rewrite polls_app, Hp, app_nil_r. simpl. apply polls_signals.
Qed.

End Session.

Ltac step_with tac :=
  eapply runs_bind; [tac |];
  rewrite ?world_after_after; simpl files; cbn [app].

Ltac step_one tac :=
  eapply (runs_bind _ _ _ _ _ _ _ _ [_]); [tac |];
  rewrite ?world_after_after; simpl files; cbn [app].

Ltac step_emit := step_one ltac:(apply runs_emit).

Ltac step_ret tac :=
  eapply (runs_bind _ _ _ _ _ _ _ _ []); [tac |];
  rewrite ?world_after_after, ?app_nil_r; simpl files; cbn [app].

Section Passes.

Context (E : env) (self : worker).

Lemma second_pass_spec (ffmpeg : string) (duration : Q) (video_kbps : Z)
    (vf_arg : option string) (w : world) :
  ∃ o fs' Δ,
    runs E (second_pass E self ffmpeg duration video_kbps vf_arg) w o fs' Δ ∧
    final_pass E self ffmpeg duration video_kbps vf_arg (files w) o fs' Δ.
Proof.
  unfold second_pass. cbv zeta.
  pose (cmd := pass2_cmd E self ffmpeg vf_arg video_kbps).
  pose (banner := pass2_banner E self ffmpeg video_kbps vf_arg).
  destruct (subprocess_Popen E cmd) as [proc |] eqn:Hproc.
  - destruct (runs__run_ffmpeg E cmd duration 2 proc
                (world_after (files w) banner w) Hproc)
      as (cancelled & Δ & Hrun & Htrace).
    pose (fs2 := files w ∪ p_creates proc).
    destruct (flag_at E (flag_reads (world_after fs2 (banner ++ Δ) w)))
      eqn:Hflag.
    + destruct (runs_discard_output E self
        (world_after fs2
           ((((banner ++ Δ) ++ [Poll true]) ++ [Sig (Log LogCancelled)])
            ++ [Sig (Status StatusCancelled)]) w))
        as (o & fs' & Δd & Hd & Hdis).
      exists o, fs', (banner ++ Δ ++ cancelled_events ++ Δd).
      split; [| by eapply final_cancelled].
      do 4 step_emit.
      step_with ltac:(exact Hrun).
      step_one ltac:(apply runs_get_cancelled_eq, Hflag).
      do 2 step_emit. exact Hd.
    + destruct (runs_report_cleanup E self
        (world_after fs2 ((banner ++ Δ) ++ [Poll false]) w))
        as (Δc & Hrc & HΔc).
      eexists (Val ()), _, _.
      split; [| by eapply (final_exited _ _ _ _ _ _ _ proc cancelled Δ Δc)].
      do 4 step_emit.
      step_with ltac:(exact Hrun).
      step_one ltac:(apply runs_get_cancelled_eq, Hflag).
      exact Hrc.
  - eexists _, _, _. split; [| by apply final_not_started].
    do 4 step_emit.
    eapply runs_bind_raised.
    exact (runs__run_ffmpeg_failed E cmd duration 2
             (world_after (files w) banner w) Hproc).
Qed.

Lemma passes_spec (ffmpeg : string) (duration : Q) (video_kbps : Z)
    (vf_arg : option string) (w : world) :
  ∃ o fs' Δ,
    runs E (passes E self ffmpeg duration video_kbps vf_arg) w o fs' Δ ∧
    session_trace E self ffmpeg duration video_kbps vf_arg (files w) o fs' Δ.
Proof.
  unfold passes. cbv zeta.
  pose (cmd := pass1_cmd E self ffmpeg vf_arg video_kbps).
  destruct (is_av1 self) eqn:Hav1; cbn [negb].
  - destruct (second_pass_spec ffmpeg duration video_kbps vf_arg
                (world_after (files w) pass1_banner w))
      as (o & fs' & Δ & Hrun & Htrace).
    exists o, fs', (pass1_banner ++ Δ). split; [| by apply session_single].
    do 2 step_emit.
    eapply (runs_bind _ _ _ _ _ _ _ _ []); [apply runs_ret |].
    rewrite ?world_after_after, ?app_nil_r. exact Hrun.
  - destruct (subprocess_Popen E cmd) as [proc |] eqn:Hproc.
    + destruct (runs__run_ffmpeg E cmd duration 1 proc
        (world_after (files w)
           (pass1_banner ++ [Sig (Log (LogCommand cmd))]) w) Hproc)
        as (cancelled & Δ & Hrun & Htrace).
      pose (fs1 := files w ∪ p_creates proc).
      destruct (flag_at E (flag_reads (world_after fs1
        ((pass1_banner ++ [Sig (Log (LogCommand cmd))]) ++ Δ) w))) eqn:Hflag.
      * eexists (Val ()), fs1, _. split.
        -- do 2 step_emit.
           step_with ltac:(
             step_emit; step_with ltac:(exact Hrun);
             apply runs_get_cancelled_eq, Hflag).
           step_emit. by apply runs_emit_last.
        -- rewrite <- !app_assoc. cbn [app].
           by apply (session_cancelled _ _ _ _ _ _ _ proc cancelled).
      * destruct (second_pass_spec ffmpeg duration video_kbps vf_arg
          (world_after fs1
             (((pass1_banner ++ [Sig (Log (LogCommand cmd))]) ++ Δ)
              ++ [Poll false]) w))
          as (o & fs' & Δ' & Hrun' & Htrace').
        eexists o, fs', _. split.
        -- do 2 step_emit.
           step_with ltac:(
             step_emit; step_with ltac:(exact Hrun);
             apply runs_get_cancelled_eq, Hflag).
           exact Hrun'.
        -- rewrite <- !app_assoc. cbn [app].
           by apply (session_two_pass _ _ _ _ _ _ _ proc cancelled).
    + eexists _, _, _. split; [| by apply session_not_started].
      do 2 step_emit.
      eapply runs_bind_raised. step_emit. eapply runs_bind_raised.
      exact (runs__run_ffmpeg_failed E cmd duration 1
        (world_after (files w)
           (pass1_banner ++ [Sig (Log (LogCommand cmd))]) w) Hproc).
Qed.

End Passes.

(** ** [run] as a whole *)

Section Run.

Context (E : env) (self : worker).

Lemma runs_try_except_val {A} (body : M A) (handler : exn → M A) (w : world)
    (a : A) (fs : gset string) (Δ : list event) :
  runs E body w (Val a) fs Δ → runs E (try_except body handler) w (Val a) fs Δ.
Proof. intros [Hb Hp]. split; [| done]. by apply try_except_val. Qed.

Lemma runs_try_except_raised {A} (body : M A) (handler : exn → M A)
    (w : world) (e : exn) (o : outcome A) (fs1 fs2 : gset string)
    (Δ1 Δ2 : list event) :
  runs E body w (Raised e) fs1 Δ1 →
  runs E (handler e) (world_after fs1 Δ1 w) o fs2 Δ2 →
  runs E (try_except body handler) w o fs2 (Δ1 ++ Δ2).
Proof.
  intros [Hb Hp1] [Hh Hp2]. split.
  - erewrite try_except_raised by exact Hb. by rewrite Hh, world_after_after.
  - apply polls_from_app. by split.
Qed.

Lemma runs_raise {A} (e : exn) (w : world) :
  runs E (raise e : M A) w (Raised e) (files w) [].
Proof.
  split; [| done]. unfold raise, world_after. destruct w. simpl.
  by rewrite app_nil_r, Nat.add_0_r.
Qed.


Lemma vf_filters_runs :
  (∃ vfs, ∀ w, runs E (vf_filters self) w (Val vfs) (files w) []) ∨
  (∀ w, runs E (vf_filters self) w (Raised ValueError) (files w) []).
Proof.
  unfold vf_filters.
  destruct (truthy (resolution self) && _).
  - destruct (int_of_str _) as [h |].
    + left. eexists. intros w. apply runs_ret.
    + right. intros w. apply runs_raise.
  - left. eexists. intros w. apply runs_ret.
Qed.

Ltac step_logs :=
  unfold plan_logs in *;
  destruct (0 <? _); cbn [app when] in *;
  do 3 step_emit;
  first [ step_emit | step_ret ltac:(apply runs_ret) ];
  step_emit.

Lemma run_spec (w : world) :
  ∃ fs' Δ,
    runs E (run E self) w (Val ()) fs' Δ ∧ run_trace E self (files w) fs' Δ.
Proof.
  unfold run.
  destruct (find_ffmpeg E) as [ffmpeg |] eqn:Hffmpeg; cycle 1.
  { eexists _, _. split; [apply runs_try_except_val, runs_emit |].
    apply run_refused. }
  destruct (probe_video E (input_path self)) as [info |]; cycle 1.
  { eexists _, _. split; [apply runs_try_except_val, runs_emit |].
    apply run_refused. }
  destruct (info_format info) as [fmt |]; cycle 1.
  { eexists _, _. split.
    - eapply (runs_try_except_raised _ _ _ _ _ _ _ []); [apply runs_raise |].
      by apply runs_emit_last.
    - apply run_refused. }
  cbv zeta. set (duration := default 0%Q (fmt_duration fmt)).
  destruct (Qle_bool duration 0) eqn:Hduration.
  { eexists _, _. split; [apply runs_try_except_val, runs_emit |].
    apply run_refused. }
  assert (0 < duration)%Q as Hpos.
  { apply Qnot_le_lt. intros H%Qle_bool_iff. congruence. }
  unfold plan_and_encode. cbv zeta.
  set (audio_kbps := resolve_audio_kbps _ _ _).
  destruct (plan_bitrate (target_mb self) duration audio_kbps)
    as [e | video_kbps] eqn:Hplan.
  { eexists _, _. split; [apply runs_try_except_val, runs_emit |].
    apply run_refused. }
  destruct vf_filters_runs as [[vfs Hvf] | Hvf].
  - destruct (passes_spec E self ffmpeg duration video_kbps
        (if bool_decide (vfs = []) then None else Some (str_join "," vfs))
        (world_after (files w)
           (plan_logs self duration video_kbps audio_kbps) w))
      as (o & fs' & Δ & Hrun & Htrace).
    exists fs', (plan_logs self duration video_kbps audio_kbps ++ Δ ++ uncaught o).
    split; [| by eapply run_session].
    destruct o as [[] | e]; cbn [uncaught].
    + rewrite app_nil_r. apply runs_try_except_val.
      step_logs; (step_ret ltac:(apply Hvf)); exact Hrun.
    + rewrite app_assoc.
      eapply runs_try_except_raised; [| by apply runs_emit_last].
      step_logs; (step_ret ltac:(apply Hvf)); exact Hrun.
  - exists (files w), (plan_logs self duration video_kbps audio_kbps
                       ++ [Sig (Error (Uncaught ValueError))]).
    split; [| apply run_bad_resolution].
    eapply runs_try_except_raised; [| by apply runs_emit_last].
    step_logs; eapply runs_bind_raised; apply Hvf.
Qed.

End Run.

(** ** What the traces of the supervisor look like *)

Lemma signals_app (Δ1 Δ2 : list event) :
  signals (Δ1 ++ Δ2) = signals Δ1 ++ signals Δ2.
Proof. apply omap_app. Qed.

Lemma signals_sig (ss : list signal) : signals (Sig <$> ss) = ss.
Proof. induction ss as [| s ss IH]; [done |]. cbn. by f_equal. Qed.





Lemma line_signals_supervisor (duration : Q) (line : list byte) :
  Forall supervisor_event (Sig <$> line_signals duration line).
Proof.
  unfold line_signals.
  destruct (re_search_time _) as [[[[h m] s] f] |];
    destruct (existsb _ _); by repeat constructor.
Qed.

Lemma lines_signals_supervisor (duration : Q) (lines : list (list byte)) :
  Forall supervisor_event (Sig <$> (lines ≫= line_signals duration)).
Proof.
  induction lines as [| l lines IH]; [constructor |].
  cbn [mbind list_bind]. rewrite fmap_app. apply Forall_app.
  split; [apply line_signals_supervisor | exact IH].
Qed.

Lemma loop_trace_supervisor (duration : Q) (reads : list (list byte))
    (buffer : list byte) (left : option (list byte)) (Δ : list event) :
  loop_trace duration reads buffer left Δ → Forall supervisor_event Δ.
Proof.
  induction 1; [by repeat constructor.. |].
  do 2 (constructor; [done |]). apply Forall_app.
  split; [apply lines_signals_supervisor | done].
Qed.







Lemma loop_trace_head (duration : Q) (reads : list (list byte))
    (buffer : list byte) (left : option (list byte)) (Δ : list event) :
  loop_trace duration reads buffer left Δ → ∃ b Δ', Δ = Poll b :: Δ'.
Proof. destruct 1; eauto. Qed.




(** ** What the traces of a pass look like *)

Lemma failure_tail_supervisor (buffer : list byte) :
  Forall supervisor_event (failure_tail buffer).
Proof. unfold failure_tail. destruct (bool_decide _); by repeat constructor. Qed.

Lemma exit_check_supervisor (returncode : Z) (buffer : list byte)
    (ending : list event) :
  exit_check returncode buffer ending → Forall supervisor_event ending.
Proof.
  destruct 1; [constructor | by repeat constructor |].
  constructor; [done | apply failure_tail_supervisor].
Qed.

Lemma pass_trace_supervisor (duration : Q) (cmd : list string) (proc : process)
    (cancelled : bool) (Δ : list event) :
  pass_trace duration cmd proc cancelled Δ → Forall supervisor_event Δ.
Proof.
  destruct 1 as [Δ Hloop | Δ buffer ending Hloop Hexit].
  - constructor; [done |]. by eapply loop_trace_supervisor.
  - constructor; [done |]. apply Forall_app. split.
    + by eapply loop_trace_supervisor.
    + constructor; [done |]. apply Forall_app. split.
      * by eapply exit_check_supervisor.
      * by repeat constructor.
Qed.





Lemma last_snoc_Some {A} (l : list A) (x : A) : last (l ++ [x]) = Some x.
Proof. apply last_snoc. Qed.









(** ** The supervisor: progress, polling and the final progress *)










(** ** How a session ended, from its trace *)

Lemma elem_of_milestones (e : event) (Δ : list event) :
  milestone e = true → e ∈ Δ ↔ e ∈ milestones Δ.
Proof.
  intros He. unfold milestones. rewrite !list_elem_of_In, List.filter_In. tauto.
Qed.

Lemma milestones_app (Δ1 Δ2 : list event) :
  milestones (Δ1 ++ Δ2) = milestones Δ1 ++ milestones Δ2.
Proof. apply List.filter_app. Qed.

Lemma milestones_signals_none (ss : list signal) :
  Forall (λ s, milestone (Sig s) = false) ss → milestones (Sig <$> ss) = [].
Proof.
  induction 1 as [| s ss Hs _ IH]; [done |].
  cbn [fmap list_fmap milestones List.filter]. by rewrite Hs.
Qed.

Lemma milestones_lines (duration : Q) (lines : list (list byte)) :
  milestones (Sig <$> (lines ≫= line_signals duration)) = [].
Proof.
  apply milestones_signals_none, Forall_forall. intros s Hs.
  apply list_elem_of_bind in Hs as (line & Hs & _). unfold line_signals in Hs.
  destruct (re_search_time _) as [[[[? ?] ?] ?] |], (existsb _ _);
    set_unfold; naive_solver.
Qed.

Lemma milestones_loop (duration : Q) (reads : list (list byte))
    (buffer : list byte) (left : option (list byte)) (Δ : list event) :
  loop_trace duration reads buffer left Δ →
  milestones Δ = match left with Some _ => [] | None => [Terminate] end.
Proof.
  induction 1 as [| buffer | chunk reads buffer left Δ Hloop IH]; [done.. |].
  change (Poll false :: Read chunk :: ?l) with ([Poll false; Read chunk] ++ l).
  by rewrite !milestones_app, milestones_lines, IH.
Qed.

Lemma milestones_pass (duration : Q) (cmd : list string) (proc : process)
    (cancelled : bool) (Δ : list event) :
  pass_trace duration cmd proc cancelled Δ →
  milestones Δ = if cancelled then [Terminate] else [].
Proof.
  destruct 1 as [Δl Hloop | Δl buffer ending Hloop Hexit].
  - change (Popen cmd true :: ?l) with ([Popen cmd true] ++ l).
    by rewrite milestones_app, (milestones_loop _ _ _ _ _ Hloop).
  - change (Popen cmd true :: ?l) with ([Popen cmd true] ++ l).
    change (Wait :: ?l) with ([Wait] ++ l).
    rewrite !milestones_app, (milestones_loop _ _ _ _ _ Hloop).
    destruct Hexit; [done | done |]. unfold failure_tail.
    by destruct (bool_decide _).
Qed.

Lemma milestones_plan_logs (self : worker) (duration : Q)
    (video_kbps audio_kbps : Z) :
  milestones (plan_logs self duration video_kbps audio_kbps) = [].
Proof. unfold plan_logs. by destruct (0 <? audio_kbps). Qed.

Lemma milestones_sidecar (E : env) (self : worker) (Δ : list event) :
  Forall (sidecar_event E self) Δ → milestones Δ = [].
Proof.
  induction 1 as [| e Δ He _ IH]; [done |].
  cbn [milestones List.filter]. by destruct e as [[] | | | | | | |].
Qed.

Lemma milestones_report (E : env) (self : worker) (found : bool) :
  milestones (Sig <$> report_signals E self found)
  = if found
    then [Sig (Finished (output_path self)
                 (os_path_getsize E (output_path self))
                 (if 0 <? os_path_getsize E (input_path self)
                  then ((1 - inject_Z (os_path_getsize E (output_path self))
                             / inject_Z (os_path_getsize E (input_path self)))
                        * 100)%Q
                  else 0%Q))]
    else [Sig (Error OutputMissing)].
Proof. by destruct found. Qed.

Lemma milestones_discard (E : env) (self : worker) (fs fs' : gset string)
    (o : outcome unit) (Δ : list event) :
  discard_output E self fs o fs' Δ → milestones Δ = [].
Proof. by destruct 1. Qed.



Lemma milestones_pass1_banner : milestones pass1_banner = [Sig (Status StatusAnalyzing)].
Proof. done. Qed.

Lemma milestones_pass2_banner (E : env) (self : worker) (ffmpeg : string)
    (video_kbps : Z) (vf_arg : option string) :
  milestones (pass2_banner E self ffmpeg video_kbps vf_arg)
  = [Sig (Status StatusEncoding)].
Proof. done. Qed.

Lemma milestones_cancelled_events :
  milestones cancelled_events = [Sig (Status StatusCancelled)].
Proof. done. Qed.

Lemma milestones_uncaught (o : outcome unit) :
  milestones (uncaught o)
  = match o with Val _ => [] | Raised e => [Sig (Error (Uncaught e))] end.
Proof. by destruct o. Qed.

Lemma milestones_nil : milestones [] = [].
Proof. done. Qed.

Lemma milestones_cons (e : event) (Δ : list event) :
  milestones (e :: Δ) = (if milestone e then [e] else []) ++ milestones Δ.
Proof. unfold milestones. simpl. by destruct (milestone e). Qed.

(** The milestones of a trace built from the parts of a session. *)
Ltac milestones_norm :=
  repeat match goal with
  | H : pass_trace _ _ _ _ ?Δ |- _ =>
      let Hm := fresh "Hm" in
      pose proof (milestones_pass _ _ _ _ _ H) as Hm;
      clear H
  | H : discard_output _ _ _ _ _ ?Δ |- _ =>
      let Hm := fresh "Hm" in
      pose proof (milestones_discard _ _ _ _ _ _ H) as Hm;
      clear H
  | H : Forall (sidecar_event _ _) ?Δ |- _ =>
      let Hm := fresh "Hm" in
      pose proof (milestones_sidecar _ _ _ H) as Hm;
      clear H
  end;
  repeat progress
    (rewrite ?milestones_app, ?milestones_cons, ?milestones_plan_logs,
       ?milestones_report, ?milestones_pass1_banner, ?milestones_pass2_banner,
       ?milestones_cancelled_events, ?milestones_uncaught, ?milestones_nil in *);
  repeat match goal with
  | H : milestones _ = _ |- _ => rewrite ?H in *; clear H
  end;
  cbn [milestone app] in *; rewrite ?app_nil_r in *.

Ltac leaf :=
  milestones_norm;
  repeat match goal with
  | |- context [if ?c then _ else _] => destruct c
  | H : context [if ?c then _ else _] |- _ => destruct c
  end;
  try (exfalso; set_solver).


Section RunCases.
Context (E : env) (self : worker).





End RunCases.

(** ** What a session tries to remove *)

Lemma elem_of_removals (p : string) (b : bool) (Δ : list event) :
  Remove p b ∈ Δ → p ∈ removals Δ.
Proof. intros H. apply list_elem_of_omap. by exists (Remove p b). Qed.

Lemma removals_app (Δ1 Δ2 : list event) :
  removals (Δ1 ++ Δ2) = removals Δ1 ++ removals Δ2.
Proof. apply omap_app. Qed.

Lemma removals_signals (ss : list signal) : removals (Sig <$> ss) = [].
Proof. by induction ss. Qed.

Lemma removals_supervisor (Δ : list event) :
  Forall supervisor_event Δ → removals Δ = [].
Proof.
  induction 1 as [| e Δ He _ IH]; [done |].
  destruct e as [[] | | | | | | |]; try done; simpl in *; by rewrite ?IH.
Qed.

Lemma removals_pass (duration : Q) (cmd : list string) (proc : process)
    (cancelled : bool) (Δ : list event) :
  pass_trace duration cmd proc cancelled Δ → removals Δ = [].
Proof. intros H. by eapply removals_supervisor, pass_trace_supervisor. Qed.

Lemma removals_plan_logs (self : worker) (duration : Q)
    (video_kbps audio_kbps : Z) :
  removals (plan_logs self duration video_kbps audio_kbps) = [].
Proof. unfold plan_logs. by destruct (0 <? audio_kbps). Qed.

Lemma removals_discard (E : env) (self : worker) (fs fs' : gset string)
    (o : outcome unit) (Δ : list event) :
  discard_output E self fs o fs' Δ →
  removals Δ = [] ∨ removals Δ = [output_path self].
Proof. destruct 1; auto. Qed.

Section Cleanup.

Context (E : env) (self : worker).

(** A session that ends with the status Cancelled tries to remove nothing
    but the output file: the cleanup of the pass logs is not reached. *)
Lemma run_trace_cancelled_removals (fs fs' : gset string) (Δ : list event) :
  run_trace E self fs fs' Δ →
  Sig (Status StatusCancelled) ∈ Δ →
  ∀ p b, Remove p b ∈ Δ → p = output_path self.
Proof.
  intros Hrun Hc p b Hp%elem_of_removals.
  rewrite elem_of_milestones in Hc by done.
  destruct Hrun as [e | d k a | ffmpeg d k a vf o fs' Δ Hffmpeg Hd Hplan Hsession].
  - leaf.
  - leaf.
  - destruct Hsession as [o fs' Δ Hav1 Hfinal | Hav1 Hproc
      | proc c Δ Hav1 Hproc Hpass | proc c Δ o fs' Δ' Hav1 Hproc Hpass Hfinal].
    + destruct Hfinal as [Hproc | proc c Δ o fs' Δd Hproc Hpass Hdis
        | proc c Δ Δc Hproc Hpass HΔc].
      * leaf.
      * pose proof (removals_pass _ _ _ _ _ Hpass) as Hr.
        pose proof (removals_discard _ _ _ _ _ _ Hdis) as Hrd.
        revert Hp. rewrite !removals_app, removals_plan_logs, Hr.
        assert (removals (uncaught o) = []) as -> by by destruct o.
        simpl. destruct Hrd as [-> | ->]; set_solver.
      * leaf.
    + leaf.
    + pose proof (removals_pass _ _ _ _ _ Hpass) as Hr.
      revert Hp. rewrite !removals_app, removals_plan_logs. simpl.
      rewrite removals_app, Hr. simpl. set_solver.
    + destruct Hfinal as [Hproc' | proc' c' Δ' o fs' Δd Hproc' Hpass' Hdis
        | proc' c' Δ' Δc Hproc' Hpass' HΔc].
      * leaf.
      * pose proof (removals_pass _ _ _ _ _ Hpass) as Hr.
        pose proof (removals_pass _ _ _ _ _ Hpass') as Hr'.
        pose proof (removals_discard _ _ _ _ _ _ Hdis) as Hrd.
        revert Hp. rewrite !removals_app, removals_plan_logs. simpl.
        rewrite !removals_app, Hr. simpl. rewrite !removals_app, Hr'.
        assert (removals (uncaught o) = []) as -> by by destruct o.
        simpl. destruct Hrd as [-> | ->]; set_solver.
      * leaf.
Qed.

End Cleanup.

(** ** Cancellation *)

Lemma run_events (E : env) (self : worker) (w : world) :
  ∃ w' Δ,
    run E self w = (Val (), w') ∧ trace w' = trace w ++ Δ ∧
    polls_from E (flag_reads w) Δ ∧
    run_trace E self (files w) (files w') Δ.
Proof.
  destruct (run_spec E self w) as (fs' & Δ & [Hrun Hpolls] & Htrace).
  by exists (world_after fs' Δ w), Δ.
Qed.







(** ** Cleanup of the pass logs *)

(** C2 (the code at the failing input). A two-pass session cancelled during
    pass 1, after the process wrote its pass log: the session ends with the
    status Cancelled, tests and removes no file at all, and the pass log,
    one of the files the cleanup loop is written to remove, is still there.
    The same session, never cancelled, removes it. *)
Theorem C2_cancelled_session_keeps_sidecar :
  let E := posix_host 600 short_log 0 (Some 1%nat) ∅ in
  let self := sample_worker "libx264" "/videos/clip_compressed.mp4" in
  let w' := (run E self (initial_world sample_files)).2 in
  let completed :=
    (run (posix_host 600 short_log 0 None ∅) self (initial_world sample_files)).2 in
  "/videos/ffmpeg2pass-0.log"%string ∈ sidecars E self ∧
  milestones (trace w')
    = [Sig (Status StatusAnalyzing); Terminate; Sig (Status StatusCancelled)] ∧
  removals (trace w') = [] ∧
  "/videos/ffmpeg2pass-0.log"%string ∈ files w' ∧
  "/videos/ffmpeg2pass-0.log"%string ∉ files completed.
Proof.
  intros E self w' completed.
  split; [apply (bool_decide_unpack _); by vm_compute |].
  split; [by vm_compute |]. split; [by vm_compute |].
  split; apply (bool_decide_unpack _); by vm_compute.
Qed.

(** ** The commands of the VP9 passes *)

(** C8 (as stated, refuted). A VP9 request for an mp4 file: pass 1 tags the
    discard sink with webm, not with the container of the request. *)
Lemma C8_pass1_tag_is_not_the_container :
  ¬ (∀ (E : env) (self : worker) (ffmpeg : string) (vf_arg : option string)
       (video_kbps : Z),
       is_vp9 self = true →
       format_tag (pass1_cmd E self ffmpeg vf_arg video_kbps)
       = Some (container_of (output_path self))).
Proof.
  intros H.
  specialize (H (posix_host 600 short_log 0 None ∅)
                (sample_worker "libvpx-vp9" "/videos/clip_compressed.mp4")
                "/usr/bin/ffmpeg"%string None 221 eq_refl).
  vm_compute in H. discriminate H.
Qed.

(** C8 (amended). For every VP9 request, the command of pass 1 ends with the
    pass-1 options, speed 4, no audio, the format webm (whatever the
    container of the request) and the discard sink; the command of pass 2
    starts the same way and goes on with the pass-2 options and speed 2,
    then the audio options and the output path. The two speeds differ. *)
Theorem C8_vp9_passes (E : env) (self : worker) (ffmpeg : string)
    (vf_arg : option string) (video_kbps : Z) :
  is_vp9 self = true →
  ∃ common audio,
    pass1_cmd E self ffmpeg vf_arg video_kbps
      = common ++ ["-pass"; "1"; "-passlogfile"; passlog_base E self;
                   "-speed"; "4"; "-an"; "-f"; "webm"; null_out E]%string ∧
    pass2_cmd E self ffmpeg vf_arg video_kbps
      = common ++ ["-pass"; "2"; "-passlogfile"; passlog_base E self;
                   "-speed"; "2"]%string
        ++ audio ++ ["-movflags"; "+faststart"; output_path self]%string ∧
    "4"%string ≠ "2"%string.
Proof.
  intros Hvp9.
  exists (with_filter vf_arg [ffmpeg; "-y"; "-i"; input_path self]%string
          ++ ["-c:v"; codec_name self; "-b:v"; pretty video_kbps +:+ "k"]%string),
    (if bool_decide (audio_codec self = "an"%string) then ["-an"]%string
     else if bool_decide (audio_codec self = "copy"%string)
     then ["-c:a"; "copy"]%string
     else ["-c:a"; audio_codec self;
           "-b:a"; pretty (audio_bitrate self) +:+ "k"]%string).
  unfold pass1_cmd, pass2_cmd. rewrite Hvp9. cbv zeta.
  split; [reflexivity |]. split; [| discriminate].
  destruct (bool_decide (audio_codec self = "an"%string));
    [| destruct (bool_decide (audio_codec self = "copy"%string))];
    rewrite <- !app_assoc; reflexivity.
Qed.

Lemma C8_vp9_passes_witness :
  let E := posix_host 600 short_log 0 None ∅ in
  let self := sample_worker "libvpx-vp9" "/videos/clip_compressed.mp4" in
  is_vp9 self = true ∧
  ∃ common audio,
    pass1_cmd E self "/usr/bin/ffmpeg" None 221
      = common ++ ["-pass"; "1"; "-passlogfile"; passlog_base E self;
                   "-speed"; "4"; "-an"; "-f"; "webm"; null_out E]%string ∧
    pass2_cmd E self "/usr/bin/ffmpeg" None 221
      = common ++ ["-pass"; "2"; "-passlogfile"; passlog_base E self;
                   "-speed"; "2"]%string
        ++ audio ++ ["-movflags"; "+faststart"; output_path self]%string ∧
    "4"%string ≠ "2"%string.
Proof.
  intros E self. split; [reflexivity |].
  apply (C8_vp9_passes E self "/usr/bin/ffmpeg" None 221). reflexivity.
Defined.
(** * Further properties *)

(** ** Sessions that reach the passes *)



(** ** More on the planner *)








(** ** Progress stays within 0..100 *)

Lemma progress_pct_range (current : Z) (duration : Q) :
  0 <= current → 0 <= progress_pct current duration <= 100.
Proof.
  intros Hc. unfold progress_pct.
  destruct (Qle_bool duration 0) eqn:Hd; [lia |].
  assert (0 < duration)%Q as Hpos.
  { apply Qnot_le_lt. intros H%Qle_bool_iff. congruence. }
  rewrite py_int_floor.
  - split; [| lia]. apply Z.min_glb; [| lia].
    rewrite <- (Qfloor_Z 0). apply Qfloor_resp_le.
    apply Qmult_le_0_compat; [| discriminate].
    apply Qle_shift_div_l; [exact Hpos |]. rewrite Qmult_0_l.
    unfold Qle. simpl. lia.
  - apply Qmult_le_0_compat; [| discriminate].
    apply Qle_shift_div_l; [exact Hpos |]. rewrite Qmult_0_l.
    unfold Qle. simpl. lia.
Qed.

Lemma progress_ok_events (Δ : list event) :
  Forall progress_ok Δ → Forall (λ pct, 0 <= pct <= 100) (progress_events Δ).
Proof.
  induction 1 as [| e Δ He _ IH]; [constructor |].
  unfold progress_events in *. destruct e as [[] | | | | | | |]; simpl; try done.
  by constructor.
Qed.

Lemma line_signals_progress_ok (duration : Q) (line : list byte) :
  Forall progress_ok (Sig <$> line_signals duration line).
Proof.
  unfold line_signals.
  destruct (re_search_time _) as [[[[h m] s] f] |] eqn:Hre;
    destruct (existsb _ _); repeat constructor.
  all: apply re_search_time_sound in Hre as (_ & [Hh _] & [Hm _] & [Hs _] & _).
  all: apply progress_pct_range.
  all: pose proof (int_of_digits_nonneg h Hh);
       pose proof (int_of_digits_nonneg m Hm);
       pose proof (int_of_digits_nonneg s Hs); lia.
Qed.

Lemma lines_signals_progress_ok (duration : Q) (lines : list (list byte)) :
  Forall progress_ok (Sig <$> (lines ≫= line_signals duration)).
Proof.
  induction lines as [| l lines IH]; [constructor |].
  cbn [mbind list_bind]. rewrite fmap_app. apply Forall_app. split; [| exact IH].
  apply line_signals_progress_ok.
Qed.

Lemma loop_trace_progress_ok (duration : Q) (reads : list (list byte))
    (buffer : list byte) (left : option (list byte)) (Δ : list event) :
  loop_trace duration reads buffer left Δ → Forall progress_ok Δ.
Proof.
  induction 1; repeat constructor.
  apply Forall_app. split; [apply lines_signals_progress_ok | done].
Qed.

Lemma pass_trace_progress_ok (duration : Q) (cmd : list string) (proc : process)
    (cancelled : bool) (Δ : list event) :
  pass_trace duration cmd proc cancelled Δ → Forall progress_ok Δ.
Proof.
  destruct 1 as [Δ Hloop | Δ buffer ending Hloop Hexit].
  - constructor; [done |]. by eapply loop_trace_progress_ok.
  - constructor; [done |]. apply Forall_app. split.
    + by eapply loop_trace_progress_ok.
    + constructor; [done |]. apply Forall_app. split.
      * destruct Hexit; repeat constructor.
        unfold failure_tail. destruct (bool_decide _); repeat constructor.
      * repeat constructor; simpl; lia.
Qed.

Lemma sidecar_events_progress_ok (E : env) (self : worker) (Δ : list event) :
  Forall (sidecar_event E self) Δ → Forall progress_ok Δ.
Proof. intros H. eapply Forall_impl; [exact H |]. by intros []. Qed.

Lemma final_pass_progress_ok (E : env) (self : worker) (ffmpeg : string)
    (duration : Q) (video_kbps : Z) (vf_arg : option string)
    (fs fs' : gset string) (o : outcome unit) (Δ : list event) :
  final_pass E self ffmpeg duration video_kbps vf_arg fs o fs' Δ →
  Forall progress_ok Δ.
Proof.
  assert (Forall progress_ok (pass2_banner E self ffmpeg video_kbps vf_arg))
    as Hbanner by (repeat constructor; simpl; lia).
  destruct 1 as [| proc cancelled Δ o fs' Δd _ Hpass Hd
                 | proc cancelled Δ Δc _ Hpass HΔc].
  - apply Forall_app. split; [done | by repeat constructor].
  - apply Forall_app. split; [done |]. apply Forall_app. split.
    { by eapply pass_trace_progress_ok. }
    apply Forall_app. split; [by repeat constructor |].
    destruct Hd; by repeat constructor.
  - apply Forall_app. split; [done |]. apply Forall_app. split.
    { by eapply pass_trace_progress_ok. }
    do 2 (constructor; [done |]). apply Forall_app. split.
    + unfold report_signals. destruct (bool_decide _); by repeat constructor.
    + by eapply sidecar_events_progress_ok.
Qed.

Lemma session_trace_progress_ok (E : env) (self : worker) (ffmpeg : string)
    (duration : Q) (video_kbps : Z) (vf_arg : option string)
    (fs fs' : gset string) (o : outcome unit) (Δ : list event) :
  session_trace E self ffmpeg duration video_kbps vf_arg fs o fs' Δ →
  Forall progress_ok Δ.
Proof.
  destruct 1 as [o fs' Δ _ Hfinal | | proc cancelled Δ _ _ Hpass
                 | proc cancelled Δ o fs' Δ' _ _ Hpass Hfinal].
  - apply Forall_app. split; [by repeat constructor |].
    by eapply final_pass_progress_ok.
  - by repeat constructor.
  - apply Forall_app. split; [by repeat constructor |].
    constructor; [done |]. apply Forall_app. split.
    + by eapply pass_trace_progress_ok.
    + by repeat constructor.
  - apply Forall_app. split; [by repeat constructor |].
    constructor; [done |]. apply Forall_app. split.
    + by eapply pass_trace_progress_ok.
    + constructor; [done |]. by eapply final_pass_progress_ok.
Qed.

Lemma plan_logs_progress_ok (self : worker) (duration : Q)
    (video_kbps audio_kbps : Z) :
  Forall progress_ok (plan_logs self duration video_kbps audio_kbps).
Proof. unfold plan_logs. destruct (0 <? _); by repeat constructor. Qed.

Lemma run_trace_progress_ok (E : env) (self : worker) (fs fs' : gset string)
    (Δ : list event) :
  run_trace E self fs fs' Δ → Forall progress_ok Δ.
Proof.
  destruct 1 as [e | duration video_kbps audio_kbps
                 | ffmpeg duration video_kbps audio_kbps vf_arg o fs' Δ
                     _ _ _ Hsession].
  - by repeat constructor.
  - apply Forall_app. split; [apply plan_logs_progress_ok | by repeat constructor].
  - apply Forall_app. split; [apply plan_logs_progress_ok |].
    apply Forall_app. split; [by eapply session_trace_progress_ok |].
    destruct o; by repeat constructor.
Qed.

(** X3. Every progress value a session emits, whatever the tools, the
    file and the output of the processes are, lies between 0 and 100; and
    [run] always returns. *)
Theorem run_progress_within_bounds (E : env) (self : worker) (w : world) :
  ∃ w' Δ,
    run E self w = (Val (), w') ∧ trace w' = trace w ++ Δ ∧
    Forall (λ pct, 0 <= pct <= 100) (progress_events Δ).
Proof.
  destruct (run_events E self w) as (w' & Δ & Hrun & Htrace & _ & Hrt).
  exists w', Δ. split; [exact Hrun |]. split; [exact Htrace |].
  by eapply progress_ok_events, run_trace_progress_ok.
Qed.
(** ** Passes that are never cancelled *)


Lemma polls_failure_tail (buffer : list byte) : polls (failure_tail buffer) = [].
Proof. unfold failure_tail. by destruct (bool_decide _). Qed.

Lemma signals_cons_sig (s : signal) (Δ : list event) :
  signals (Sig s :: Δ) = s :: signals Δ.
Proof. done. Qed.

Lemma signals_failure_tail_none (buffer : list byte) :
  strip (decode buffer) = [] → failure_tail buffer = [].
Proof. unfold failure_tail. intros ->. done. Qed.







(** ** Timestamps and warnings *)

Lemma startswith_app (p t : list ascii) : startswith p (p ++ t) = true.
Proof.
  induction p as [| c p IH]; [done |]. simpl.
  by rewrite Ascii.eqb_refl, IH.
Qed.

Lemma expect_app (lit : string) (t : list ascii) :
  expect lit (list_ascii_of_string lit ++ t) = Some t.
Proof.
  unfold expect. by rewrite startswith_app, drop_app_length.
Qed.

Lemma span_digits_app (ds rest : list ascii) :
  forallb isdigit ds = true →
  (∀ c, head rest = Some c → isdigit c = false) →
  span_digits (ds ++ rest) = (ds, rest).
Proof.
  intros Hds Hrest. induction ds as [| d ds IH]; simpl in *.
  - destruct rest as [| c rest]; [done |]. simpl.
    by rewrite (Hrest c eq_refl).
  - apply andb_prop in Hds as [Hd Hds]. by rewrite Hd, IH.
Qed.

Lemma digits1_app (ds rest : list ascii) :
  digit_string ds →
  (∀ c, head rest = Some c → isdigit c = false) →
  digits1 (ds ++ rest) = Some (ds, rest).
Proof.
  intros [Hds Hne] Hrest. unfold digits1.
  rewrite span_digits_app by done. by destruct ds.
Qed.

Lemma match_time_timestamp (h m s f rest : list ascii) :
  digit_string h → digit_string m → digit_string s → digit_string f →
  (∀ c, head rest = Some c → isdigit c = false) →
  match_time (timestamp h m s f ++ rest) = Some (h, m, s, f).
Proof.
  intros Hh Hm Hs Hf Hrest. unfold match_time, timestamp.
  rewrite <- app_assoc, expect_app. cbn [mbind option_bind].
  rewrite <- app_assoc, digits1_app; [| done | by intros c [= <-]].
  cbn [mbind option_bind].
  change (":"%char :: ?t) with (list_ascii_of_string ":" ++ t) at 1.
  rewrite <- !app_assoc. rewrite expect_app. cbn [mbind option_bind].
  rewrite digits1_app; [| done | by intros c [= <-]].
  cbn [mbind option_bind app].
  change (":"%char :: ?t) with (list_ascii_of_string ":" ++ t) at 1.
  rewrite expect_app. cbn [mbind option_bind].
  rewrite <- !app_assoc.
  rewrite digits1_app; [| done | by intros c [= <-]].
  cbn [mbind option_bind app].
  change ("."%char :: ?t) with (list_ascii_of_string "." ++ t) at 1.
  rewrite expect_app. cbn [mbind option_bind].
  rewrite digits1_app by done. done.
Qed.

Lemma match_time_head (c : ascii) (t : list ascii) :
  c ≠ "t"%char → match_time (c :: t) = None.
Proof.
  intros Hc. unfold match_time.
  assert (expect "time=" (c :: t) = None) as ->; [| done].
  unfold expect. cbn [list_ascii_of_string startswith].
  destruct (Ascii.eqb_spec "t" c) as [<- | _]; done.
Qed.

(** X6. The timestamp pattern is found anywhere in a line: after any text
    without the letter t, a field time=H:M:S.F of non-empty digit strings,
    followed by anything that does not go on with a digit, is matched with
    exactly those four groups. *)
Theorem timestamp_is_found (pre h m s f rest : list ascii) :
  "t"%char ∉ pre →
  digit_string h → digit_string m → digit_string s → digit_string f →
  (∀ c, head rest = Some c → isdigit c = false) →
  re_search_time (pre ++ timestamp h m s f ++ rest) = Some (h, m, s, f).
Proof.
  intros Hpre Hh Hm Hs Hf Hrest.
  induction pre as [| c pre IH]; cbn [app].
  - pose proof (match_time_timestamp h m s f rest Hh Hm Hs Hf Hrest) as Hmatch.
    destruct (timestamp h m s f ++ rest); cbn [re_search_time];
      by rewrite Hmatch.
  - cbn [re_search_time]. rewrite match_time_head by set_solver.
    apply IH. set_solver.
Qed.

Lemma timestamp_is_found_witness :
  let pre := list_ascii_of_string "frame=  100 fps= 25 q=28.0 size=    1024kB " in
  let rest := list_ascii_of_string " bitrate= 100.0kbits/s speed=1.5x" in
  let digits := list_ascii_of_string in
  ("t"%char ∉ pre) ∧
  digit_string (digits "00") ∧ digit_string (digits "01") ∧
  digit_string (digits "40") ∧ digit_string (digits "52") ∧
  (∀ c, head rest = Some c → isdigit c = false) ∧
  re_search_time
    (list_ascii_of_string
       "frame=  100 fps= 25 q=28.0 size=    1024kB time=00:01:40.52 bitrate= 100.0kbits/s speed=1.5x")
  = Some (digits "00", digits "01", digits "40", digits "52").
Proof.
  intros pre rest digits.
  assert ("t"%char ∉ pre) as H1.
  { intros H. repeat (apply elem_of_cons in H as [H | H]; [discriminate H |]).
    by apply not_elem_of_nil in H. }
  assert (∀ ds, forallb isdigit ds = true → ds ≠ [] → digit_string ds) as Hd
    by (by split).
  assert (∀ c, head rest = Some c → isdigit c = false) as H6
    by (by intros c [= <-]).
  split; [exact H1 |].
  do 4 (split; [by apply Hd |]). split; [exact H6 |].
  apply (timestamp_is_found pre (digits "00") (digits "01") (digits "40")
           (digits "52") rest H1); [by apply Hd .. | exact H6].
Defined.






(** ** How a session ends *)

Lemma signals_cons (e : event) (Δ : list event) :
  signals (e :: Δ) = signals [e] ++ signals Δ.
Proof. apply (signals_app [e]). Qed.

Lemma signals_cons_other (e : event) (Δ : list event) :
  (∀ s, e ≠ Sig s) → signals (e :: Δ) = signals Δ.
Proof. intros He. destruct e; [by destruct (He s) | done ..]. Qed.

Lemma signals_supervisor (Δ : list event) :
  Forall supervisor_event Δ → Forall (λ s, terminal s = false) (signals Δ).
Proof.
  induction 1 as [| e Δ He _ IH]; [constructor |].
  rewrite signals_cons. apply Forall_app. split; [| exact IH].
  destruct e as [[| [] | | |] | | | | | | |]; by repeat constructor.
Qed.

Lemma signals_pass_trace (duration : Q) (cmd : list string) (proc : process)
    (cancelled : bool) (Δ : list event) :
  pass_trace duration cmd proc cancelled Δ →
  Forall (λ s, terminal s = false) (signals Δ).
Proof. intros H. by eapply signals_supervisor, pass_trace_supervisor. Qed.

Lemma signals_sidecar (E : env) (self : worker) (Δ : list event) :
  Forall (sidecar_event E self) Δ → signals Δ = [].
Proof.
  induction 1 as [| e Δ He _ IH]; [done |].
  rewrite signals_cons, IH. by destruct e.
Qed.

Lemma signals_discard (E : env) (self : worker) (fs fs' : gset string)
    (o : outcome unit) (Δ : list event) :
  discard_output E self fs o fs' Δ → signals Δ = [].
Proof. by destruct 1. Qed.

Lemma signals_plan_logs (self : worker) (duration : Q)
    (video_kbps audio_kbps : Z) :
  Forall (λ s, terminal s = false)
    (signals (plan_logs self duration video_kbps audio_kbps)).
Proof. unfold plan_logs. destruct (0 <? _); by repeat constructor. Qed.

Lemma ends_once_prefix (ss0 ss : list signal) :
  Forall (λ s, terminal s = false) ss0 → ends_once ss → ends_once (ss0 ++ ss).
Proof.
  intros H0 [(ss1 & s & -> & Hs & H1) | [Hall Hlast]].
  - left. exists (ss0 ++ ss1), s. rewrite app_assoc.
    split; [done |]. split; [done |]. by apply Forall_app.
  - right. split; [by apply Forall_app |].
    destruct ss as [| s ss] using rev_ind; [done |].
    rewrite app_assoc, last_snoc. by rewrite last_snoc in Hlast.
Qed.

Lemma ends_once_terminal (ss0 : list signal) (s : signal) :
  Forall (λ s, terminal s = false) ss0 → terminal s = true →
  ends_once (ss0 ++ [s]).
Proof. intros H0 Hs. left. by exists ss0, s. Qed.

Lemma final_pass_ends (E : env) (self : worker) (ffmpeg : string)
    (duration : Q) (video_kbps : Z) (vf_arg : option string)
    (fs fs' : gset string) (o : outcome unit) (Δ : list event) :
  final_pass E self ffmpeg duration video_kbps vf_arg fs o fs' Δ →
  ends_with o (signals Δ).
Proof.
  assert (Forall (λ s, terminal s = false)
            (signals (pass2_banner E self ffmpeg video_kbps vf_arg)))
    as Hbanner by by repeat constructor.
  destruct 1 as [| proc cancelled Δ o fs' Δd _ Hpass Hd
                 | proc cancelled Δ Δc _ Hpass HΔc].
  - cbn [ends_with]. rewrite signals_app. apply Forall_app. by split.
  - apply signals_pass_trace in Hpass.
    rewrite !signals_app, (signals_discard _ _ _ _ _ _ Hd), app_nil_r.
    assert (Forall (λ s, terminal s = false)
              (signals (pass2_banner E self ffmpeg video_kbps vf_arg)
               ++ signals Δ ++ signals cancelled_events)) as Hall.
    { apply Forall_app. split; [done |]. apply Forall_app. split; [done |].
      by repeat constructor. }
    destruct o; cbn [ends_with]; [| done].
    right. split; [done |].
    by rewrite !last_app.
  - apply signals_pass_trace in Hpass. cbn [ends_with].
    rewrite signals_app. apply ends_once_prefix; [done |].
    rewrite signals_app. apply ends_once_prefix; [done |].
    rewrite !signals_cons_other by done.
    rewrite signals_app, signals_sig, (signals_sidecar _ _ _ HΔc), app_nil_r.
    unfold report_signals. destruct (bool_decide _).
    + by apply (ends_once_terminal [_; _; _; _]); [repeat constructor |].
    + by apply (ends_once_terminal []).
Qed.

Lemma session_trace_ends (E : env) (self : worker) (ffmpeg : string)
    (duration : Q) (video_kbps : Z) (vf_arg : option string)
    (fs fs' : gset string) (o : outcome unit) (Δ : list event) :
  session_trace E self ffmpeg duration video_kbps vf_arg fs o fs' Δ →
  ends_with o (signals Δ).
Proof.
  assert (∀ o ss0 ss, Forall (λ s, terminal s = false) ss0 →
            ends_with o ss → ends_with o (ss0 ++ ss)) as Hprefix.
  { intros [] ss0 ss H0 H; cbn [ends_with] in *.
    - by apply ends_once_prefix.
    - by apply Forall_app. }
  destruct 1 as [o fs' Δ _ Hfinal | | proc cancelled Δ _ _ Hpass
                 | proc cancelled Δ o fs' Δ' _ _ Hpass Hfinal].
  - rewrite signals_app. apply Hprefix; [by repeat constructor |].
    by eapply final_pass_ends.
  - cbn [ends_with]. by repeat constructor.
  - apply signals_pass_trace in Hpass. cbn [ends_with].
    rewrite signals_app. apply ends_once_prefix; [by repeat constructor |].
    rewrite signals_cons. apply ends_once_prefix; [by repeat constructor |].
    rewrite signals_app. apply ends_once_prefix; [done |].
    right. split; [by repeat constructor | done].
  - apply signals_pass_trace in Hpass.
    rewrite signals_app. apply Hprefix; [by repeat constructor |].
    rewrite signals_cons. apply Hprefix; [by repeat constructor |].
    rewrite signals_app. apply Hprefix; [done |].
    rewrite signals_cons_other by done.
    by eapply final_pass_ends.
Qed.

Lemma run_trace_ends (E : env) (self : worker) (fs fs' : gset string)
    (Δ : list event) :
  run_trace E self fs fs' Δ → ends_once (signals Δ).
Proof.
  destruct 1 as [e | duration video_kbps audio_kbps
                 | ffmpeg duration video_kbps audio_kbps vf_arg o fs' Δ
                     _ _ _ Hsession].
  - by apply (ends_once_terminal []).
  - rewrite signals_app. apply ends_once_terminal; [| done].
    apply signals_plan_logs.
  - apply session_trace_ends in Hsession.
    pose proof (signals_plan_logs self duration video_kbps audio_kbps) as Hlogs.
    destruct o as [[] | e]; cbn [ends_with uncaught] in *.
    + rewrite app_nil_r, signals_app. by apply ends_once_prefix.
    + rewrite app_assoc, signals_app. apply ends_once_terminal; [| done].
      rewrite signals_app. by apply Forall_app.
Qed.

(** X8. A session always returns, and tells the window how it ended at most
    once: either its last signal is a [finished] or an [error] and no other
    signal is, or it emits neither and its last signal is the status
    Cancelled. *)
Theorem run_ends_once (E : env) (self : worker) (w : world) :
  ∃ w' Δ,
    run E self w = (Val (), w') ∧ trace w' = trace w ++ Δ ∧
    ends_once (signals Δ).
Proof.
  destruct (run_events E self w) as (w' & Δ & Hrun & Htrace & _ & Hrt).
  exists w', Δ. split; [exact Hrun |]. split; [exact Htrace |].
  by eapply run_trace_ends.
Qed.
(** ** The files of a session *)

Lemma own_path_supervisor (E : env) (self : worker) (Δ : list event) :
  Forall supervisor_event Δ → Forall (own_path E self) Δ.
Proof. intros H. eapply Forall_impl; [exact H |]. by intros []. Qed.

Lemma own_path_signals (E : env) (self : worker) (ss : list signal) :
  Forall (own_path E self) (Sig <$> ss).
Proof. apply Forall_fmap, Forall_true. done. Qed.

Lemma own_path_plan_logs (E : env) (self : worker) (duration : Q)
    (video_kbps audio_kbps : Z) :
  Forall (own_path E self) (plan_logs self duration video_kbps audio_kbps).
Proof. unfold plan_logs. destruct (0 <? _); by repeat constructor. Qed.

Lemma own_path_sidecar (E : env) (self : worker) (Δ : list event) :
  Forall (sidecar_event E self) Δ → Forall (own_path E self) Δ.
Proof.
  intros H. eapply Forall_impl; [exact H |].
  intros [] ?; simpl in *; try done; by right.
Qed.

Lemma own_path_discard (E : env) (self : worker) (fs fs' : gset string)
    (o : outcome unit) (Δ : list event) :
  discard_output E self fs o fs' Δ →
  Forall (own_path E self) Δ ∧
  ∀ p, p ∈ fs → p ≠ output_path self → p ∈ fs'.
Proof.
  destruct 1; (split; [repeat constructor; by left | set_solver]).
Qed.

Lemma final_pass_paths (E : env) (self : worker) (ffmpeg : string)
    (duration : Q) (video_kbps : Z) (vf_arg : option string)
    (fs fs' : gset string) (o : outcome unit) (Δ : list event) :
  final_pass E self ffmpeg duration video_kbps vf_arg fs o fs' Δ →
  Forall (own_path E self) Δ ∧
  ∀ p, p ∈ fs → p ≠ output_path self → p ∉ sidecars E self → p ∈ fs'.
Proof.
  assert (Forall (own_path E self)
            (pass2_banner E self ffmpeg video_kbps vf_arg))
    as Hbanner by by repeat constructor.
  destruct 1 as [| proc cancelled Δ o fs' Δd _ Hpass Hd
                 | proc cancelled Δ Δc _ Hpass HΔc].
  - split; [| done]. apply Forall_app. split; [done | by repeat constructor].
  - apply pass_trace_supervisor, (own_path_supervisor E self) in Hpass.
    apply own_path_discard in Hd as [Hd Hfs]. split.
    + apply Forall_app. split; [done |]. apply Forall_app. split; [done |].
      apply Forall_app. split; [by repeat constructor | done].
    + intros p Hp Hout _. apply Hfs; [set_solver | done].
  - apply pass_trace_supervisor, (own_path_supervisor E self) in Hpass.
    split.
    + apply Forall_app. split; [done |]. apply Forall_app. split; [done |].
      constructor; [done |]. constructor; [by left |].
      apply Forall_app. split; [apply own_path_signals |].
      by apply own_path_sidecar.
    + set_solver.
Qed.

Lemma session_trace_paths (E : env) (self : worker) (ffmpeg : string)
    (duration : Q) (video_kbps : Z) (vf_arg : option string)
    (fs fs' : gset string) (o : outcome unit) (Δ : list event) :
  session_trace E self ffmpeg duration video_kbps vf_arg fs o fs' Δ →
  Forall (own_path E self) Δ ∧
  ∀ p, p ∈ fs → p ≠ output_path self → p ∉ sidecars E self → p ∈ fs'.
Proof.
  destruct 1 as [o fs' Δ _ Hfinal | | proc cancelled Δ _ _ Hpass
                 | proc cancelled Δ o fs' Δ' _ _ Hpass Hfinal].
  - apply final_pass_paths in Hfinal as [HΔ Hfs]. split; [| done].
    apply Forall_app. split; [by repeat constructor | done].
  - split; [by repeat constructor | done].
  - apply pass_trace_supervisor, (own_path_supervisor E self) in Hpass.
    split; [| set_solver].
    apply Forall_app. split; [by repeat constructor |].
    constructor; [done |]. apply Forall_app. split; [done |].
    by repeat constructor.
  - apply pass_trace_supervisor, (own_path_supervisor E self) in Hpass.
    apply final_pass_paths in Hfinal as [HΔ' Hfs]. split.
    + apply Forall_app. split; [by repeat constructor |].
      constructor; [done |]. apply Forall_app. split; [done |].
      by constructor.
    + intros p Hp Hout Hside. apply Hfs; [set_solver | done | done].
Qed.

Lemma run_trace_paths (E : env) (self : worker) (fs fs' : gset string)
    (Δ : list event) :
  run_trace E self fs fs' Δ →
  Forall (own_path E self) Δ ∧
  ∀ p, p ∈ fs → p ≠ output_path self → p ∉ sidecars E self → p ∈ fs'.
Proof.
  destruct 1 as [e | duration video_kbps audio_kbps
                 | ffmpeg duration video_kbps audio_kbps vf_arg o fs' Δ
                     _ _ _ Hsession].
  - split; [by repeat constructor | done].
  - split; [| done].
    apply Forall_app. split; [apply own_path_plan_logs | by repeat constructor].
  - apply session_trace_paths in Hsession as [HΔ Hfs]. split; [| done].
    apply Forall_app. split; [apply own_path_plan_logs |].
    apply Forall_app. split; [done |]. destruct o; by repeat constructor.
Qed.

(** X9. The only paths a session tests for existence or removes are its
    output path and the names of the pass logs; every other file that
    existed before the session still exists after it. *)
Theorem run_touches_only_its_files (E : env) (self : worker) (w : world) :
  ∃ w' Δ,
    run E self w = (Val (), w') ∧ trace w' = trace w ++ Δ ∧
    Forall (own_path E self) Δ ∧
    ∀ p, p ∈ files w → p ≠ output_path self → p ∉ sidecars E self →
         p ∈ files w'.
Proof.
  destruct (run_events E self w) as (w' & Δ & Hrun & Htrace & _ & Hrt).
  exists w', Δ. split; [exact Hrun |]. split; [exact Htrace |].
  by apply run_trace_paths.
Qed.

(** ** What is left of the pass logs *)

Ltac finished_leaf Hf :=
  (split; [| split; [set_solver | set_solver]]);
  cbn [app] in Hf;
  repeat (apply elem_of_cons in Hf as [Hf | Hf];
          [first [discriminate Hf | by injection Hf] |]);
  by apply not_elem_of_nil in Hf.

Lemma run_trace_finished (E : env) (self : worker) (fs fs' : gset string)
    (Δ : list event) (out : string) (size : Z) (ratio : Q) :
  run_trace E self fs fs' Δ →
  Sig (Finished out size ratio) ∈ Δ →
  out = output_path self ∧
  (Sig (Status StatusCancelled) ∉ Δ) ∧
  ∀ p, p ∈ sidecars E self → p ∈ fs' → p ∈ locked E.
Proof.
  intros Hrun Hf.
  rewrite (elem_of_milestones (Sig (Status StatusCancelled))) by done.
  rewrite elem_of_milestones in Hf by done.
  destruct Hrun as [e | d k a | ffmpeg d k a vf o fs' Δ Hffmpeg Hd Hplan Hsession].
  - leaf.
  - leaf.
  - destruct Hsession as [o fs' Δ Hav1 Hfinal | Hav1 Hproc
      | proc c Δ Hav1 Hproc Hpass | proc c Δ o fs' Δ' Hav1 Hproc Hpass Hfinal].
    + destruct Hfinal as [Hproc | proc c Δ o fs' Δd Hproc Hpass Hdis
        | proc c Δ Δc Hproc Hpass HΔc].
      * leaf.
      * destruct Hdis; leaf; set_solver.
      * leaf; finished_leaf Hf.
    + leaf.
    + leaf; set_solver.
    + destruct Hfinal as [Hproc' | proc' c' Δ' o fs' Δd Hproc' Hpass' Hdis
        | proc' c' Δ' Δc Hproc' Hpass' HΔc].
      * leaf.
      * destruct Hdis; leaf; set_solver.
      * leaf; finished_leaf Hf.
Qed.

(** X10. When a session has emitted [finished], the path it reports is its
    output path, and none of the pass logs that can be removed is left. *)
Theorem finished_session_is_clean (E : env) (self : worker) (fs : gset string)
    (out : string) (size : Z) (ratio : Q) (p : string) :
  let w' := (run E self (initial_world fs)).2 in
  Sig (Finished out size ratio) ∈ trace w' →
  p ∈ sidecars E self → p ∉ locked E →
  out = output_path self ∧ p ∉ files w'.
Proof.
  intros w' Hf Hp Hl. unfold w' in *.
  destruct (run_events E self (initial_world fs))
    as (w1 & Δ & Hrun & Htrace & _ & Hrt).
  rewrite Hrun in *. cbn [snd initial_world trace app files] in *.
  rewrite Htrace in Hf.
  destruct (run_trace_finished E self _ _ _ _ _ _ Hrt Hf) as (-> & _ & Hclean).
  split; [done |]. intros Hin. by apply Hl, Hclean.
Qed.

Lemma finished_session_is_clean_witness :
  let E := posix_host 600 short_log 0 None ∅ in
  let self := sample_worker "libx264" "/videos/clip_compressed.mp4" in
  let fs := sample_files ∪ {[ "/videos/ffmpeg2pass-0.log.mbtree"%string ]} in
  let w' := (run E self (initial_world fs)).2 in
  let log := "/videos/ffmpeg2pass-0.log"%string in
  let tree := "/videos/ffmpeg2pass-0.log.mbtree"%string in
  Sig (Finished "/videos/clip_compressed.mp4" 250000 (75000000 # 1000000)) ∈ trace w' ∧
  log ∈ sidecars E self ∧ tree ∈ sidecars E self ∧
  (log ∉ locked E) ∧ (tree ∉ locked E) ∧
  (log ∉ files w') ∧ (tree ∉ files w').
Proof.
  intros E self fs w' log tree.
  assert (Sig (Finished "/videos/clip_compressed.mp4" 250000 (75000000 # 1000000)) ∈ trace w')
    as Hf.
  { apply (elem_of_milestones
             (Sig (Finished "/videos/clip_compressed.mp4" 250000 (75000000 # 1000000))) _ eq_refl).
    assert (milestones (trace w')
            = [Sig (Status StatusAnalyzing); Sig (Status StatusEncoding);
               Sig (Finished "/videos/clip_compressed.mp4" 250000 (75000000 # 1000000))]) as ->
      by by vm_compute.
    do 2 apply list_elem_of_further. apply list_elem_of_here. }
  assert (log ∈ sidecars E self) as Hlog by (by vm_compute).
  assert (tree ∈ sidecars E self) as Htree by (by vm_compute).
  assert (log ∉ locked E) as Hl1 by apply not_elem_of_empty.
  assert (tree ∉ locked E) as Hl2 by apply not_elem_of_empty.
  split; [exact Hf |]. split; [exact Hlog |]. split; [exact Htree |].
  split; [exact Hl1 |]. split; [exact Hl2 |].
  split.
  - apply (finished_session_is_clean E self fs _ _ _ log Hf Hlog Hl1).
  - apply (finished_session_is_clean E self fs _ _ _ tree Hf Htree Hl2).
Defined.

(** ** The processes of a session *)

Lemma launches_app (Δ1 Δ2 : list event) :
  launches (Δ1 ++ Δ2) = launches Δ1 ++ launches Δ2.
Proof. apply omap_app. Qed.

Lemma launches_cons (e : event) (Δ : list event) :
  launches (e :: Δ) = launches [e] ++ launches Δ.
Proof. apply (launches_app [e]). Qed.

Lemma launches_cons_other (e : event) (Δ : list event) :
  (∀ cmd started, e ≠ Popen cmd started) → launches (e :: Δ) = launches Δ.
Proof. intros He. destruct e; try done. by destruct (He cmd started). Qed.

Lemma launches_signals (ss : list signal) : launches (Sig <$> ss) = [].
Proof. by induction ss. Qed.

Lemma launches_loop (duration : Q) (reads : list (list byte))
    (buffer : list byte) (left : option (list byte)) (Δ : list event) :
  loop_trace duration reads buffer left Δ → launches Δ = [].
Proof.
  induction 1 as [| | chunk reads buffer left Δ _ IH]; [done | done |].
  rewrite (launches_cons (Poll _)), (launches_cons (Read _)), launches_app.
  by rewrite launches_signals, IH.
Qed.

Lemma launches_pass (duration : Q) (cmd : list string) (proc : process)
    (cancelled : bool) (Δ : list event) :
  pass_trace duration cmd proc cancelled Δ → launches Δ = [(cmd, true)].
Proof.
  destruct 1 as [Δ Hloop | Δ buffer ending Hloop Hexit].
  - by rewrite (launches_cons (Popen _ _)), (launches_loop _ _ _ _ _ Hloop).
  - rewrite (launches_cons (Popen _ _)), launches_app.
    rewrite (launches_loop _ _ _ _ _ Hloop).
    rewrite (launches_cons Wait), launches_app.
    assert (launches ending = []) as ->; [| done].
    destruct Hexit; [done | done |]. unfold failure_tail.
    by destruct (bool_decide _).
Qed.

Lemma launches_sidecar (E : env) (self : worker) (Δ : list event) :
  Forall (sidecar_event E self) Δ → launches Δ = [].
Proof.
  induction 1 as [| e Δ He _ IH]; [done |].
  rewrite (launches_cons e), IH. by destruct e.
Qed.

Lemma launches_plan_logs (self : worker) (duration : Q)
    (video_kbps audio_kbps : Z) :
  launches (plan_logs self duration video_kbps audio_kbps) = [].
Proof. unfold plan_logs. by destruct (0 <? _). Qed.

Lemma launches_final (E : env) (self : worker) (ffmpeg : string)
    (duration : Q) (video_kbps : Z) (vf_arg : option string)
    (fs fs' : gset string) (o : outcome unit) (Δ : list event) :
  final_pass E self ffmpeg duration video_kbps vf_arg fs o fs' Δ →
  ∃ started,
    launches Δ = [(pass2_cmd E self ffmpeg vf_arg video_kbps, started)].
Proof.
  destruct 1 as [| proc cancelled Δ o fs' Δd _ Hpass Hd
                 | proc cancelled Δ Δc _ Hpass HΔc].
  - by exists false.
  - exists true. rewrite !launches_app, (launches_pass _ _ _ _ _ Hpass).
    by destruct Hd.
  - exists true. rewrite !launches_app, (launches_pass _ _ _ _ _ Hpass).
    rewrite !launches_cons_other by done.
    by rewrite launches_app, launches_signals, (launches_sidecar _ _ _ HΔc).
Qed.

(** X11. A session starts at most two processes, in the order of the
    passes: none, or the first pass only, or the first pass, started, and
    then the second; with an AV1 encoder there is no first pass, and it is
    none or the second pass only. *)
Theorem at_most_two_processes (E : env) (self : worker) (w : world) :
  ∃ w' Δ,
    run E self w = (Val (), w') ∧ trace w' = trace w ++ Δ ∧
    ∃ ffmpeg video_kbps vf_arg,
      let first := pass1_cmd E self ffmpeg vf_arg video_kbps in
      let second := pass2_cmd E self ffmpeg vf_arg video_kbps in
      if is_av1 self
      then launches Δ = [] ∨ ∃ started, launches Δ = [(second, started)]
      else launches Δ = [] ∨
           (∃ started, launches Δ = [(first, started)]) ∨
           (∃ started, launches Δ = [(first, true); (second, started)]).
Proof.
  destruct (run_events E self w) as (w' & Δ & Hrun & Htrace & _ & Hrt).
  exists w', Δ. split; [exact Hrun |]. split; [exact Htrace |]. clear Hrun Htrace.
  destruct Hrt as [e | duration video_kbps audio_kbps
                   | ffmpeg duration video_kbps audio_kbps vf_arg o fs' Δ
                       _ _ _ Hsession].
  - exists ""%string, 0, None. cbv zeta. destruct (is_av1 self); by left.
  - exists ""%string, 0, None. cbv zeta.
    rewrite launches_app, launches_plan_logs.
    destruct (is_av1 self); by left.
  - exists ffmpeg, video_kbps, vf_arg. cbv zeta.
    assert (launches (uncaught o) = []) as Hu by by destruct o as [[] |].
    rewrite !launches_app, launches_plan_logs, Hu, app_nil_r. cbn [app].
    destruct Hsession as [o fs' Δ Hav1 Hfinal | Hav1 Hproc
      | proc c Δ Hav1 Hproc Hpass | proc c Δ o fs' Δ' Hav1 Hproc Hpass Hfinal];
      rewrite Hav1.
    + apply launches_final in Hfinal as [started Hl]. right. exists started.
      by rewrite launches_app, Hl.
    + right. left. by exists false.
    + right. left. exists true.
      rewrite launches_app, launches_cons_other, launches_app by done.
      by rewrite (launches_pass _ _ _ _ _ Hpass).
    + apply launches_final in Hfinal as [started Hl]. right. right.
      exists started.
      rewrite launches_app, launches_cons_other, launches_app by done.
      by rewrite (launches_pass _ _ _ _ _ Hpass), launches_cons_other, Hl.
Qed.

(** ** Exit statuses *)






(** ** Probe results that lack a field *)

(** X13. When the probe succeeds but its result has no 'format' entry, the
    only signal of the session is the error of the uncaught [KeyError];
    when the entry is there and its duration is missing or not positive,
    the only signal is the error of an invalid duration. No process is
    started in either case. *)
Theorem probe_without_duration (E : env) (self : worker) (w : world)
    (ffmpeg : string) (info : media_info) :
  find_ffmpeg E = Some ffmpeg →
  probe_video E (input_path self) = Some info →
  match info_format info with
  | None =>
      run E self w
      = (Val (), add_events [Sig (Error (Uncaught (KeyError "format")))] w)
  | Some fmt =>
      (default 0 (fmt_duration fmt) <= 0)%Q →
      run E self w = (Val (), add_events [Sig (Error InvalidDuration)] w)
  end.
Proof.
  intros Hffmpeg Hinfo. unfold run. rewrite Hffmpeg, Hinfo.
  destruct (info_format info) as [fmt |].
  - intros Hd. apply Qle_bool_iff in Hd. cbv zeta. rewrite Hd.
    erewrite try_except_val; [done |]. apply emit_eq.
  - erewrite try_except_raised by done. apply emit_eq.
Qed.

Lemma probe_without_duration_witness :
  let info := {| info_format := Some {| fmt_duration := None |};
                 info_streams := [] |} in
  let E := {| platform_win32 := false;
              os_path_dirname := posix_dirname;
              os_path_join := posix_join;
              os_path_getsize := λ _, 0;
              find_ffmpeg := Some "/usr/bin/ffmpeg"%string;
              probe_video := λ _, Some info;
              subprocess_Popen := λ _, None;
              cancel_at := None;
              locked := ∅ |} in
  let self := sample_worker "libx264" "/videos/clip_compressed.mp4" in
  find_ffmpeg E = Some "/usr/bin/ffmpeg"%string ∧
  probe_video E (input_path self) = Some info ∧
  (default 0 (fmt_duration {| fmt_duration := None |}) <= 0)%Q ∧
  run E self (initial_world sample_files)
  = (Val (), add_events [Sig (Error InvalidDuration)]
               (initial_world sample_files)).
Proof.
  intros info E self.
  assert (find_ffmpeg E = Some "/usr/bin/ffmpeg"%string) as H1 by reflexivity.
  assert (probe_video E (input_path self) = Some info) as H2 by reflexivity.
  assert (default 0 (fmt_duration {| fmt_duration := None |}) <= 0)%Q as H3
    by discriminate.
  split; [exact H1 |]. split; [exact H2 |]. split; [exact H3 |].
  exact (probe_without_duration E self (initial_world sample_files) _ info
           H1 H2 H3).
Defined.

(** ** Formatting *)

Lemma Qfloor_unique (x : Q) (z : Z) :
  (inject_Z z <= x)%Q → (x < inject_Z (z + 1))%Q → Qfloor x = z.
Proof.
  intros Hle Hlt.
  pose proof (Qfloor_le x) as H1. pose proof (Qlt_floor x) as H2.
  assert (inject_Z z < inject_Z (Qfloor x + 1))%Q as H3 by lra.
  assert (inject_Z (Qfloor x) < inject_Z (z + 1))%Q as H4 by lra.
  rewrite <- Zlt_Qlt in H3, H4. lia.
Qed.

Lemma Qfloor_bounds (x : Q) :
  (inject_Z (Qfloor x) <= x)%Q ∧ (x < inject_Z (Qfloor x) + 1)%Q.
Proof.
  split; [apply Qfloor_le |].
  pose proof (Qlt_floor x) as H. by rewrite inject_Z_plus in H.
Qed.

Lemma Qfloor_div_pos (x : Q) (n : Z) :
  0 < n → Qfloor (x / inject_Z n) = Qfloor x / n.
Proof.
  intros Hn.
  destruct (Qfloor_bounds x) as [H1 H2].
  pose proof (Z.div_mod (Qfloor x) n ltac:(lia)) as Hdm.
  pose proof (Z.mod_pos_bound (Qfloor x) n Hn) as Hmod.
  set (q := Qfloor x / n) in *. set (r := Qfloor x mod n) in *.
  assert (0 < inject_Z n)%Q as Hn' by (by rewrite <- (Zlt_Qlt 0)).
  assert (inject_Z (Qfloor x) == inject_Z n * inject_Z q + inject_Z r)%Q as Hq.
  { rewrite <- inject_Z_mult, <- inject_Z_plus. by rewrite <- Hdm. }
  assert (0 <= inject_Z r)%Q as Hr0 by (rewrite <- (Zle_Qle 0); lia).
  assert (inject_Z r + 1 <= inject_Z n)%Q as Hr1.
  { change 1%Q with (inject_Z 1).
    rewrite <- (inject_Z_plus r 1), <- Zle_Qle. lia. }
  apply Qfloor_unique.
  - apply Qle_shift_div_l; [exact Hn' |]. nra.
  - rewrite inject_Z_plus. change (inject_Z 1) with 1%Q.
    apply Qlt_shift_div_r; [exact Hn' |]. nra.
Qed.

Lemma Qfloor_minus_mult (x : Q) (n k : Z) :
  Qfloor (x - inject_Z n * inject_Z k) = Qfloor x - n * k.
Proof.
  destruct (Qfloor_bounds x) as [H1 H2].
  apply Qfloor_unique.
  - unfold Z.sub. rewrite inject_Z_plus, inject_Z_opp, inject_Z_mult. lra.
  - replace (Qfloor x - n * k + 1) with (Qfloor x + 1 + - (n * k)) by lia.
    rewrite !inject_Z_plus, inject_Z_opp, inject_Z_mult.
    change (inject_Z 1) with 1%Q. lra.
Qed.

Lemma py_int_inject_Z (z : Z) : py_int (inject_Z z) = z.
Proof. unfold py_int. simpl. apply Z.quot_1_r. Qed.

Lemma pad2_length (n : Z) : 0 <= n < 60 → String.length (pad2 n) = 2%nat.
Proof.
  intros Hn. rewrite <- (Z2Nat.id n) by lia.
  assert (Z.to_nat n < 60)%nat as Hk by lia.
  generalize dependent (Z.to_nat n). clear Hn n. intros k Hk.
  do 60 (destruct k as [| k]; [reflexivity |]). lia.
Qed.

(** X14. [format_duration] of a number of seconds >= 0 shows the whole
    seconds as a clock: hours, minutes below 60 and seconds below 60 that add
    up to the floor of the number, the minutes and seconds on two digits
    when something stands before them, and the hours left out when zero. *)
Theorem format_duration_clock (seconds : Q) :
  (0 <= seconds)%Q →
  ∃ h m s,
    0 <= h ∧ 0 <= m < 60 ∧ 0 <= s < 60 ∧
    h * 3600 + m * 60 + s = Qfloor seconds ∧
    format_duration seconds
    = (if 0 <? h then (pretty h +:+ ":" +:+ pad2 m +:+ ":" +:+ pad2 s)%string
       else (pretty m +:+ ":" +:+ pad2 s)%string) ∧
    String.length (pad2 m) = 2%nat ∧ String.length (pad2 s) = 2%nat.
Proof.
  intros Hpos. set (t := Qfloor seconds).
  assert (0 <= t) as Ht.
  { unfold t. rewrite <- (Qfloor_Z 0). by apply Qfloor_resp_le. }
  exists (t / 3600), (t mod 3600 / 60), (t mod 60).
  assert (0 <= t mod 3600 / 60 < 60 ∧ 0 <= t mod 60 < 60 ∧ 0 <= t / 3600 ∧
          t / 3600 * 3600 + t mod 3600 / 60 * 60 + t mod 60 = t) as (Hm & Hs & Hh & Hsum).
  { Z.div_mod_to_equations. lia. }
  split; [exact Hh |]. split; [exact Hm |]. split; [exact Hs |].
  split; [exact Hsum |].
  split; [| split; by apply pad2_length].
  unfold format_duration, float_floordiv, float_mod. cbv zeta.
  change 3600%Q with (inject_Z 3600). change 60%Q with (inject_Z 60).
  assert (0 <= seconds - inject_Z 60 * inject_Z (Qfloor (seconds / inject_Z 60)))%Q
    as Hrem.
  { rewrite Qfloor_div_pos by lia. fold t.
    destruct (Qfloor_bounds seconds) as [H1 _]. fold t in H1.
    assert (inject_Z 60 * inject_Z (t / 60) <= inject_Z t)%Q; [| lra].
    rewrite <- inject_Z_mult, <- Zle_Qle. Z.div_mod_to_equations. lia. }
  rewrite (py_int_floor _ Hrem), !py_int_inject_Z.
  repeat first [ rewrite Qfloor_div_pos by lia | rewrite Qfloor_minus_mult ].
  fold t.
  replace (t - 3600 * (t / 3600)) with (t mod 3600)
    by (Z.div_mod_to_equations; lia).
  replace (t - 60 * (t / 60)) with (t mod 60)
    by (Z.div_mod_to_equations; lia).
  reflexivity.
Qed.

Lemma format_duration_clock_witness :
  (0 <= 3725.5)%Q ∧
  ∃ h m s,
    h * 3600 + m * 60 + s = 3725 ∧
    format_duration 3725.5
    = (if 0 <? h then (pretty h +:+ ":" +:+ pad2 m +:+ ":" +:+ pad2 s)%string
       else (pretty m +:+ ":" +:+ pad2 s)%string) ∧
    format_duration 3725.5 = "1:02:05"%string.
Proof.
  assert (0 <= 3725.5)%Q as H by discriminate.
  split; [exact H |].
  destruct (format_duration_clock 3725.5 H)
    as (h & m & s & _ & _ & _ & Hsum & Hfmt & _).
  exists h, m, s. split; [exact Hsum |]. split; [exact Hfmt | reflexivity].
Defined.
Lemma round_half_even_near (x : Q) :
  (inject_Z (round_half_even x) - (1 # 2) <= x)%Q ∧
  (x <= inject_Z (round_half_even x) + (1 # 2))%Q.
Proof.
  unfold round_half_even. cbv zeta.
  destruct (Qfloor_bounds x) as [H1 H2].
  destruct (x - inject_Z (Qfloor x) ?= 1 # 2)%Q eqn:Hc.
  - apply Qeq_alt in Hc.
    destruct (Z.even (Qfloor x));
      rewrite ?inject_Z_plus; change (inject_Z 1) with 1%Q; lra.
  - apply Qlt_alt in Hc. lra.
  - apply Qgt_alt in Hc.
    rewrite inject_Z_plus. change (inject_Z 1) with 1%Q. lra.
Qed.

Lemma string_app_assoc (s1 s2 s3 : string) :
  ((s1 +:+ s2) +:+ s3 = s1 +:+ s2 +:+ s3)%string.
Proof.
  induction s1 as [| c s1 IH]; [done |].
  change (String c ((s1 +:+ s2) +:+ s3) = String c (s1 +:+ s2 +:+ s3))%string.
  by rewrite IH.
Qed.

Lemma digit_length (d : Z) : 0 <= d < 10 → String.length (pretty d) = 1%nat.
Proof.
  intros Hd. rewrite <- (Z2Nat.id d) by lia.
  assert (Z.to_nat d < 10)%nat as Hk by lia.
  generalize dependent (Z.to_nat d). clear Hd d. intros k Hk.
  do 10 (destruct k as [| k]; [reflexivity |]). lia.
Qed.

(** X15. From 1024 bytes to below 1024 * 1024, [format_size] shows the size
    in KB with one decimal, within half a tenth of a KB of the true size.
    The number shown goes up to 1024.0, which the last bytes below one MB
    reach. *)
Theorem format_size_kilobytes (bytes_val : Z) :
  1024 <= bytes_val < 1024 ^ 2 →
  ∃ tenths,
    10 <= tenths <= 10240 ∧
    Z.abs (1024 * tenths - 10 * bytes_val) <= 512 ∧
    format_size bytes_val
    = (pretty (tenths / 10) +:+ "." +:+ pretty (tenths mod 10) +:+ " KB")%string.
Proof.
  intros Hrange. unfold format_size.
  destruct (Z.ltb_spec bytes_val 1024); [lia |].
  destruct (Z.ltb_spec bytes_val (1024 ^ 2)); [| lia].
  unfold format_fixed. cbv zeta.
  assert (0 <= inject_Z bytes_val / 1024)%Q as Hpos.
  { apply Qle_shift_div_l; [reflexivity |].
    assert (0 <= inject_Z bytes_val)%Q by (rewrite <- (Zle_Qle 0); lia). lra. }
  apply Qle_bool_iff in Hpos. rewrite Hpos.
  set (tenths := round_half_even (inject_Z bytes_val / 1024 * inject_Z (10 ^ Z.of_nat 1))).
  destruct (round_half_even_near
              (inject_Z bytes_val / 1024 * inject_Z (10 ^ Z.of_nat 1)))
    as [Hlo Hhi].
  fold tenths in Hlo, Hhi.
  change (inject_Z (10 ^ Z.of_nat 1)) with 10%Q in Hlo, Hhi.
  assert (inject_Z bytes_val / 1024 * 10 == inject_Z bytes_val * (10 # 1024))%Q
    as Heq by (field; discriminate).
  rewrite Heq in Hlo, Hhi.
  assert (inject_Z (1024 * tenths - 10 * bytes_val) <= inject_Z 512)%Q as Hup.
  { unfold Z.sub. rewrite inject_Z_plus, inject_Z_opp, !inject_Z_mult.
    change (inject_Z 1024) with 1024%Q. change (inject_Z 10) with 10%Q.
    change (inject_Z 512) with 512%Q. lra. }
  assert (inject_Z (- 512) <= inject_Z (1024 * tenths - 10 * bytes_val))%Q as Hdown.
  { unfold Z.sub. rewrite inject_Z_plus, inject_Z_opp, !inject_Z_mult.
    change (inject_Z 1024) with 1024%Q. change (inject_Z 10) with 10%Q.
    change (inject_Z (- 512)) with (- 512)%Q. lra. }
  rewrite <- Zle_Qle in Hup, Hdown.
  exists tenths. split; [lia |]. split; [lia |].
  change (10 ^ Z.of_nat 1) with 10.
  assert (zfill 1 (pretty (tenths mod 10)) = pretty (tenths mod 10)) as ->.
  { unfold zfill. rewrite digit_length; [done |].
    apply Z.mod_pos_bound. lia. }
  cbn [String.append]. by rewrite !string_app_assoc.
Qed.

Lemma format_size_kilobytes_witness :
  1024 <= 1048575 < 1024 ^ 2 ∧
  ∃ tenths,
    10 <= tenths <= 10240 ∧
    format_size 1048575
    = (pretty (tenths / 10) +:+ "." +:+ pretty (tenths mod 10) +:+ " KB")%string ∧
    format_size 1048575 = "1024.0 KB"%string.
Proof.
  assert (1024 <= 1048575 < 1024 ^ 2) as H by (by vm_compute).
  split; [exact H |].
  destruct (format_size_kilobytes 1048575 H) as (tenths & Ht & _ & Hfmt).
  exists tenths. split; [exact Ht |]. split; [exact Hfmt | reflexivity].
Defined.
(** ** Locating the tools *)

Lemma which_any_some (h : host) (names : list string) (p : string) :
  Host.which_any h names = Some p →
  truthy p = true ∧ ∃ name, name ∈ names ∧ shutil_which h name = Some p.
Proof.
  induction names as [| name names IH]; [done |]. cbn [Host.which_any].
  destruct (shutil_which h name) as [path |] eqn:Hw.
  - destruct (truthy path) eqn:Ht.
    + intros [= <-]. split; [done |]. exists name. split; [set_solver | done].
    + intros [Hp (n & Hn & Hwn)]%IH. split; [done |]. exists n. set_solver.
  - intros [Hp (n & Hn & Hwn)]%IH. split; [done |]. exists n. set_solver.
Qed.

Lemma which_any_none (h : host) (names : list string) :
  Host.which_any h names = None ↔
  ∀ name p, name ∈ names → shutil_which h name = Some p → truthy p = false.
Proof.
  induction names as [| name names IH]; cbn [Host.which_any].
  - split; [| done]. intros _ name p Hin. by apply elem_of_nil in Hin.
  - destruct (shutil_which h name) as [path |] eqn:Hw.
    + destruct (truthy path) eqn:Ht.
      * split; [done |]. intros H. specialize (H name path).
        rewrite Ht in H. discriminate H; [set_solver | done].
      * rewrite IH. split.
        -- intros H n p [-> | Hn]%elem_of_cons Hp; [congruence | by eapply H].
        -- intros H n p Hn Hp. apply (H n p); [set_solver | done].
    + rewrite IH. split.
      * intros H n p [-> | Hn]%elem_of_cons Hp; [congruence | by eapply H].
      * intros H n p Hn Hp. apply (H n p); [set_solver | done].
Qed.

(** X16. [find_ffmpeg] prefers the search path: its result is never an
    empty string, and is what the search path gives for ffmpeg or ffmpeg.exe,
    or, only when the search path gives nothing usable, one of the fixed
    locations that is a file. It is [None] exactly when the search path and
    the fixed locations all fail. *)
Theorem find_ffmpeg_spec (h : host) :
  let on_path p :=
    ∃ name, name ∈ ["ffmpeg"; "ffmpeg.exe"]%string ∧ shutil_which h name = Some p in
  let path_fails :=
    ∀ name p, name ∈ ["ffmpeg"; "ffmpeg.exe"]%string →
              shutil_which h name = Some p → truthy p = false in
  match Host.find_ffmpeg h with
  | Some p =>
      truthy p = true ∧
      (on_path p ∨ (path_fails ∧ p ∈ Host.common ∧ os_path_isfile h p = true))
  | None =>
      path_fails ∧ ∀ p, p ∈ Host.common → os_path_isfile h p = false
  end.
Proof.
  intros on_path path_fails. unfold Host.find_ffmpeg.
  destruct (Host.which_any h _) as [p |] eqn:Hw.
  - apply which_any_some in Hw as [Hp Hn]. split; [done | by left].
  - pose proof (proj1 (which_any_none _ _) Hw) as Hnone. clear Hw.
    destruct (List.find _ _) as [p |] eqn:Hf.
    + apply find_some in Hf as [Hin Hfile]. apply list_elem_of_In in Hin.
      split; [| right; done].
      unfold Host.common in Hin.
      repeat (apply elem_of_cons in Hin as [-> | Hin]; [done |]).
      by apply elem_of_nil in Hin.
    + split; [done |]. intros p Hp.
      apply list_elem_of_In in Hp.
      pose proof (find_none _ _ Hf p Hp) as H. exact H.
Qed.

(** X17. Finding ffmpeg is not enough: when ffprobe is neither on the search
    path nor a file beside the ffmpeg that was found, the probe gives nothing
    and the only signal of the session is the error of a failed probe. *)
Theorem session_needs_ffprobe (h : host) (getsize : string → Z)
    (popen : list string → option process) (cancel : option nat)
    (locked : gset string) (self : worker) (w : world) (ffmpeg : string) :
  Host.find_ffmpeg h = Some ffmpeg →
  (∀ name p, name ∈ ["ffprobe"; "ffprobe.exe"]%string →
             shutil_which h name = Some p → truthy p = false) →
  os_path_isfile h
    (host_join h (host_dirname h ffmpeg)
       ("ffprobe" +:+ (if bool_decide (sys_platform h = "win32"%string)
                       then ".exe" else ""))%string) = false →
  Host.probe_video h (input_path self) = None ∧
  run (host_env h getsize popen cancel locked) self w
  = (Val (), add_events [Sig (Error ProbeFailed)] w).
Proof.
  intros Hffmpeg Hpath Hfile.
  assert (Host.probe_video h (input_path self) = None) as Hprobe.
  { unfold Host.probe_video, Host.find_ffprobe.
    rewrite (proj2 (which_any_none h _) Hpath), Hffmpeg.
    destruct (truthy ffmpeg); [| done]. cbv zeta. by rewrite Hfile. }
  split; [exact Hprobe |].
  unfold run. cbn [find_ffmpeg probe_video host_env].
  rewrite Hffmpeg, Hprobe.
  erewrite try_except_val; [done |]. apply emit_eq.
Qed.

Lemma session_needs_ffprobe_witness :
  let h := {| sys_platform := "linux";
              shutil_which := λ name, if bool_decide (name = "ffmpeg"%string)
                                      then Some "/opt/ff/ffmpeg"%string else None;
              os_path_isfile := λ p, bool_decide (p = "/opt/ff/ffprobe.exe"%string);
              host_dirname := posix_dirname;
              host_join := posix_join;
              ffprobe_run := λ _, Some (sample_info 600) |} in
  let self := sample_worker "libx264" "/videos/clip_compressed.mp4" in
  Host.find_ffmpeg h = Some "/opt/ff/ffmpeg"%string ∧
  (∀ name p, name ∈ ["ffprobe"; "ffprobe.exe"]%string →
             shutil_which h name = Some p → truthy p = false) ∧
  os_path_isfile h "/opt/ff/ffprobe"%string = false ∧
  run (host_env h (λ _, 0) (λ _, None) None ∅) self (initial_world sample_files)
  = (Val (), add_events [Sig (Error ProbeFailed)] (initial_world sample_files)).
Proof.
  intros h self.
  assert (Host.find_ffmpeg h = Some "/opt/ff/ffmpeg"%string) as H1 by reflexivity.
  assert (∀ name p, name ∈ ["ffprobe"; "ffprobe.exe"]%string →
             shutil_which h name = Some p → truthy p = false) as H2.
  { intros name p Hin.
    repeat (apply elem_of_cons in Hin as [-> | Hin]; [done |]).
    by apply elem_of_nil in Hin. }
  assert (os_path_isfile h "/opt/ff/ffprobe"%string = false) as H3 by reflexivity.
  split; [exact H1 |]. split; [exact H2 |]. split; [exact H3 |].
  apply (session_needs_ffprobe h (λ _, 0) (λ _, None) None ∅ self
           (initial_world sample_files) "/opt/ff/ffmpeg" H1 H2 H3).
Defined.

(** ** The bootstrap *)

Lemma try_install_shapes (py : interpreter) (pkg : string) (f1 f2 f3 : list string) :
  let call flags ok :=
    BootCheckCall
      ([sys_executable py; "-m"; "pip"; "install"; pkg; "-q"]%string ++ flags)
      ok in
  let attempts := try_install py pkg [f1; f2; f3] in
  attempts = [call f1 true] ∨
  attempts = [call f1 false; call f2 true] ∨
  attempts = [call f1 false; call f2 false; call f3 true] ∨
  attempts = [call f1 false; call f2 false; call f3 false].
Proof.
  intros call attempts. unfold attempts. cbn [try_install].
  repeat (destruct (check_call_ok py _); [by auto |]). by auto.
Qed.

(** X18. With a recent enough interpreter, [_bootstrap] never exits. It
    tries to import the module under its lower-cased name pyqt6; when that
    fails it runs pip install for PyQt6 with no extra flag, then with --user,
    then with --break-system-packages, stops at the first that succeeds, and
    goes on silently when all three fail. *)
Theorem bootstrap_attempts (py : interpreter) :
  version_ok py = true →
  let call flags ok :=
    BootCheckCall
      ([sys_executable py; "-m"; "pip"; "install"; "PyQt6"; "-q"]%string ++ flags)
      ok in
  (_bootstrap py).1 = None ∧
  if importable py "pyqt6"
  then (_bootstrap py).2 = [BootImport "pyqt6" true]
  else ∃ attempts,
    (_bootstrap py).2 = BootImport "pyqt6" false :: attempts ∧
    (attempts = [call [] true] ∨
     attempts = [call [] false; call ["--user"%string] true] ∨
     attempts = [call [] false; call ["--user"%string] false;
                 call ["--break-system-packages"%string] true] ∨
     attempts = [call [] false; call ["--user"%string] false;
                 call ["--break-system-packages"%string] false]).
Proof.
  intros Hv call. unfold _bootstrap. rewrite Hv. split; [done |].
  cbn [mbind list_bind snd]. unfold ensure_package.
  change (module_name "PyQt6") with "pyqt6"%string. cbv zeta.
  destruct (importable py "pyqt6"); [done |].
  eexists. split; [by rewrite app_nil_r |].
  apply try_install_shapes.
Qed.

Lemma bootstrap_attempts_witness :
  let py := {| version_ok := true;
               sys_executable := "/usr/bin/python3";
               importable := λ name, bool_decide (name = "PyQt6"%string);
               check_call_ok := λ cmd, bool_decide ("--user"%string ∈ cmd) |} in
  version_ok py = true ∧
  importable py "PyQt6" = true ∧
  (∃ attempts, (_bootstrap py).2 = BootImport "pyqt6" false :: attempts) ∧
  (_bootstrap py).2
  = [BootImport "pyqt6" false;
     BootCheckCall ["/usr/bin/python3"; "-m"; "pip"; "install"; "PyQt6"; "-q"]%string
       false;
     BootCheckCall ["/usr/bin/python3"; "-m"; "pip"; "install"; "PyQt6"; "-q";
                    "--user"]%string true].
Proof.
  intros py.
  assert (version_ok py = true) as H by reflexivity.
  split; [exact H |]. split; [reflexivity |].
  destruct (bootstrap_attempts py H) as [_ Hevents].
  change (importable py "pyqt6") with false in Hevents.
  destruct Hevents as (attempts & Heq & _).
  split; [by exists attempts | reflexivity].
Defined.
(** ** Loading a file *)

(** X19. The target size suggested when a file is loaded is at least 1 MB,
    is 1 MB for every file of at most 1 MiB, and for larger files is half
    the size of the file rounded to a whole number of MB: never more than
    the file, and within half a MB of the half. The spin box shows it capped
    at 10000. *)
Theorem suggested_target_bounds (file_size : Z) :
  0 <= file_size →
  let mib := 1024 * 1024 in
  1 <= suggested file_size ∧
  (file_size <= mib → suggested file_size = 1) ∧
  (mib <= file_size →
     suggested file_size * mib <= file_size ∧
     Z.abs (2 * mib * suggested file_size - file_size) <= mib) ∧
  target_size_setValue (suggested file_size)
  = inject_Z (Z.min (suggested file_size) 10000).
Proof.
  intros Hsize mib. unfold suggested.
  set (x := (inject_Z file_size / 1024 / 1024 / 2)%Q).
  destruct (round_half_even_near x) as [Hlo Hhi].
  set (r := round_half_even x) in *.
  assert (x == inject_Z file_size * (1 # 2097152))%Q as Hx
    by (unfold x; field).
  rewrite Hx in Hlo, Hhi.
  assert (inject_Z (2 * mib * r - file_size) <= inject_Z mib)%Q as Hup.
  { unfold Z.sub. rewrite inject_Z_plus, inject_Z_opp, !inject_Z_mult.
    change (inject_Z mib) with 1048576%Q. change (inject_Z 2) with 2%Q. lra. }
  assert (inject_Z (- mib) <= inject_Z (2 * mib * r - file_size))%Q as Hdown.
  { unfold Z.sub. rewrite inject_Z_plus, !inject_Z_opp, !inject_Z_mult.
    change (inject_Z mib) with 1048576%Q. change (inject_Z 2) with 2%Q. lra. }
  rewrite <- Zle_Qle in Hup, Hdown.
  assert (file_size = mib → r = 0) as Htie.
  { intros ->. by vm_compute. }
  split; [lia |]. split; [| split].
  - intros Hsmall. destruct (decide (file_size = mib)) as [Heq | Hne].
    + rewrite (Htie Heq). done.
    + unfold mib in *. lia.
  - intros Hlarge. unfold mib in *. split; lia.
  - unfold target_size_setValue.
    destruct (Z.ltb_spec (Z.max 1 r) 1); [lia | done].
Qed.

Lemma suggested_target_bounds_witness :
  0 <= 5 * 1024 * 1024 ∧
  suggested (5 * 1024 * 1024) = 2 ∧
  suggested (5 * 1024 * 1024) * (1024 * 1024) <= 5 * 1024 * 1024 ∧
  target_size_setValue (suggested (5 * 1024 * 1024)) = 2%Q.
Proof.
  assert (0 <= 5 * 1024 * 1024) as H by lia.
  split; [exact H |]. split; [reflexivity |].
  destruct (suggested_target_bounds (5 * 1024 * 1024) H)
    as (_ & _ & Hlarge & Hspin).
  split; [apply Hlarge; lia |].
  rewrite Hspin. reflexivity.
Defined.

Lemma bool_decide_is_Some {A} (o : option A) :
  bool_decide (is_Some o) = match o with Some _ => true | None => false end.
Proof.
  destruct o.
  - by rewrite bool_decide_eq_true_2.
  - rewrite bool_decide_eq_false_2; [done |]. by intros [? ?].
Qed.

Lemma select_streams_audio (streams : list stream)
    (video_stream audio_stream : option stream) :
  (select_streams streams video_stream audio_stream).2
  = match audio_stream with
    | Some s => Some s
    | None => List.find is_audio streams
    end.
Proof.
  revert video_stream audio_stream.
  induction streams as [| s streams IH]; intros v a;
    cbn [select_streams List.find].
  - by destruct a.
  - rewrite !bool_decide_is_Some. unfold is_audio at 1.
    destruct (bool_decide (codec_type s = Some "video"%string)) eqn:Hv.
    + apply bool_decide_eq_true in Hv.
      rewrite (bool_decide_eq_false_2 (codec_type s = Some "audio"%string))
        by congruence.
      destruct v, a; cbn [negb andb]; by rewrite IH.
    + destruct (bool_decide (codec_type s = Some "audio"%string)) eqn:Ha;
        destruct a; cbn [negb andb]; by rewrite IH.
Qed.

Lemma source_audio_kbps_find (streams : list stream) :
  source_audio_kbps streams 0
  = match List.find is_audio streams with
    | Some s => default 128000 (bit_rate s) / 1000
    | None => 0
    end.
Proof.
  induction streams as [| s streams IH]; [done |].
  cbn [source_audio_kbps List.find]. by destruct (is_audio s).
Qed.

(** X20. The audio stream the window shows for a loaded file is the first
    audio stream of the file, the one whose bit rate the planner takes when
    the audio is copied (128 kbps when the stream has no bit rate); when the
    file has no audio stream the planner counts 0 kbps of audio. *)
Theorem shown_audio_stream_is_planned (streams : list stream) (audio_bitrate : Z) :
  match (select_streams streams None None).2 with
  | Some s =>
      is_audio s = true ∧
      resolve_audio_kbps "copy" audio_bitrate streams
      = default 128000 (bit_rate s) / 1000
  | None =>
      Forall (λ s, is_audio s = false) streams ∧
      resolve_audio_kbps "copy" audio_bitrate streams = 0
  end.
Proof.
  rewrite select_streams_audio.
  assert (resolve_audio_kbps "copy" audio_bitrate streams
          = source_audio_kbps streams 0) as -> by done.
  rewrite source_audio_kbps_find.
  destruct (List.find is_audio streams) as [s |] eqn:Hf.
  - apply find_some in Hf as [_ Hs]. done.
  - split; [| done]. apply Forall_forall. intros s Hs.
    apply list_elem_of_In in Hs. exact (find_none _ _ Hf s Hs).
Qed.
(** ** The window *)

Lemma elem_of_signals (s : signal) (Δ : list event) : s ∈ signals Δ ↔ Sig s ∈ Δ.
Proof.
  unfold signals. rewrite list_elem_of_omap. split.
  - intros (e & He & Hs). destruct e; try done. by injection Hs as ->.
  - intros H. by exists (Sig s).
Qed.

Lemma handle_all_app (evs1 evs2 : list gui_event) (win : window) :
  handle_all (evs1 ++ evs2) win = handle_all evs2 (handle_all evs1 win).
Proof. apply foldl_app. Qed.

Lemma delivered_app (evs1 evs2 : list gui_event) :
  delivered (evs1 ++ evs2) = delivered evs1 ++ delivered evs2.
Proof. apply omap_app. Qed.

(** A session that ends with the status Cancelled emits no [finished]
    signal and, when the output file can be removed, no [error] signal. *)
Lemma run_trace_cancelled_quiet (E : env) (self : worker) (fs fs' : gset string)
    (Δ : list event) :
  run_trace E self fs fs' Δ →
  Sig (Status StatusCancelled) ∈ Δ →
  output_path self ∉ locked E →
  Forall (λ s, terminal s = false) (signals Δ).
Proof.
  intros Hrun Hc Hl.
  assert ((∀ out size ratio, Sig (Finished out size ratio) ∉ Δ) ∧
          (∀ e, Sig (Error e) ∉ Δ)) as [Hf He].
  { setoid_rewrite (elem_of_milestones (Sig (Finished _ _ _))); [| done].
    setoid_rewrite (elem_of_milestones (Sig (Error _))); [| done].
    rewrite elem_of_milestones in Hc by done.
    destruct Hrun as [e | d k a | ffmpeg d k a vf o fs' Δ Hffmpeg Hd Hplan Hsession].
    - leaf.
    - leaf.
    - destruct Hsession as [o fs' Δ Hav1 Hfinal | Hav1 Hproc
        | proc c Δ Hav1 Hproc Hpass | proc c Δ o fs' Δ' Hav1 Hproc Hpass Hfinal].
      + destruct Hfinal as [Hproc | proc c Δ o fs' Δd Hproc Hpass Hdis
          | proc c Δ Δc Hproc Hpass HΔc].
        * leaf.
        * destruct Hdis; leaf; set_solver.
        * leaf.
      + leaf.
      + leaf; set_solver.
      + destruct Hfinal as [Hproc' | proc' c' Δ' o fs' Δd Hproc' Hpass' Hdis
          | proc' c' Δ' Δc Hproc' Hpass' HΔc].
        * leaf.
        * destruct Hdis; leaf; set_solver.
        * leaf. }
  apply Forall_forall. intros s Hs%elem_of_signals.
  destruct s; try done; [by destruct (Hf _ _ _ Hs) | by destruct (He _ Hs)].
Qed.

Lemma handle_keeps_buttons (ev : gui_event) (win : window) :
  match ev with Deliver s => terminal s = false | ClickCancel => True end →
  compress_btn (handle ev win) = compress_btn win ∧
  (cancel_btn win = false → cancel_btn (handle ev win) = false).
Proof.
  destruct ev as [[] |]; cbn [handle terminal]; try done.
  intros _. destruct (cancel_btn win) eqn:Hc; [| done].
  unfold cancel_compression. by destruct (win_worker win).
Qed.

Lemma handle_all_keeps_buttons (evs : list gui_event) (win : window) :
  Forall (λ s, terminal s = false) (delivered evs) →
  compress_btn (handle_all evs win) = compress_btn win ∧
  (cancel_btn win = false → cancel_btn (handle_all evs win) = false).
Proof.
  revert win. induction evs as [| ev evs IH]; intros win Hevs; [done |].
  change (handle_all (ev :: evs) win) with (handle_all evs (handle ev win)).
  assert (match ev with Deliver s => terminal s = false | ClickCancel => True end
          ∧ Forall (λ s, terminal s = false) (delivered evs)) as [Hev Hrest].
  { destruct ev as [s |]; [| done]. by apply Forall_cons in Hevs. }
  destruct (handle_keeps_buttons ev win Hev) as [Hc Hk].
  destruct (IH (handle ev win) Hrest) as [Hc' Hk'].
  split; [congruence | auto].
Qed.

Lemma click_disables_cancel (evs : list gui_event) (win : window) :
  Forall (λ s, terminal s = false) (delivered evs) →
  is_Some (win_worker win) → ClickCancel ∈ evs →
  cancel_btn (handle_all evs win) = false.
Proof.
  intros Hevs Hworker Hclick.
  apply list_elem_of_split in Hclick as (evs1 & evs2 & ->).
  rewrite delivered_app in Hevs. apply Forall_app in Hevs as [H1 H2].
  rewrite handle_all_app.
  change (handle_all (ClickCancel :: evs2) ?w)
    with (handle_all evs2 (handle ClickCancel w)).
  apply handle_all_keeps_buttons; [exact H2 |].
  cbn [handle]. destruct (cancel_btn (handle_all evs1 win)) eqn:Hc; [| done].
  unfold cancel_compression.
  assert (win_worker (handle_all evs1 win) = win_worker win) as ->.
  { clear. revert win. induction evs1 as [| ev evs1 IH]; intros win; [done |].
    change (handle_all (ev :: evs1) win) with (handle_all evs1 (handle ev win)).
    rewrite IH. destruct ev as [[] |]; cbn [handle]; try done.
    destruct (cancel_btn win); [| done]. unfold cancel_compression.
    by destruct (win_worker win) eqn:Hw. }
  destruct Hworker as [x Hx]. by rewrite Hx.
Qed.

Lemma delivered_snoc_inv (evs : list gui_event) (ss0 : list signal) (s : signal) :
  delivered evs = ss0 ++ [s] →
  ∃ evs0 clicks,
    evs = evs0 ++ Deliver s :: clicks ∧ delivered evs0 = ss0 ∧
    delivered clicks = [].
Proof.
  induction evs as [| ev evs IH] using rev_ind.
  - by destruct ss0.
  - rewrite delivered_app. destruct ev as [s' |].
    + change (delivered [Deliver s']) with [s'].
      intros [<- [= ->]]%app_inj_tail. by exists evs, [].
    + change (delivered [ClickCancel]) with (@nil signal).
      rewrite app_nil_r. intros (evs0 & clicks & -> & H0 & Hc)%IH.
      exists evs0, (clicks ++ [ClickCancel]).
      split; [by rewrite <- app_assoc |]. split; [done |].
      by rewrite delivered_app, Hc.
Qed.

Lemma clicks_on_disabled_button (clicks : list gui_event) (win : window) :
  delivered clicks = [] → cancel_btn win = false →
  handle_all clicks win = win.
Proof.
  induction clicks as [| ev clicks IH]; [done |].
  destruct ev as [s |]; [done |]. intros Hd Hc.
  change (handle_all (ClickCancel :: clicks) win)
    with (handle_all clicks (handle ClickCancel win)).
  cbn [handle]. rewrite Hc. by apply IH.
Qed.

Lemma find_ffmpeg_truthy (h : host) (ffmpeg : string) :
  Host.find_ffmpeg h = Some ffmpeg → truthy ffmpeg = true.
Proof.
  unfold Host.find_ffmpeg.
  destruct (Host.which_any h _) as [p |] eqn:Hw.
  - intros [= <-]. by apply which_any_some in Hw as [? _].
  - intros [Hin _]%find_some. unfold Host.common in Hin.
    repeat (destruct Hin as [<- | Hin]; [done |]). done.
Qed.

Lemma start_compression_started (h : host) (pl : pathlib) (win : window)
    (input ffmpeg : string) :
  win_input_path win = Some input → truthy input = true →
  Host.find_ffmpeg h = Some ffmpeg →
  let started := start_compression h pl win in
  let out_name :=
    (path_stem pl input +:+ "_compressed" +:+ format_combo (win_settings win))%string in
  win_worker started
  = Some {| input_path := input;
            output_path := path_sibling pl input out_name;
            target_mb := target_size_spin (win_settings win);
            video_codec := codec_combo (win_settings win);
            audio_codec := audio_map (audio_combo (win_settings win));
            preset := preset_combo (win_settings win);
            resolution := res_combo (win_settings win);
            audio_bitrate := audio_bitrate_spin (win_settings win) |} ∧
  compress_btn started = false ∧ cancel_btn started = true.
Proof.
  intros Hinput Htruthy Hffmpeg. unfold start_compression.
  by rewrite Hinput, Htruthy, Hffmpeg, (find_ffmpeg_truthy _ _ Hffmpeg).
Qed.

(** X21. A cancelled session leaves the window locked: started from the
    window, a session that ends with the status Cancelled (its output file
    removable) delivers neither [finished] nor [error], so after all its
    signals the Compress button is still disabled, and so is the Cancel
    button once it has been clicked. *)
Theorem cancelled_session_locks_compress (h : host) (pl : pathlib)
    (win0 : window) (input ffmpeg : string) (self : worker) (E : env)
    (fs : gset string) (evs : list gui_event) :
  win_input_path win0 = Some input → truthy input = true →
  Host.find_ffmpeg h = Some ffmpeg →
  win_worker (start_compression h pl win0) = Some self →
  let Δ := trace (run E self (initial_world fs)).2 in
  Sig (Status StatusCancelled) ∈ Δ →
  output_path self ∉ locked E →
  delivered evs = signals Δ →
  let win := handle_all evs (start_compression h pl win0) in
  compress_btn win = false ∧ (ClickCancel ∈ evs → cancel_btn win = false).
Proof.
  intros Hinput Htruthy Hffmpeg Hself Δ Hc Hl Hevs win.
  destruct (start_compression_started h pl win0 input ffmpeg Hinput Htruthy
              Hffmpeg) as (_ & Hcompress & _).
  assert (Forall (λ s, terminal s = false) (delivered evs)) as Hquiet.
  { rewrite Hevs. unfold Δ in *.
    destruct (run_events E self (initial_world fs))
      as (w' & Δ' & Hrun & Htrace & _ & Hrt).
    rewrite Hrun in *. cbn [snd initial_world trace app files] in *.
    rewrite Htrace in *. by eapply run_trace_cancelled_quiet. }
  split.
  - unfold win.
    destruct (handle_all_keeps_buttons evs (start_compression h pl win0) Hquiet)
      as [-> _]. exact Hcompress.
  - intros Hclick. apply click_disables_cancel; [done | | done].
    rewrite Hself. by eexists.
Qed.

(** X22. After all the signals of a session that was not cancelled, the
    window is usable again: Compress is enabled, Cancel is disabled, and the
    status is either Done, with the progress bar at 100 and the output path
    of the session remembered, or Error. *)
Theorem uncancelled_session_unlocks_window (E : env) (self : worker)
    (fs : gset string) (evs : list gui_event) (win0 : window) :
  let Δ := trace (run E self (initial_world fs)).2 in
  Sig (Status StatusCancelled) ∉ Δ →
  delivered evs = signals Δ →
  let win := handle_all evs win0 in
  compress_btn win = true ∧ cancel_btn win = false ∧
  ((status_label win = LabelDone ∧ progress_bar win = 100 ∧
    win_last_output win = Some (output_path self)) ∨
   status_label win = LabelError).
Proof.
  intros Δ Hc Hevs win. unfold Δ in *.
  destruct (run_events E self (initial_world fs))
    as (w' & Δ' & Hrun & Htrace & _ & Hrt).
  rewrite Hrun in *. cbn [snd initial_world trace app files] in *.
  rewrite Htrace in *. clear Hrun Htrace Δ.
  destruct (run_trace_ends E self _ _ _ Hrt)
    as [(ss0 & s & Hss & Hs & Hss0) | [_ Hlast]]; cycle 1.
  { exfalso. apply Hc, elem_of_signals.
    destruct (signals Δ') as [| s ss] using rev_ind; [done |].
    rewrite last_snoc in Hlast. injection Hlast as ->. set_solver. }
  rewrite Hss in Hevs.
  apply delivered_snoc_inv in Hevs as (evs0 & clicks & -> & _ & Hclicks).
  unfold win. rewrite handle_all_app.
  change (handle_all (Deliver s :: clicks) ?w)
    with (handle_all clicks (handle (Deliver s) w)).
  assert (Sig s ∈ Δ') as Hin.
  { apply elem_of_signals. rewrite Hss. set_solver. }
  destruct s as [| | | out size ratio | e]; try done.
  - destruct (run_trace_finished E self _ _ _ _ _ _ Hrt Hin) as (-> & _ & _).
    rewrite clicks_on_disabled_button by done.
    split; [done |]. split; [done |]. by left.
  - rewrite clicks_on_disabled_button by done.
    split; [done |]. split; [done |]. by right.
Qed.

Lemma delivered_fmap (ss : list signal) : delivered (Deliver <$> ss) = ss.
Proof. induction ss as [| s ss IH]; [done |]. cbn. by f_equal. Qed.

Lemma cancelled_session_locks_compress_witness :
  let self := sample_worker "libx264" "/videos/clip_compressed.mp4" in
  let E := posix_host 600 short_log 0 (Some 1%nat) ∅ in
  let Δ := trace (run E self (initial_world sample_files)).2 in
  let evs := ClickCancel :: (Deliver <$> signals Δ) in
  let win := handle_all evs (start_compression sample_host posix_pathlib sample_window) in
  win_input_path sample_window = Some "/videos/clip.mp4"%string ∧
  truthy "/videos/clip.mp4" = true ∧
  Host.find_ffmpeg sample_host = Some "/usr/bin/ffmpeg"%string ∧
  win_worker (start_compression sample_host posix_pathlib sample_window)
    = Some self ∧
  Sig (Status StatusCancelled) ∈ Δ ∧
  (output_path self ∉ locked E) ∧
  delivered evs = signals Δ ∧
  ClickCancel ∈ evs ∧
  compress_btn win = false ∧ cancel_btn win = false.
Proof.
  intros self E Δ evs win.
  assert (win_input_path sample_window = Some "/videos/clip.mp4"%string) as H1
    by reflexivity.
  assert (truthy "/videos/clip.mp4" = true) as H2 by reflexivity.
  assert (Host.find_ffmpeg sample_host = Some "/usr/bin/ffmpeg"%string) as H3
    by reflexivity.
  assert (win_worker (start_compression sample_host posix_pathlib sample_window)
          = Some self) as H4 by reflexivity.
  assert (Sig (Status StatusCancelled) ∈ Δ) as H5.
  { apply (elem_of_milestones (Sig (Status StatusCancelled)) _ eq_refl).
    assert (milestones Δ
            = [Sig (Status StatusAnalyzing); Terminate;
               Sig (Status StatusCancelled)]) as -> by by vm_compute.
    do 2 apply list_elem_of_further. apply list_elem_of_here. }
  assert (output_path self ∉ locked E) as H6 by apply not_elem_of_empty.
  assert (delivered evs = signals Δ) as H7
    by exact (delivered_fmap (signals Δ)).
  assert (ClickCancel ∈ evs) as H8 by apply list_elem_of_here.
  split; [exact H1 |]. split; [exact H2 |]. split; [exact H3 |].
  split; [exact H4 |]. split; [exact H5 |]. split; [exact H6 |].
  split; [exact H7 |]. split; [exact H8 |].
  destruct (cancelled_session_locks_compress sample_host posix_pathlib
              sample_window _ _ self E sample_files evs H1 H2 H3 H4 H5 H6 H7)
    as [Hcompress Hcancel].
  split; [exact Hcompress | exact (Hcancel H8)].
Defined.

Lemma uncancelled_session_unlocks_window_witness :
  let self := sample_worker "libx264" "/videos/clip_compressed.mp4" in
  let E := posix_host 600 short_log 0 None ∅ in
  let Δ := trace (run E self (initial_world sample_files)).2 in
  let evs := Deliver <$> signals Δ in
  let win0 := start_compression sample_host posix_pathlib sample_window in
  let win := handle_all evs win0 in
  (Sig (Status StatusCancelled) ∉ Δ) ∧
  delivered evs = signals Δ ∧
  compress_btn win0 = false ∧
  compress_btn win = true ∧ cancel_btn win = false ∧
  status_label win = LabelDone ∧
  win_last_output win = Some "/videos/clip_compressed.mp4"%string.
Proof.
  intros self E Δ evs win0 win.
  assert (Sig (Status StatusCancelled) ∉ Δ) as H1.
  { rewrite (elem_of_milestones (Sig (Status StatusCancelled)) _ eq_refl).
    assert (milestones Δ
            = [Sig (Status StatusAnalyzing); Sig (Status StatusEncoding);
               Sig (Finished "/videos/clip_compressed.mp4" 250000
                      (75000000 # 1000000))]) as -> by by vm_compute.
    intros H. repeat (apply elem_of_cons in H as [H | H]; [discriminate H |]).
    by apply elem_of_nil in H. }
  assert (delivered evs = signals Δ) as H2
    by exact (delivered_fmap (signals Δ)).
  split; [exact H1 |]. split; [exact H2 |]. split; [reflexivity |].
  destruct (uncancelled_session_unlocks_window E self sample_files evs win0
              H1 H2) as (Hcompress & Hcancel & [(Hdone & _ & Hout) | Herror]).
  - split; [exact Hcompress |]. split; [exact Hcancel |].
    split; [exact Hdone | exact Hout].
  - exfalso. assert (status_label win = LabelDone) as Hdone by by vm_compute.
    fold win in Herror. congruence.
Defined.
(** ** The output path of a session *)

Lemma is_slash_iff (c : ascii) : is_slash c = true ↔ c = "/"%char.
Proof. unfold is_slash. apply Ascii.eqb_eq. Qed.

Lemma split_slash_nonempty (t : list ascii) : split_slash t ≠ [].
Proof.
  induction t as [| c t IH]; [done |]. cbn [split_slash].
  destruct (is_slash c); [done |]. by destruct (split_slash t).
Qed.

Lemma split_slash_line (t : list ascii) :
  "/"%char ∉ t → split_slash t = [t].
Proof.
  induction t as [| c t IH]; [done |]. intros Hc. cbn [split_slash].
  destruct (is_slash c) eqn:Hs.
  - apply is_slash_iff in Hs as ->. set_solver.
  - rewrite IH by set_solver. done.
Qed.

Lemma split_slash_sep (x y : list ascii) :
  "/"%char ∉ x → split_slash (x ++ "/"%char :: y) = x :: split_slash y.
Proof.
  induction x as [| c x IH]; intros Hx; cbn [app split_slash].
  - done.
  - destruct (is_slash c) eqn:Hs.
    + apply is_slash_iff in Hs. subst c. set_solver.
    + rewrite IH by set_solver. done.
Qed.

Lemma split_slash_pieces (t : list ascii) :
  Forall (λ piece, "/"%char ∉ piece) (split_slash t).
Proof.
  induction t as [| c t IH]; cbn [split_slash].
  - repeat constructor. set_solver.
  - destruct (is_slash c) eqn:Hs.
    + constructor; [set_solver | done].
    + destruct (split_slash t) as [| piece pieces].
      * repeat constructor. intros [Heq | H]%elem_of_cons; [| set_solver].
        subst c. discriminate Hs.
      * apply Forall_cons in IH as [Hp Hps]. constructor; [| done].
        intros [Heq | H]%elem_of_cons; [| done].
        subst c. discriminate Hs.
Qed.

Lemma split_slash_join (comps : list (list ascii)) :
  Forall (λ c, "/"%char ∉ c) comps → comps ≠ [] →
  split_slash (join_slash comps) = comps.
Proof.
  induction comps as [| c comps IH]; [done |].
  intros [Hc Hcs]%Forall_cons _. destruct comps as [| c' comps].
  - by apply split_slash_line.
  - change (join_slash (c :: c' :: comps))
      with (c ++ "/"%char :: join_slash (c' :: comps)).
    rewrite split_slash_sep by done. by rewrite IH.
Qed.

Lemma posix_parts_eq (p : string) :
  posix_parts p = List.filter keeps (split_slash (list_ascii_of_string p)).
Proof. done. Qed.

Lemma keeps_component (c : list ascii) : component c → keeps c = true.
Proof.
  intros (H1 & H2 & _). unfold keeps.
  by rewrite !bool_decide_eq_false_2.
Qed.

Lemma filter_components (comps : list (list ascii)) :
  Forall component comps → List.filter keeps comps = comps.
Proof.
  induction 1 as [| c comps Hc _ IH]; [done |].
  cbn [List.filter]. by rewrite keeps_component, IH.
Qed.

Lemma posix_parts_components (p : string) : Forall component (posix_parts p).
Proof.
  rewrite posix_parts_eq.
  pose proof (split_slash_pieces (list_ascii_of_string p)) as H.
  induction H as [| c comps Hc _ IH]; [constructor |].
  cbn [List.filter]. destruct (keeps c) eqn:Hk; [| done].
  constructor; [| done]. unfold keeps in Hk.
  apply andb_prop in Hk as [H1%negb_true_iff%bool_decide_eq_false
                            H2%negb_true_iff%bool_decide_eq_false].
  done.
Qed.

Lemma list_ascii_of_string_app (s1 s2 : string) :
  list_ascii_of_string (s1 +:+ s2)
  = list_ascii_of_string s1 ++ list_ascii_of_string s2.
Proof.
  induction s1 as [| c s1 IH]; [done |].
  change (c :: list_ascii_of_string (s1 +:+ s2)
          = c :: list_ascii_of_string s1 ++ list_ascii_of_string s2).
  by rewrite IH.
Qed.

Lemma list_ascii_of_join (comps : list (list ascii)) :
  list_ascii_of_string (str_join "/" (string_of_list_ascii <$> comps))
  = join_slash comps.
Proof.
  induction comps as [| c comps IH]; [done |].
  destruct comps as [| c' comps].
  - apply list_ascii_of_string_of_list_ascii.
  - change (str_join "/" (string_of_list_ascii <$> c :: c' :: comps))
      with (string_of_list_ascii c +:+ "/"
            +:+ str_join "/" (string_of_list_ascii <$> c' :: comps))%string.
    rewrite !list_ascii_of_string_app, list_ascii_of_string_of_list_ascii, IH.
    done.
Qed.

Lemma posix_root_cases (p : string) :
  posix_root p = ""%string ∨ posix_root p = "/"%string ∨ posix_root p = "//"%string.
Proof.
  unfold posix_root. cbv zeta.
  destruct (_ && _); [by auto |]. destruct (startswith _ _); by auto.
Qed.

(** The components of a path written from a root and components are those
    components. *)
Lemma posix_parts_str (root : string) (comps : list (list ascii)) :
  root = ""%string ∨ root = "/"%string ∨ root = "//"%string →
  Forall component comps → comps ≠ [] →
  posix_parts (posix_str root comps) = comps.
Proof.
  intros Hroot Hcomps Hne. unfold posix_str.
  rewrite (bool_decide_eq_false_2 (comps = [])) by done.
  rewrite andb_false_r, posix_parts_eq, list_ascii_of_string_app.
  rewrite list_ascii_of_join.
  assert (split_slash (join_slash comps) = comps) as Hsplit.
  { apply split_slash_join; [| done].
    eapply Forall_impl; [exact Hcomps |]. by intros c (_ & _ & ?). }
  destruct Hroot as [-> | [-> | ->]]; cbn [list_ascii_of_string app split_slash];
    rewrite ?(proj2 (is_slash_iff "/") eq_refl), Hsplit; cbn [List.filter keeps];
    by apply filter_components.
Qed.

Lemma suffix_length_bound (name : list ascii) (n : nat) :
  suffix_length name = Some n → (n < List.length name)%nat ∧ (0 < n)%nat.
Proof.
  unfold suffix_length. cbv zeta.
  destruct (_ && _) eqn:H; [| done]. intros [= <-].
  apply andb_prop in H as [_ H%Nat.ltb_lt]. lia.
Qed.


Lemma join_slash_head (comps : list (list ascii)) :
  Forall component comps → comps ≠ [] →
  ∃ c t, join_slash comps = c :: t ∧ c ≠ "/"%char.
Proof.
  intros Hcomps Hne. destruct comps as [| comp comps]; [done |].
  apply Forall_cons in Hcomps as [(Hnil & _ & Hslash) _].
  destruct comp as [| c comp]; [done |].
  assert (c ≠ "/"%char) by (intros ->; set_solver).
  destruct comps; cbn; eauto.
Qed.

Lemma posix_root_str (root : string) (comps : list (list ascii)) :
  root = ""%string ∨ root = "/"%string ∨ root = "//"%string →
  Forall component comps → comps ≠ [] →
  posix_root (posix_str root comps) = root.
Proof.
  intros Hroot Hcomps Hne. unfold posix_str, posix_root. cbv zeta.
  rewrite (bool_decide_eq_false_2 (comps = [])) by done.
  rewrite andb_false_r, list_ascii_of_string_app, list_ascii_of_join.
  destruct (join_slash_head comps Hcomps Hne) as (c & t & -> & Hc).
  assert (Ascii.eqb "/" c = false) as Hb by by apply Ascii.eqb_neq.
  destruct Hroot as [-> | [-> | ->]];
    cbn [list_ascii_of_string app startswith]; rewrite ?Ascii.eqb_refl, ?Hb;
    reflexivity.
Qed.

Lemma take_while_split (P : ascii → bool) (t : list ascii) :
  ∃ rest, t = take_while P t ++ rest ∧
          ∀ c rest', rest = c :: rest' → P c = false.
Proof.
  induction t as [| c t (rest & Ht & Hrest)]; cbn [take_while].
  - exists []. by split.
  - destruct (P c) eqn:Hc.
    + exists rest. split; [cbn; by f_equal | done].
    + exists (c :: t). split; [done |]. by intros ? ? [= <- _].
Qed.

Lemma suffix_starts_with_dot (name : list ascii) (n : nat) :
  suffix_length name = Some n →
  ∃ t, drop (List.length name - n) name = "."%char :: t.
Proof.
  unfold suffix_length. cbv zeta.
  destruct (take_while_split (λ c, negb (Ascii.eqb c ".")) (rev name))
    as (rest & Hsplit & Hrest).
  set (after := take_while _ (rev name)) in *.
  destruct (_ && _) eqn:H; [| done]. intros [= <-].
  apply andb_prop in H as [_ H%Nat.ltb_lt].
  assert (name = rev rest ++ rev after) as Hname.
  { rewrite <- (rev_involutive name), Hsplit. apply rev_app_distr. }
  destruct rest as [| c rest'].
  { exfalso. rewrite Hname in H. cbn in H. rewrite length_rev in H. lia. }
  specialize (Hrest c rest' eq_refl). apply negb_false_iff, Ascii.eqb_eq in Hrest.
  subst c. exists (rev after).
  rewrite Hname at 2. cbn [rev]. rewrite <- !app_assoc. cbn [app].
  assert (List.length name - S (List.length after) = List.length (rev rest'))%nat
    as ->.
  { rewrite Hname. cbn [rev]. rewrite !length_app, !length_rev. cbn. lia. }
  apply drop_app_length.
Qed.

Lemma stem_suffix (p : string) :
  list_ascii_of_string (posix_stem p) ++ posix_suffix p = posix_name p ∧
  (posix_suffix p = [] ∨ ∃ t, posix_suffix p = "."%char :: t).
Proof.
  unfold posix_stem, posix_suffix. cbv zeta.
  rewrite list_ascii_of_string_of_list_ascii.
  destruct (suffix_length (posix_name p)) as [n |] eqn:Hn.
  - split; [apply take_drop |]. right. by apply suffix_starts_with_dot.
  - split; [apply app_nil_r | by left].
Qed.

Lemma posix_name_component (p : string) :
  posix_name p = [] ∨ component (posix_name p).
Proof.
  unfold posix_name. pose proof (posix_parts_components p) as H.
  destruct (posix_parts p) as [| c comps] using rev_ind; [by left |].
  right. rewrite last_last. by apply Forall_app in H as [_ [? _]%Forall_cons].
Qed.

Lemma out_name_chars (input ext : string) :
  list_ascii_of_string (out_name input ext)
  = list_ascii_of_string (posix_stem input)
    ++ list_ascii_of_string "_compressed" ++ list_ascii_of_string ext.
Proof. unfold out_name. by rewrite !list_ascii_of_string_app. Qed.

Lemma out_name_component (input ext : string) :
  "/"%char ∉ list_ascii_of_string ext →
  component (list_ascii_of_string (out_name input ext)).
Proof.
  intros Hext. rewrite out_name_chars.
  destruct (stem_suffix input) as [Hname _].
  assert ("/"%char ∉ list_ascii_of_string (posix_stem input)) as Hstem.
  { destruct (posix_name_component input) as [Hnil | (_ & _ & Hslash)].
    - rewrite Hnil in Hname. apply app_eq_nil in Hname as [-> _]. apply not_elem_of_nil.
    - rewrite <- Hname in Hslash. set_solver. }
  split; [| split].
  - intros H. apply (f_equal List.length) in H.
    rewrite !length_app in H. cbn in H. lia.
  - intros H. apply (f_equal List.length) in H.
    rewrite !length_app in H. cbn in H. lia.
  - rewrite !elem_of_app. intros [H | [H | H]]; [done | | done].
    cbn in H. set_solver.
Qed.

Lemma out_name_differs (input ext : string) :
  list_ascii_of_string (out_name input ext) ≠ posix_name input.
Proof.
  rewrite out_name_chars. destruct (stem_suffix input) as [<- Hsuffix].
  intros H%app_inv_head. destruct Hsuffix as [Hnil | [t Hdot]].
  - by rewrite Hnil in H.
  - rewrite Hdot in H. discriminate H.
Qed.

Lemma posix_sibling_out (input ext : string) :
  "/"%char ∉ list_ascii_of_string ext →
  let comps :=
    removelast (posix_parts input) ++ [list_ascii_of_string (out_name input ext)] in
  posix_sibling input (out_name input ext) = posix_str (posix_root input) comps ∧
  Forall component comps ∧ comps ≠ [].
Proof.
  intros Hext comps. pose proof (out_name_component input ext Hext) as Hout.
  assert (posix_parts (out_name input ext)
          = [list_ascii_of_string (out_name input ext)]) as Hparts.
  { rewrite posix_parts_eq, split_slash_line by apply Hout.
    cbn [List.filter]. by rewrite keeps_component. }
  unfold posix_sibling.
  assert (startswith ["/"%char] (list_ascii_of_string (out_name input ext))
          = false) as ->.
  { destruct Hout as (_ & _ & Hslash).
    destruct (list_ascii_of_string (out_name input ext)) as [| c t]; [done |].
    cbn [startswith]. destruct (Ascii.eqb_spec "/" c) as [<- | _]; [| done].
    set_solver. }
  rewrite Hparts. split; [done |]. split.
  - apply Forall_app. split; [| by apply Forall_singleton].
    pose proof (posix_parts_components input) as H.
    destruct (posix_parts input) as [| c rest] using rev_ind; [constructor |].
    rewrite removelast_last. by apply Forall_app in H as [? _].
  - subst comps. by destruct (removelast _).
Qed.

(** X23. With POSIX paths, the output file of a session started from the
    window is named by the stem of the input name, then _compressed, then
    the extension of the chosen format; for an extension without a slash it
    lies in the directory of the input file and its name differs from the
    name of the input file, so the output path is never the input path. *)
Theorem output_beside_input (h : host) (win0 : window) (input ffmpeg : string) :
  win_input_path win0 = Some input → truthy input = true →
  Host.find_ffmpeg h = Some ffmpeg →
  "/"%char ∉ list_ascii_of_string (format_combo (win_settings win0)) →
  ∃ self,
    win_worker (start_compression h posix_pathlib win0) = Some self ∧
    input_path self = input ∧
    posix_name (output_path self)
    = list_ascii_of_string
        (posix_stem input +:+ "_compressed" +:+ format_combo (win_settings win0)) ∧
    posix_name (output_path self) ≠ posix_name input ∧
    removelast (posix_parts (output_path self)) = removelast (posix_parts input) ∧
    posix_root (output_path self) = posix_root input.
Proof.
  intros Hinput Htruthy Hffmpeg Hext.
  destruct (start_compression_started h posix_pathlib win0 input ffmpeg
              Hinput Htruthy Hffmpeg) as (Hworker & _ & _).
  eexists. split; [exact Hworker |]. cbn [input_path output_path posix_pathlib
    path_sibling path_stem].
  split; [done |].
  set (ext := format_combo (win_settings win0)) in *.
  fold (out_name input ext).
  destruct (posix_sibling_out input ext Hext) as (-> & Hcomps & Hne).
  pose proof (posix_parts_str _ _ (posix_root_cases input) Hcomps Hne) as Hparts.
  assert (posix_name (posix_str (posix_root input)
            (removelast (posix_parts input)
             ++ [list_ascii_of_string (out_name input ext)]))
          = list_ascii_of_string (out_name input ext)) as Hname.
  { unfold posix_name. by rewrite Hparts, last_last. }
  split; [exact Hname |]. split; [| split].
  - rewrite Hname. apply out_name_differs.
  - by rewrite Hparts, removelast_last.
  - by apply posix_root_str; [apply posix_root_cases | |].
Qed.

Lemma output_beside_input_witness :
  win_input_path sample_window = Some "/videos/clip.mp4"%string ∧
  truthy "/videos/clip.mp4" = true ∧
  Host.find_ffmpeg sample_host = Some "/usr/bin/ffmpeg"%string ∧
  ("/"%char ∉ list_ascii_of_string (format_combo (win_settings sample_window))) ∧
  ∃ self,
    win_worker (start_compression sample_host posix_pathlib sample_window)
      = Some self ∧
    output_path self = "/videos/clip_compressed.mp4"%string ∧
    posix_name (output_path self) ≠ posix_name "/videos/clip.mp4".
Proof.
  assert (win_input_path sample_window = Some "/videos/clip.mp4"%string) as H1
    by reflexivity.
  assert (truthy "/videos/clip.mp4" = true) as H2 by reflexivity.
  assert (Host.find_ffmpeg sample_host = Some "/usr/bin/ffmpeg"%string) as H3
    by reflexivity.
  assert ("/"%char ∉ list_ascii_of_string
                       (format_combo (win_settings sample_window))) as H4.
  { intros H. repeat (apply elem_of_cons in H as [H | H]; [discriminate H |]).
    by apply elem_of_nil in H. }
  split; [exact H1 |]. split; [exact H2 |]. split; [exact H3 |].
  split; [exact H4 |].
  destruct (output_beside_input sample_host sample_window _ _ H1 H2 H3 H4)
    as (self & Hworker & _ & _ & Hdiffers & _ & _).
  exists self. split; [exact Hworker |]. split; [| exact Hdiffers].
  assert (Some self
          = Some (sample_worker "libx264" "/videos/clip_compressed.mp4")) as Heq
    by (rewrite <- Hworker; reflexivity).
  by injection Heq as ->.
Defined.
